(** * probe.py: layout probing of ART's ArtField across Android releases

    A shallow embedding of [probe.py].  Python text is a list of characters
    whose code points are below 256; Python integers are [Z]; lengths and
    indices are [nat].  Everything external to the script (git, the
    cross-compilers, objdump, the file system, the environment) is a field
    of a [host] record or of the mutable [world] that the script's
    operations thread through. *)

From Stdlib Require Import String Ascii.
From Stdlib Require Import ZArith List Bool Arith Lia.
From Stdlib Require Import DecimalString DecimalZ Permutation Sorted.
Import ListNotations.

(** ** Text *)

Definition str := list ascii.

Definition lit (s : string) : str := list_ascii_of_string s.

Fixpoint str_eqb (a b : str) : bool :=
  match a, b with
  | [], [] => true
  | x :: a', y :: b' => Ascii.eqb x y && str_eqb a' b'
  | _, _ => false
  end.

Definition nl : str := [ascii_of_nat 10].

Fixpoint starts_with (p s : str) : bool :=
  match p, s with
  | [], _ => true
  | _ :: _, [] => false
  | a :: p', b :: s' => Ascii.eqb a b && starts_with p' s'
  end.

(** [sub in s] *)
Fixpoint contains (sub s : str) : bool :=
  starts_with sub s ||
  match s with
  | [] => false
  | _ :: s' => contains sub s'
  end.

(** [s[i:j]] for [0 <= i <= j] *)
Definition slice {A} (s : list A) (i j : nat) : list A :=
  firstn (j - i) (skipn i s).

(** [range(start, stop, step)] for a positive step *)
Definition range (start stop step : nat) : list nat :=
  map (fun k => start + k * step) (seq 0 ((stop - start + step - 1) / step)).

(** [sep.join(parts)] *)
Fixpoint join (sep : str) (parts : list str) : str :=
  match parts with
  | [] => []
  | [p] => p
  | p :: rest => p ++ sep ++ join sep rest
  end.

(** [s.split(sep)] for a one-character separator *)
Fixpoint split_on (sep : ascii) (s : str) : list str :=
  match s with
  | [] => [[]]
  | c :: s' =>
      if Ascii.eqb c sep then [] :: split_on sep s'
      else match split_on sep s' with
           | [] => [[c]]
           | w :: ws => (c :: w) :: ws
           end
  end.

(** [str.replace(old, new)]: the occurrences of [old] are found from left to
    right and do not overlap.  [go k] has [k] characters of the occurrence
    just replaced still to pass over. *)
Fixpoint replace_go (old new : str) (k : nat) (s : str) : str :=
  match s with
  | [] => []
  | c :: s' =>
      match k with
      | S k' => replace_go old new k' s'
      | O =>
          if starts_with old s
          then new ++ replace_go old new (length old - 1) s'
          else c :: replace_go old new 0 s'
      end
  end.

Definition replace (old new s : str) : str :=
  match old with
  | [] => new ++ flat_map (fun c => c :: new) s
  | _ :: _ => replace_go old new 0 s
  end.

(** Character classes of Python 3 text (and of [re] on text patterns),
    on the code points below 256. *)
Definition code (c : ascii) : nat := nat_of_ascii c.

Definition between (lo hi n : nat) : bool := (lo <=? n) && (n <=? hi).

Definition is_space (c : ascii) : bool :=
  let n := code c in
  between 9 13 n || between 28 32 n || (n =? 133) || (n =? 160).

Definition is_digit (c : ascii) : bool := between 48 57 (code c).

Definition is_word (c : ascii) : bool :=
  let n := code c in
  between 48 57 n || between 65 90 n || between 97 122 n || (n =? 95)
  || (n =? 170) || (n =? 178) || (n =? 179) || (n =? 181) || (n =? 185)
  || (n =? 186) || between 188 190 n
  || between 192 214 n || between 216 246 n || between 248 255 n.

Fixpoint lstrip (s : str) : str :=
  match s with
  | c :: s' => if is_space c then lstrip s' else s
  | [] => []
  end.

Definition rstrip (s : str) : str := rev (lstrip (rev s)).

(** [s.strip()] *)
Definition strip (s : str) : str := rstrip (lstrip s).

(** [str(n)] and ["{}".format(n)] for an integer *)
Definition str_of_Z (n : Z) : str :=
  lit (NilZero.string_of_int (Z.to_int n)).

(** ** Exceptions *)

Inductive exn : Type :=
| CalledProcessError (returncode : Z) (cmd : list str) (stderr : str)
| KeyError (key : str)
| IndexError
| ValueError
| TypeError
| OSError (path : str).

Inductive res (A : Type) : Type :=
| Ok (a : A)
| Raise (e : exn).
Arguments Ok {A} a.
Arguments Raise {A} e.

Definition res_bind {A B} (r : res A) (f : A -> res B) : res B :=
  match r with
  | Ok a => f a
  | Raise e => Raise e
  end.

(** A list comprehension whose element expression can raise: elements are
    evaluated from left to right and the first exception ends it. *)
Fixpoint traverse {A B} (f : A -> res B) (l : list A) : res (list B) :=
  match l with
  | [] => Ok []
  | x :: l' =>
      res_bind (f x) (fun y =>
      res_bind (traverse f l') (fun ys => Ok (y :: ys)))
  end.

(** ** Regular expressions of the shape the script uses

    Both patterns of the script that are matched against unknown text are
    a sequence of character classes, each repeated greedily at least
    [least] times.  [re] tries the longest repetition first and gives
    characters back one at a time when the rest of the pattern fails. *)

Record atom : Type := { cls : ascii -> bool; least : nat }.

Fixpoint span (p : ascii -> bool) (s : str) : nat :=
  match s with
  | c :: s' => if p c then S (span p s') else 0
  | [] => 0
  end.

(** Tries the repetition counts [k], [k-1], ..., [least] in that order. *)
Fixpoint give_back (k least : nat) (s : str) (rest : str -> option (list str))
  : option (list str) :=
  if k <? least then None
  else match rest (skipn k s) with
       | Some pieces => Some (firstn k s :: pieces)
       | None =>
           match k with
           | O => None
           | S k' => give_back k' least s rest
           end
       end.

(** The text taken by each atom in the first successful match at the start
    of [s]. *)
Fixpoint match_atoms (atoms : list atom) (s : str) : option (list str) :=
  match atoms with
  | [] => Some []
  | a :: atoms' =>
      give_back (span (cls a) s) (least a) s (match_atoms atoms')
  end.

(** The class [[\w\s]]. *)
Definition word_or_space (c : ascii) : bool := is_word c || is_space c.

(** [re.compile(r"^\s+\d+\s+([\w\s]+)\s{2,}", re.MULTILINE)] *)
Definition section_data_pattern : list atom :=
  [ {| cls := is_space; least := 1 |};
    {| cls := is_digit; least := 1 |};
    {| cls := is_space; least := 1 |};
    {| cls := word_or_space; least := 1 |};
    {| cls := is_space; least := 2 |} ].

(** The index of the atom that group 1 encloses. *)
Definition section_data_group : nat := 3.

(** [pattern.findall(text)] for a pattern that starts with [^] under
    [re.MULTILINE] and has one group: a match can start at the start of the
    text and after each newline; the search resumes where the last match
    ended.  [k] is the number of characters of the last match still to pass
    over, [bol] says whether the current position starts a line. *)
Fixpoint findall_go (atoms : list atom) (group : nat) (k : nat) (bol : bool)
  (s : str) : list str :=
  match s with
  | [] => []
  | c :: s' =>
      let bol' := Ascii.eqb c (ascii_of_nat 10) in
      match k with
      | S k' => findall_go atoms group k' bol' s'
      | O =>
          match (if bol then match_atoms atoms s else None) with
          | Some pieces =>
              nth group pieces []
                :: findall_go atoms group (length (concat pieces) - 1) bol' s'
          | None => findall_go atoms group 0 bol' s'
          end
      end
  end.

Definition findall (atoms : list atom) (group : nat) (text : str) : list str :=
  findall_go atoms group 0 true text.

(** ** Integers from text and from bytes *)

Definition hex_digit_value (c : ascii) : option Z :=
  let n := code c in
  if between 48 57 n then Some (Z.of_nat (n - 48))
  else if between 97 102 n then Some (Z.of_nat (n - 87))
  else if between 65 70 n then Some (Z.of_nat (n - 55))
  else None.

(** The digits of [int(s, 16)]: at least one, single underscores only
    between two digits. *)
Fixpoint hex_digits (acc : Z) (after_digit : bool) (s : str) : option Z :=
  match s with
  | [] => if after_digit then Some acc else None
  | c :: s' =>
      if Ascii.eqb c "_"%char
      then if after_digit then hex_digits acc false s' else None
      else match hex_digit_value c with
           | Some d => hex_digits (16 * acc + d)%Z true s'
           | None => None
           end
  end.

Definition hex_unsigned (s : str) : option Z :=
  match s with
  | z :: x :: s' =>
      if Ascii.eqb z "0"%char
         && (Ascii.eqb x "x"%char || Ascii.eqb x "X"%char)
      then match s' with
           | u :: s'' =>
               if Ascii.eqb u "_"%char then hex_digits 0 false s''
               else hex_digits 0 false s'
           | [] => None
           end
      else hex_digits 0 false s
  | _ => hex_digits 0 false s
  end.

(** The white space that [int] passes over at both ends of its text: the
    ASCII white space, and U+0085 and U+00A0, which it turns into spaces
    first.  Unlike [str.strip] it does not pass over U+001C to U+001F. *)
Definition int_space (c : ascii) : bool :=
  let n := code c in
  between 9 13 n || (n =? 32) || (n =? 133) || (n =? 160).

Fixpoint lstrip_of (p : ascii -> bool) (s : str) : str :=
  match s with
  | c :: s' => if p c then lstrip_of p s' else s
  | [] => []
  end.

Definition strip_of (p : ascii -> bool) (s : str) : str :=
  rev (lstrip_of p (rev (lstrip_of p s))).

(** [int(s, 16)] *)
Definition int16 (s : str) : res Z :=
  let r :=
    match strip_of int_space s with
    | c :: s' =>
        if Ascii.eqb c "-"%char then option_map Z.opp (hex_unsigned s')
        else if Ascii.eqb c "+"%char then hex_unsigned s'
        else hex_unsigned (c :: s')
    | [] => None
    end in
  match r with
  | Some n => Ok n
  | None => Raise ValueError
  end.

Definition is_byte (b : Z) : bool := ((0 <=? b) && (b <? 256))%Z.

Fixpoint little_endian (bs : list Z) : Z :=
  match bs with
  | [] => 0
  | b :: bs' => (b + 256 * little_endian bs')%Z
  end.

(** [int.from_bytes(bs, byteorder="little")] for a list of integers *)
Definition int_from_bytes_little (bs : list Z) : res Z :=
  if forallb is_byte bs then Ok (little_endian bs) else Raise ValueError.

(** ** BinaryExtractor *)

Definition hex_bytes_of (output : str) : str :=
  replace (lit " ") []
    (join [] (findall section_data_pattern section_data_group output)).

Definition raw_bytes_of (hex_bytes : str) : res (list Z) :=
  traverse (fun i => int16 (slice hex_bytes i (i + 2)))
    (range 0 (length hex_bytes) 2).

Definition words_of (raw_bytes : list Z) : res (list Z) :=
  traverse (fun i => int_from_bytes_little (slice raw_bytes i (i + 4)))
    (range 0 (length raw_bytes) 4).

Definition parse_objdump_section_as_uint32_array (output : str)
  : res (list Z) :=
  let hex_bytes := hex_bytes_of output in
  res_bind (raw_bytes_of hex_bytes) words_of.

(** ** Dictionaries

    [api_levels], the triplet tables, [dict.fromkeys] and the
    [OrderedDict] of [main] keep their keys in insertion order: assigning
    to a key that is present keeps its place. *)

Fixpoint dict_get {V} (d : list (str * V)) (k : str) : option V :=
  match d with
  | [] => None
  | (k', v) :: d' => if str_eqb k' k then Some v else dict_get d' k
  end.

Fixpoint dict_set {V} (d : list (str * V)) (k : str) (v : V)
  : list (str * V) :=
  match d with
  | [] => [(k, v)]
  | (k', v') :: d' =>
      if str_eqb k' k then (k', v) :: d' else (k', v') :: dict_set d' k v
  end.

Definition dict_keys {V} (d : list (str * V)) : list str := map fst d.

(** [dict.fromkeys(keys)] *)
Definition dict_fromkeys (keys : list str) : list (str * unit) :=
  fold_left (fun d k => dict_set d k tt) keys [].

Definition host_triplets_generic : list (str * str) :=
  [ (lit "x86", lit "i686-linux-android");
    (lit "x86_64", lit "x86_64-linux-android");
    (lit "arm", lit "arm-linux-androideabi");
    (lit "arm64", lit "aarch64-linux-android") ].

Definition host_triplets_abi : list (str * str) :=
  [ (lit "x86", lit "i686-linux-android");
    (lit "x86_64", lit "x86_64-linux-android");
    (lit "arm", lit "armv7a-linux-androideabi");
    (lit "arm64", lit "aarch64-linux-android") ].

Definition api_levels : list (str * Z) :=
  [ (lit "5.0", 21); (lit "5.1", 22); (lit "6.0", 23); (lit "7.0", 24);
    (lit "7.1", 25); (lit "8.0", 26); (lit "8.1", 27); (lit "9.0", 28);
    (lit "10.0", 29) ]%Z.

Definition ignored_errors : list str :=
  [ lit "is not a member of"; lit "has no member named" ].

(** ** Release tags *)

Definition digit_value (c : ascii) : Z := Z.of_nat (code c - 48).

(** [tag_pattern.match(name)] for
    [^android-(((\d)\.(\d))|(q)-)], then the groups turned into
    [(major, minor)]. *)
Definition try_parse_tag (name : str) : option (Z * Z) :=
  if starts_with (lit "android-") name then
    let rest := skipn 8 name in
    let codename :=
      if starts_with (lit "q-") rest then Some (10, 0)%Z else None in
    match rest with
    | a :: d :: b :: _ =>
        if is_digit a && Ascii.eqb d "."%char && is_digit b
        then Some (digit_value a, digit_value b)
        else codename
    | _ => codename
    end
  else None.

Definition is_relevant_tag (name : str) : bool :=
  match try_parse_tag name with
  | None => false
  | Some (major, _) => (5 <=? major)%Z
  end.

Record AndroidVersion : Type := {
  tag : str;
  major : Z;
  minor : Z;
  api_level : Z
}.

Definition from_tag (t : str) : res AndroidVersion :=
  match try_parse_tag t with
  | None => Raise TypeError
  | Some (ma, mi) =>
      let key := str_of_Z ma ++ lit "." ++ str_of_Z mi in
      match dict_get api_levels key with
      | None => Raise (KeyError key)
      | Some level =>
          Ok {| tag := t; major := ma; minor := mi; api_level := level |}
      end
  end.

(** ** The world the script runs in *)

Inductive node : Type :=
| File (content : str)
| Dir.

(** What the script writes to its standard output: [print(text)], and the
    final [print(json.dumps(result, indent=2))], a JSON object whose members
    are in the order of the dictionary. *)
Inductive output_item : Type :=
| Line (text : str)
| Json (table : list (str * list str)).

Record world : Type := {
  fs : str -> option node;
  printed : list output_item;
  spawned : list (list str)
}.

Record completed : Type := {
  returncode : Z;
  stdout : str;
  stderr : str
}.

Record host : Type := {
  (** the directory of the script *)
  root_dir : str;
  (** [os.environ] *)
  environ : str -> option str;
  (** a child process given its argument vector and working directory:
      [None] when it cannot be started, else what it returns and the file
      system it leaves *)
  exec : list str -> option str -> world
         -> option (completed * (str -> option node));
  (** the file that the error of a child that cannot be started names: the
      program or, when that is what is missing, the working directory *)
  start_failure : list str -> option str -> world -> str;
  (** [glob.glob] *)
  glob_glob : str -> world -> list str;
  (** the name [tempfile] picks for a prefix and a suffix *)
  mktemp : str -> str -> world -> str;
  (** the order in which a [set] of these elements is iterated *)
  set_elements : list str -> list str
}.

Definition M (A : Type) : Type := world -> res A * world.

Definition ret {A} (a : A) : M A := fun w => (Ok a, w).

Definition raise {A} (e : exn) : M A := fun w => (Raise e, w).

Definition bind {A B} (m : M A) (f : A -> M B) : M B :=
  fun w =>
    match m w with
    | (Ok a, w') => f a w'
    | (Raise e, w') => (Raise e, w')
    end.

Notation "x <- m ;; k" := (bind m (fun x => k))
  (at level 61, m at next level, right associativity).
Notation "' pat <- m ;; k" :=
  (bind m (fun x => match x with pat => k end))
  (at level 61, pat pattern, m at next level, right associativity).
Notation "m ;;; k" := (bind m (fun _ => k))
  (at level 61, right associativity).

Definition lift {A} (r : res A) : M A := fun w => (r, w).

(** [try: body finally: cleanup] *)
Definition try_finally {A} (body : M A) (cleanup : M unit) : M A :=
  fun w =>
    let (r, w1) := body w in
    match cleanup w1 with
    | (Ok _, w2) => (r, w2)
    | (Raise e, w2) => (Raise e, w2)
    end.

Definition print (text : str) : M unit :=
  fun w => (Ok tt, {| fs := fs w;
                      printed := printed w ++ [Line text];
                      spawned := spawned w |}).

Definition print_json (table : list (str * list str)) : M unit :=
  fun w => (Ok tt, {| fs := fs w;
                      printed := printed w ++ [Json table];
                      spawned := spawned w |}).

Definition set_node (p : str) (n : option node) (w : world) : world :=
  {| fs := fun q => if str_eqb q p then n else fs w q;
     printed := printed w;
     spawned := spawned w |}.

Definition os_path_exists (p : str) : M bool :=
  fun w => (Ok (match fs w p with Some _ => true | None => false end), w).

Definition os_path_isdir (p : str) : M bool :=
  fun w => (Ok (match fs w p with Some Dir => true | _ => false end), w).

Definition os_unlink (p : str) : M unit :=
  fun w => match fs w p with
           | Some (File _) => (Ok tt, set_node p None w)
           | _ => (Raise (OSError p), w)
           end.

(** What text mode makes of the line ends when a file is read: a
    carriage return, with the line feed that follows it if there is one,
    becomes one line feed. *)
Fixpoint universal_newlines (s : str) : str :=
  match s with
  | [] => []
  | c :: s' =>
      if code c =? 13
      then ascii_of_nat 10
           :: match s' with
              | d :: s'' =>
                  if code d =? 10 then universal_newlines s''
                  else universal_newlines s'
              | [] => []
              end
      else c :: universal_newlines s'
  end.

(** [open(p, "r").read()] *)
Definition read_file (p : str) : M str :=
  fun w => match fs w p with
           | Some (File c) => (Ok (universal_newlines c), w)
           | _ => (Raise (OSError p), w)
           end.

(** [open(p, "w").write(text)]; a line feed is written as it is, as on the
    systems of the NDK. *)
Definition write_file (p : str) (text : str) : M unit :=
  fun w => match fs w p with
           | Some Dir => (Raise (OSError p), w)
           | _ => (Ok tt, set_node p (Some (File text)) w)
           end.

(** [with tempfile.NamedTemporaryFile(prefix, suffix, mode="w") as f]: the
    file exists, empty, while the body runs and is removed when the body is
    left, also by an exception. *)
Definition with_named_temporary_file {A} (h : host) (prefix suffix : str)
  (body : str -> M A) : M A :=
  fun w =>
    let name := mktemp h prefix suffix w in
    let (r, w') := body name (set_node name (Some (File [])) w) in
    (r, set_node name None w').

(** [os.path.join] *)
Definition join2 (a b : str) : str :=
  if starts_with (lit "/") b then b
  else if (length a =? 0) || starts_with (lit "/") (rev a) then a ++ b
  else a ++ lit "/" ++ b.

Definition os_path_join (a : str) (ps : list str) : str := fold_left join2 ps a.

Fixpoint last_index (c : ascii) (i : nat) (s : str) : option nat :=
  match s with
  | [] => None
  | x :: s' =>
      match last_index c (S i) s' with
      | Some j => Some j
      | None => if Ascii.eqb x c then Some i else None
      end
  end.

(** [os.path.splitext(p)[0]] *)
Definition splitext_root (p : str) : str :=
  match last_index "."%char 0 p with
  | None => p
  | Some dot =>
      let name_start :=
        match last_index "/"%char 0 p with
        | None => 0
        | Some i => S i
        end in
      if existsb (fun c => negb (Ascii.eqb c "."%char)) (slice p name_start dot)
      then firstn dot p
      else p
  end.

(** [subprocess.run(args, cwd=cwd, capture_output=True, encoding="utf-8",
    check=check)] *)
Definition subprocess_run (h : host) (args : list str) (cwd : option str)
  (check : bool) : M completed :=
  fun w =>
    match exec h args cwd w with
    | None => (Raise (OSError (start_failure h args cwd w)), w)
    | Some (c, fs') =>
        let w' := {| fs := fs';
                     printed := printed w;
                     spawned := spawned w ++ [args] |} in
        if check && negb (returncode c =? 0)%Z
        then (Raise (CalledProcessError (returncode c) args (stderr c)), w')
        else (Ok c, w')
    end.

Definition aosp_dir (h : host) : str := os_path_join (root_dir h) [lit "aosp"].
Definition cache_dir (h : host) : str := os_path_join (root_dir h) [lit "cache"].
Definition art_repo_dir (h : host) : str :=
  os_path_join (aosp_dir h) [lit "platform"; lit "art"].
Definition gtest_repo_dir (h : host) : str :=
  os_path_join (aosp_dir h) [lit "platform"; lit "external"; lit "gtest"].

Definition run_in_art_repo (h : host) (args : list str) : M str :=
  fun w =>
    match subprocess_run h args (Some (art_repo_dir h)) true w with
    | (Ok c, w') => (Ok (strip (stdout c)), w')
    | (Raise (CalledProcessError rc cmd err), w') =>
        bind (print err) (fun _ => raise (CalledProcessError rc cmd err)) w'
    | (Raise e, w') => (Raise e, w')
    end.

(** ** VersionResolver *)

Definition git_tag_args : list str :=
  [lit "git"; lit "tag"; lit "--sort=committerdate"].

Definition git_diff_args (previous_tag t path : str) : list str :=
  [lit "git"; lit "diff"; previous_tag; t; lit "--"; path].

(** The loop of [compute_tags_affecting_path]; [i] is the index that
    [enumerate] gives. *)
Fixpoint tags_loop (h : host) (path : str) (i : nat)
  (previous_tag : option str) (tags result : list str) : M (list str) :=
  match tags with
  | [] => ret result
  | t :: tags' =>
      result' <-
        (if i =? 0 then ret (result ++ [t])
         else match previous_tag with
              | None => raise TypeError
              | Some p =>
                  diff <- run_in_art_repo h (git_diff_args p t path) ;;
                  ret (if 0 <? length diff then result ++ [t] else result)
              end) ;;
      tags_loop h path (S i) (Some t) tags' result'
  end.

Definition compute_tags_affecting_path (h : host) (path : str)
  : M (list str) :=
  listing <- run_in_art_repo h git_tag_args ;;
  let tags := filter is_relevant_tag (split_on (ascii_of_nat 10) listing) in
  tags_loop h path 0 None tags [].

Fixpoint tags_of_paths (h : host) (paths : list str) (tags : list str)
  : M (list str) :=
  match paths with
  | [] => ret tags
  | path :: paths' =>
      more <- compute_tags_affecting_path h path ;;
      tags_of_paths h paths' (tags ++ more)
  end.

Definition compute_tags_affecting (h : host) (paths : list str)
  : M (list str) :=
  tags <- tags_of_paths h paths [] ;;
  ret (dict_keys (dict_fromkeys tags)).

(** ** WorktreeCache *)

Definition worktree_dir (h : host) (repo : list str) (version : AndroidVersion)
  : str :=
  os_path_join (cache_dir h) (tag version :: repo).

Definition git_worktree_args (dir t : str) : list str :=
  [lit "git"; lit "worktree"; lit "add"; dir; t].

Definition get_aosp_checkout (h : host) (repo : list str)
  (version : AndroidVersion) : M str :=
  let dir := worktree_dir h repo version in
  present <- os_path_isdir dir ;;
  (if negb present
   then
     let repo_dir := os_path_join (aosp_dir h) repo in
     subprocess_run h (git_worktree_args dir (tag version)) (Some repo_dir) true
     ;;; ret tt
   else ret tt) ;;;
  ret dir.

(** ** ToolchainResolver *)

Record Toolchain : Type := {
  cxx : str;
  cxxflags : list str;
  objdump : str
}.

Definition lookup {V} (d : list (str * V)) (k : str) : M V :=
  match dict_get d k with
  | Some v => ret v
  | None => raise (KeyError k)
  end.

Definition os_environ (h : host) (k : str) : M str :=
  match environ h k with
  | Some v => ret v
  | None => raise (KeyError k)
  end.

Definition get_toolchain (h : host) (arch flavor : str) : M Toolchain :=
  host_triplet_generic <- lookup host_triplets_generic arch ;;
  let level := if contains (lit "64") arch then 21%Z else 16%Z in
  let clang := str_eqb flavor (lit "clang") in
  '(host_triplet_abi, install_dir) <-
    (if clang
     then
       triplet <- lookup host_triplets_abi arch ;;
       ndk <- os_environ h (lit "ANDROID_NDK_R21_ROOT") ;;
       found <- (fun w =>
         (Ok (glob_glob h
                (os_path_join ndk [lit "toolchains"; lit "llvm";
                                   lit "prebuilt"; lit "*"]) w), w)) ;;
       match found with
       | [] => raise IndexError
       | dir :: _ => ret (triplet ++ str_of_Z level, dir)
       end
     else
       let dir := os_path_join (cache_dir h)
                    [lit "toolchains"; join (lit "-") [arch; flavor]] in
       present <- os_path_isdir dir ;;
       (if negb present
        then
          ndk <- os_environ h (lit "ANDROID_NDK_R17B_ROOT") ;;
          subprocess_run h
            [ os_path_join ndk [lit "build"; lit "tools";
                                lit "make_standalone_toolchain.py"];
              lit "--arch"; arch;
              lit "--api"; str_of_Z level;
              lit "--stl"; lit "gnustl";
              lit "--install-dir"; dir ] None true
          ;;; ret tt
        else ret tt) ;;;
       ret (host_triplet_generic, dir)) ;;
  let bin_dir := os_path_join install_dir [lit "bin"] in
  let cxx_name := if clang then lit "clang++" else lit "g++" in
  let flags :=
    (if clang then [lit "-std=c++2a"] else [lit "-std=c++14"])
    ++ (if str_eqb arch (lit "arm")
        then [lit "-march=armv7-a"; lit "-mthumb"] else [])
    ++ (if clang then [lit "-Wno-inconsistent-missing-override"] else []) in
  ret {| cxx := os_path_join bin_dir [join (lit "-") [host_triplet_abi; cxx_name]];
         cxxflags := flags;
         objdump := os_path_join bin_dir
                      [join (lit "-") [host_triplet_generic; lit "objdump"]] |}.

(** ** ProbeCompiler *)

Definition probe_includes (header : str) : list str :=
  [ lit "#include <cstring>";
    lit "#include <runtime/runtime.h>";
    lit "#include <" ++ header ++ lit ">" ].

Definition sizeof_query (class_name : str) : str :=
  lit "sizeof (" ++ class_name ++ lit ")".

Definition offsetof_query (class_name field_name : str) : str :=
  lit "offsetof (" ++ class_name ++ lit ", " ++ field_name ++ lit ")".

Definition probe_queries (class_name : str) (field_names : list str)
  : list str :=
  [sizeof_query class_name] ++ map (offsetof_query class_name) field_names.

Definition probe_text (header class_name : str) (field_names : list str)
  : str :=
  lit "#include <cstdlib>" ++ nl ++ nl
  ++ join nl (probe_includes header) ++ nl ++ nl
  ++ lit "unsigned int values[] =" ++ nl
  ++ lit "{" ++ nl
  ++ lit "  " ++ join (lit "," ++ nl ++ lit "  ")
                   (probe_queries class_name field_names) ++ nl
  ++ lit "};" ++ nl.

(** The rewrite of the access specifiers of the target header. *)
Definition publicize (header_source : str) : str :=
  replace (lit "private:") (lit "public:")
    (replace (lit "protected:") (lit "public:") header_source).

Definition fixed_defines : list str :=
  [ lit "-DANDROID_SMP=1";
    lit "-DIMT_SIZE=64";
    lit "-DART_STACK_OVERFLOW_GAP_arm=8192";
    lit "-DART_STACK_OVERFLOW_GAP_arm64=8192";
    lit "-DART_STACK_OVERFLOW_GAP_mips=16384";
    lit "-DART_STACK_OVERFLOW_GAP_mips64=16384";
    lit "-DART_STACK_OVERFLOW_GAP_x86=8192";
    lit "-DART_STACK_OVERFLOW_GAP_x86_64=8192";
    lit "-Wno-invalid-offsetof" ].

Definition compile_args (h : host) (toolchain : Toolchain)
  (system_core_includes : list str) (art_dir source_name probe_obj : str)
  : list str :=
  [cxx toolchain] ++ cxxflags toolchain ++ fixed_defines
  ++ system_core_includes
  ++ [ lit "-I"; os_path_join (gtest_repo_dir h) [lit "include"];
       lit "-I"; os_path_join art_dir [lit "libartbase"];
       lit "-I"; os_path_join art_dir [lit "libdexfile"];
       lit "-I"; os_path_join art_dir [lit "runtime"];
       lit "-I"; art_dir;
       source_name;
       lit "-c";
       lit "-o"; probe_obj ].

Definition objdump_args (toolchain : Toolchain) (probe_obj : str) : list str :=
  [objdump toolchain; lit "-sj"; lit ".data"; probe_obj].

Definition sentinels (code : Z) (field_names : list str) : list Z :=
  [code] ++ map (fun _ => code) field_names.

(** The [try] block of [probe_offsets] with its [finally]. *)
Definition compile_and_extract (h : host) (toolchain : Toolchain)
  (args : list str) (probe_obj : str) (field_names : list str)
  : M (list Z) :=
  try_finally
    (result <- subprocess_run h args None false ;;
     if negb (returncode result =? 0)%Z
     then
       if existsb (fun e => contains e (stderr result)) ignored_errors
       then ret (sentinels (-2) field_names)
       else
         print (stderr result) ;;;
         raise (CalledProcessError (returncode result) args (stderr result))
     else
       dump <- subprocess_run h (objdump_args toolchain probe_obj) None true ;;
       lift (parse_objdump_section_as_uint32_array (stdout dump)))
    (present <- os_path_exists probe_obj ;;
     if present then os_unlink probe_obj else ret tt).

(** The body of the [with] block of [probe_offsets] up to the choice of the
    toolchain: the probe source is written, the header rewritten in place,
    the toolchain and the include paths of system/core resolved. *)
Definition stage_probe (h : host) (header class_name : str)
  (field_names : list str) (version : AndroidVersion) (arch : str)
  (system_core_dir header_path source_name : str)
  : M (Toolchain * list str) :=
  write_file source_name (probe_text header class_name field_names) ;;;
  header_source <- read_file header_path ;;
  write_file header_path (publicize header_source) ;;;
  if (7 <=? major version)%Z
  then
    toolchain <- get_toolchain h arch (lit "clang") ;;
    ret (toolchain,
         [ lit "-I"; os_path_join system_core_dir [lit "include"];
           lit "-I";
           os_path_join system_core_dir [lit "base"; lit "include"] ])
  else
    toolchain <- get_toolchain h arch (lit "gcc") ;;
    ret (toolchain, []).

Definition system_core : list str := [lit "platform"; lit "system"; lit "core"].
Definition platform_art : list str := [lit "platform"; lit "art"].

Definition probe_offsets (h : host) (header class_name : str)
  (field_names : list str) (version : AndroidVersion) (arch : str)
  : M (list Z) :=
  system_core_dir <- get_aosp_checkout h system_core version ;;
  art_dir <- get_aosp_checkout h platform_art version ;;
  let header_path := os_path_join art_dir [header] in
  present <- os_path_exists header_path ;;
  if negb present then ret (sentinels (-1) field_names)
  else
    with_named_temporary_file h (lit "probe") (lit ".cc") (fun source_name =>
      '(toolchain, system_core_includes) <-
        stage_probe h header class_name field_names version arch
          system_core_dir header_path source_name ;;
      let probe_obj := splitext_root source_name ++ lit ".o" in
      compile_and_extract h toolchain
        (compile_args h toolchain system_core_includes art_dir source_name
           probe_obj)
        probe_obj field_names).

(** ** ResultAggregator and [main] *)

Definition architectures : list str :=
  [lit "arm"; lit "x86"; lit "arm64"; lit "x86_64"].

Definition mirror_header : str := lit "runtime/mirror/art_field.h".
Definition mirror_class : str := lit "art::mirror::ArtField".
Definition plain_header : str := lit "runtime/art_field.h".
Definition plain_class : str := lit "art::ArtField".
Definition probed_fields : list str := [lit "access_flags_"].

(** [size, access_flags = values] *)
Definition unpack2 (values : list Z) : M (Z * Z) :=
  match values with
  | [a; b] => ret (a, b)
  | _ => raise ValueError
  end.

(** Lines 59 to 61: the probe of one architecture and version. *)
Definition probe_art_field (h : host) (version : AndroidVersion) (arch : str)
  : M (Z * Z) :=
  first <- probe_offsets h mirror_header mirror_class probed_fields
             version arch ;;
  '(size, access_flags) <- unpack2 first ;;
  if (size <? 0)%Z
  then
    second <- probe_offsets h plain_header plain_class probed_fields
                version arch ;;
    unpack2 second
  else ret (size, access_flags).

Definition result_key (arch : str) (version : AndroidVersion) : str :=
  arch ++ lit "-" ++ str_of_Z (api_level version).

Definition result_value (size access_flags : Z) : str :=
  lit "size=" ++ str_of_Z size ++ lit " access_flags=" ++ str_of_Z access_flags.

Fixpoint str_leb (a b : str) : bool :=
  match a, b with
  | [], _ => true
  | _ :: _, [] => false
  | x :: a', y :: b' =>
      (code x <? code y) || ((code x =? code y) && str_leb a' b')
  end.

Fixpoint insert_sorted (x : str) (l : list str) : list str :=
  match l with
  | [] => [x]
  | y :: l' => if str_leb x y then x :: l else y :: insert_sorted x l'
  end.

(** [entries.sort()] *)
Definition sort (l : list str) : list str := fold_right insert_sorted [] l.

(** The body of the two loops of [main]. *)
Definition record_probe (h : host) (arch : str) (version : AndroidVersion)
  (result : list (str * list str)) : M (list (str * list str)) :=
  '(size, access_flags) <- probe_art_field h version arch ;;
  let key := result_key arch version in
  let value := result_value size access_flags in
  print (lit "// " ++ key ++ lit " => " ++ value) ;;;
  let entries :=
    match dict_get result key with
    | Some l => l
    | None => []
    end in
  let entries := entries ++ [value] in
  let entries := set_elements h entries in
  let entries := sort entries in
  ret (dict_set result key entries).

Fixpoint for_each {A S} (xs : list A) (body : A -> S -> M S) (s : S) : M S :=
  match xs with
  | [] => ret s
  | x :: xs' => s' <- body x s ;; for_each xs' body s'
  end.

(** [main] up to the final report: the table that [json.dumps] is given. *)
Definition main_table (h : host) : M (list (str * list str)) :=
  tags <- compute_tags_affecting h [mirror_header; plain_header] ;;
  versions <- lift (traverse from_tag tags) ;;
  for_each architectures
    (fun arch => for_each versions (fun version => record_probe h arch version))
    [].

Definition main (h : host) : M unit :=
  result <- main_table h ;;
  print_json result.

(** ** Reference formulations

    The statements below compare the script with these. *)

(** A text cut into pairs of characters; an odd last character stands
    alone. *)
Fixpoint pairs (s : str) : list str :=
  match s with
  | a :: b :: rest => [a; b] :: pairs rest
  | [a] => [[a]]
  | [] => []
  end.

(** A byte sequence cut into groups of four; the last group holds what is
    left when the length is not a multiple of four. *)
Fixpoint chunks4 (bs : list Z) : list (list Z) :=
  match bs with
  | b0 :: b1 :: b2 :: b3 :: rest => [b0; b1; b2; b3] :: chunks4 rest
  | [] => []
  | short => [short]
  end.

(** The claim that a byte count that is not a multiple of four loses its
    last bytes: they give no element of the result. *)
Definition trailing_bytes_dropped (output : str) : Prop :=
  forall bs, raw_bytes_of (hex_bytes_of output) = Ok bs ->
             length bs mod 4 <> 0 ->
             exists ws, parse_objdump_section_as_uint32_array output = Ok ws
                        /\ length ws = length bs / 4.

(** What [objdump -sj .data] prints for the twelve bytes
    [00 00 00 08 04 00 00 00 08 00 00 00]. *)
Definition dump12 : str :=
  nl ++ lit "/tmp/probe8k2_x1.o:     file format elf32-littlearm" ++ nl
  ++ nl
  ++ lit "Contents of section .data:" ++ nl
  ++ lit " 0000 00000008 04000000 08000000           ............    " ++ nl.

(** The same for the five bytes [01 00 00 00 02]. *)
Definition dump5 : str :=
  nl ++ lit "/tmp/probe8k2_x1.o:     file format elf32-littlearm" ++ nl
  ++ nl
  ++ lit "Contents of section .data:" ++ nl
  ++ lit " 0000 01000000 02                           .....           " ++ nl.

(** A child process that only reads: whatever the world, it exits with
    status 0, prints [out] and leaves the files as they are. *)
Definition answers (h : host) (args : list str) (cwd : option str) (out : str)
  : Prop :=
  forall w, exists c,
    exec h args cwd w = Some (c, fs w)
    /\ returncode c = 0%Z /\ stdout c = out.

(** The version-control collaborator: the tag listing by commit time and
    the path-scoped diff between two tags. *)
Definition git_repository (h : host) (listing : str)
  (diff : str -> str -> str -> str) : Prop :=
  answers h git_tag_args (Some (art_repo_dir h)) listing
  /\ forall a b path,
       answers h (git_diff_args a b path) (Some (art_repo_dir h))
         (diff a b path).

(** The eligible tags of a listing, oldest first. *)
Definition eligible (listing : str) : list str :=
  filter is_relevant_tag (split_on (ascii_of_nat 10) (strip listing)).

(** The diff of [path] between two tags is not empty. *)
Definition changed (diff : str -> str -> str -> str) (path : str)
  (previous_tag t : str) : bool :=
  0 <? length (strip (diff previous_tag t path)).

(** The position [i] of the eligible tags is kept: it is the first, or the
    path changed since the position before. *)
Definition selected (diff : str -> str -> str -> str) (path : str)
  (tags : list str) (i : nat) : bool :=
  (i =? 0) || changed diff path (nth (i - 1) tags []) (nth i tags []).

Definition tags_affecting_path (diff : str -> str -> str -> str) (path : str)
  (tags : list str) : list str :=
  map (fun i => nth i tags [])
    (filter (selected diff path tags) (seq 0 (length tags))).

(** A list without its repetitions, each element at its first place. *)
Fixpoint first_seen (l : list str) : list str :=
  match l with
  | [] => []
  | x :: l' => x :: filter (fun y => negb (str_eqb y x)) (first_seen l')
  end.

(** [out] is [listing] with some elements left out. *)
Inductive subsequence {A : Type} : list A -> list A -> Prop :=
| subsequence_nil : subsequence [] []
| subsequence_skip x out listing :
    subsequence out listing -> subsequence out (x :: listing)
| subsequence_keep x out listing :
    subsequence out listing -> subsequence (x :: out) (x :: listing).

(** The claim that the tags of a result follow the commit-time order of the
    listing they come from. *)
Definition ordered_by_commit_time (listing out : list str) : Prop :=
  subsequence out listing.

(** The world with further child processes on record. *)
Definition logged (w : world) (calls : list (list str)) : world :=
  {| fs := fs w; printed := printed w; spawned := spawned w ++ calls |}.

Fixpoint subseqb (out listing : list str) : bool :=
  match listing with
  | [] => match out with [] => true | _ :: _ => false end
  | x :: listing' =>
      match out with
      | [] => true
      | y :: out' =>
          (str_eqb y x && subseqb out' listing') || subseqb out listing'
      end
  end.

(** ** A scripted host

    A host whose collaborators answer from a script, for running the
    embedding on concrete inputs.  Its git answers from the files that
    each tag holds, so what a diff says and what a checkout contains
    agree. *)

Record script : Type := {
  (** what [git tag --sort=committerdate] prints *)
  script_listing : str;
  (** the files of platform/art at a tag, by their path in the repository,
      with their content *)
  script_tree : str -> list (str * str);
  (** what every run of a compiler returns *)
  script_compile : completed;
  (** what every run of objdump prints *)
  script_dump : str
}.

Definition exited (out : str) : completed :=
  {| returncode := 0%Z; stdout := out; stderr := [] |}.

Definition ends_with (suffix s : str) : bool :=
  starts_with (rev suffix) (rev s).

Definition same_file (a b : option str) : bool :=
  match a, b with
  | None, None => true
  | Some x, Some y => str_eqb x y
  | _, _ => false
  end.

(** What [git diff a b -- path] prints: nothing when the path is the same
    at both tags. *)
Definition script_diff (sc : script) (a b path : str) : str :=
  if same_file (dict_get (script_tree sc a) path)
       (dict_get (script_tree sc b) path)
  then []
  else lit "diff --git a/" ++ path ++ lit " b/" ++ path ++ nl.

(** The files after [git worktree add dir t] in the repository [cwd]: the
    directory and, for platform/art, the files of the tag. *)
Definition checked_out (sc : script) (cwd : option str) (dir t : str)
  (w : world) : str -> option node :=
  fun q =>
    if str_eqb q dir then Some Dir
    else
      let files :=
        match cwd with
        | Some repo =>
            if ends_with (lit "/platform/art") repo then script_tree sc t
            else []
        | None => []
        end in
      match find (fun entry => str_eqb q (dir ++ lit "/" ++ fst entry)) files
      with
      | Some entry => Some (File (snd entry))
      | None => fs w q
      end.

Definition scripted_exec (sc : script) (args : list str) (cwd : option str)
  (w : world) : option (completed * (str -> option node)) :=
  match args with
  | [] => None
  | prog :: rest =>
      if str_eqb prog (lit "git") then
        match rest with
        | [sub; _] =>
            if str_eqb sub (lit "tag")
            then Some (exited (script_listing sc), fs w) else None
        | [sub; a; b; _; path] =>
            if str_eqb sub (lit "diff")
            then Some (exited (script_diff sc a b path), fs w) else None
        | [sub; _; dir; t] =>
            if str_eqb sub (lit "worktree")
            then Some (exited [], checked_out sc cwd dir t w) else None
        | _ => None
        end
      else if ends_with (lit "objdump") prog then
        Some (exited (script_dump sc), fs w)
      else if ends_with (lit "++") prog then
        Some (script_compile sc,
              if (returncode (script_compile sc) =? 0)%Z
              then fs (set_node (last args []) (Some (File [])) w)
              else fs w)
      else if ends_with (lit "make_standalone_toolchain.py") prog then
        Some (exited [], fs (set_node (last args []) (Some Dir) w))
      else None
  end.

Definition scripted_host (sc : script) : host :=
  {| root_dir := lit "/work";
     environ := fun k =>
       if str_eqb k (lit "ANDROID_NDK_R21_ROOT") then Some (lit "/ndk21")
       else if str_eqb k (lit "ANDROID_NDK_R17B_ROOT") then Some (lit "/ndk17")
       else None;
     exec := scripted_exec sc;
     start_failure := fun args _ _ => hd [] args;
     glob_glob := fun _ _ =>
       [lit "/ndk21/toolchains/llvm/prebuilt/linux-x86_64"];
     mktemp := fun prefix suffix _ =>
       lit "/tmp/" ++ prefix ++ lit "8k2_x1" ++ suffix;
     set_elements := first_seen |}.

(** No file yet, nothing printed, no process started. *)
Definition empty_world : world :=
  {| fs := fun _ => None; printed := []; spawned := [] |}.

Definition tag50 : str := lit "android-5.0.0_r1".
Definition tag51 : str := lit "android-5.1.0_r1".
Definition tag60 : str := lit "android-6.0.0_r1".
Definition tag70 : str := lit "android-7.0.0_r1".

Definition art_field_source : str :=
  lit "class ArtField {" ++ nl ++ lit " private:" ++ nl
  ++ lit "  uint32_t access_flags_;" ++ nl ++ lit "};" ++ nl.

Definition art_field_source_2 : str :=
  lit "class ArtField {" ++ nl ++ lit " private:" ++ nl
  ++ lit "  uint32_t access_flags_;" ++ nl
  ++ lit "  uint32_t field_dex_idx_;" ++ nl ++ lit "};" ++ nl.

(** What [objdump -sj .data] prints for the array [{16, 12}]. *)
Definition dump8 : str :=
  nl ++ lit "/tmp/probe8k2_x1.o:     file format elf32-littlearm" ++ nl
  ++ nl
  ++ lit "Contents of section .data:" ++ nl
  ++ lit " 0000 10000000 0c000000                    ........        " ++ nl.

(** Releases 5.0, 5.1 and 6.0 among other tags; the mirror header changes
    from 5.0 to 5.1 only. *)
Definition one_change : script :=
  {| script_listing :=
       lit "android-4.4_r1" ++ nl ++ tag50 ++ nl ++ tag51 ++ nl
       ++ lit "android-cts-5.1_r1" ++ nl ++ tag60 ++ nl;
     script_tree := fun t =>
       if str_eqb t tag50 then [(mirror_header, art_field_source)]
       else if str_eqb t tag51 || str_eqb t tag60
       then [(mirror_header, art_field_source_2)]
       else [];
     script_compile := exited [];
     script_dump := dump8 |}.

(** Releases 5.0, 5.1 and 6.0.  The mirror header is there throughout and
    changes from 5.1 to 6.0 only; the other header appears with 5.1 and
    does not change after. *)
Definition interleaved : script :=
  {| script_listing := tag50 ++ nl ++ tag51 ++ nl ++ tag60 ++ nl;
     script_tree := fun t =>
       if str_eqb t tag50 then [(mirror_header, art_field_source)]
       else if str_eqb t tag51
       then [(mirror_header, art_field_source);
             (plain_header, art_field_source)]
       else if str_eqb t tag60
       then [(mirror_header, art_field_source_2);
             (plain_header, art_field_source)]
       else [];
     script_compile := exited [];
     script_dump := dump8 |}.

(** [k in ks] *)
Definition mem (k : str) (ks : list str) : bool :=
  existsb (fun k' => str_eqb k' k) ks.

(** The keys of a dictionary after an assignment to [k]. *)
Definition add_key (ks : list str) (k : str) : list str :=
  if mem k ks then ks else ks ++ [k].

(** ** The array of a probe as its object file holds it *)

Definition hex_char (d : Z) : ascii :=
  nth (Z.to_nat d) (lit "0123456789abcdef") "0"%char.

(** The two hexadecimal digits that a dump prints for a byte. *)
Definition hex_of_byte (b : Z) : str :=
  [hex_char (b / 16); hex_char (b mod 16)].

(** The four bytes of an [unsigned int], least significant first. *)
Definition le_bytes4 (v : Z) : list Z :=
  [ (v mod 256)%Z; (v / 256 mod 256)%Z; (v / 65536 mod 256)%Z;
    (v / 16777216 mod 256)%Z ].

(** The data columns of a dump of the array [values]. *)
Definition hex_of_values (values : list Z) : str :=
  flat_map hex_of_byte (flat_map le_bytes4 values).

(** The first place of a key. *)
Fixpoint index_of (k : str) (ks : list str) : option nat :=
  match ks with
  | [] => None
  | k' :: ks' =>
      if str_eqb k' k then Some 0 else option_map S (index_of k ks')
  end.

(** The claim that the keys of one architecture come by ascending API
    level. *)
Definition keys_ascend_by_level (keys : list str) : Prop :=
  forall arch l1 l2 i j,
    (l1 < l2)%Z ->
    index_of (arch ++ lit "-" ++ str_of_Z l1) keys = Some i ->
    index_of (arch ++ lit "-" ++ str_of_Z l2) keys = Some j ->
    i < j.

Definition version50 : AndroidVersion :=
  {| tag := tag50; major := 5; minor := 0; api_level := 21 |}.

Definition version70 : AndroidVersion :=
  {| tag := tag70; major := 7; minor := 0; api_level := 24 |}.

(** Release 7.0 alone, with [runtime/art_field.h] only; the compiler
    succeeds and the object holds [{16, 12}]. *)
Definition measured : script :=
  {| script_listing := tag70 ++ nl;
     script_tree := fun t =>
       if str_eqb t tag70 then [(plain_header, art_field_source)] else [];
     script_compile := exited [];
     script_dump := dump8 |}.

(** Release 5.0 alone, with the mirror header; every compiler run fails
    with the diagnostic [diagnostic]. *)
Definition failing (diagnostic : str) : script :=
  {| script_listing := tag50 ++ nl;
     script_tree := fun t =>
       if str_eqb t tag50 then [(mirror_header, art_field_source)] else [];
     script_compile :=
       {| returncode := 1%Z; stdout := []; stderr := diagnostic |};
     script_dump := [] |}.

Definition no_member : str :=
  lit "probe.cc:8:3: error: 'class art::mirror::ArtField' has no member named 'access_flags_'".

Definition no_runtime_header : str :=
  lit "probe.cc:4:10: fatal error: runtime/runtime.h: No such file or directory".

(** A full line of a dump: sixteen bytes whose last twelve are the array
    elements 12, 12, 12. *)
Definition dump_line (address first : str) : str :=
  lit " " ++ address ++ lit " " ++ first
  ++ lit " 0c000000 0c000000 0c000000  ................" ++ nl.

(** What [objdump -sj .data] prints for an array of 41 elements, 16 and
    then forty times 12: 164 bytes, ten full lines and a line of four bytes
    at the address a0. *)
Definition dump164 : str :=
  nl ++ lit "/tmp/probe8k2_x1.o:     file format elf32-littlearm" ++ nl
  ++ nl
  ++ lit "Contents of section .data:" ++ nl
  ++ dump_line (lit "0000") (lit "10000000")
  ++ dump_line (lit "0010") (lit "0c000000")
  ++ dump_line (lit "0020") (lit "0c000000")
  ++ dump_line (lit "0030") (lit "0c000000")
  ++ dump_line (lit "0040") (lit "0c000000")
  ++ dump_line (lit "0050") (lit "0c000000")
  ++ dump_line (lit "0060") (lit "0c000000")
  ++ dump_line (lit "0070") (lit "0c000000")
  ++ dump_line (lit "0080") (lit "0c000000")
  ++ dump_line (lit "0090") (lit "0c000000")
  ++ lit " 00a0 0c000000                             ....            " ++ nl.

(** Release 7.0 as in [measured]; the object holds the 41 elements of
    [dump164]. *)
Definition wide : script :=
  {| script_listing := tag70 ++ nl;
     script_tree := script_tree measured;
     script_compile := exited [];
     script_dump := dump164 |}.

(** The field [access_flags_], asked for forty times. *)
Definition forty_fields : list str := repeat (lit "access_flags_") 40.

(** ** Formulations for the further properties *)

(** The versions that [api_levels] knows, with their API level. *)
Definition known_versions : list (Z * Z * Z) :=
  [ (5, 0, 21); (5, 1, 22); (6, 0, 23); (7, 0, 24); (7, 1, 25);
    (8, 0, 26); (8, 1, 27); (9, 0, 28); (10, 0, 29) ]%Z.

(** The key of [api_levels] for a version. *)
Definition version_key (ma mi : Z) : str :=
  str_of_Z ma ++ lit "." ++ str_of_Z mi.

(** The pairs that [try_parse_tag] can return. *)
Definition parsable_versions : list (Z * Z) :=
  (10, 0)%Z
  :: flat_map (fun ma => map (fun mi => (Z.of_nat ma, Z.of_nat mi)) (seq 0 10))
       (seq 0 10).

Definition version_eqb (a b : Z * Z) : bool :=
  (fst a =? fst b)%Z && (snd a =? snd b)%Z.

(** For a parsable pair, the table answers as [known_versions] says. *)
Definition table_agrees (p : Z * Z) : bool :=
  match dict_get api_levels (version_key (fst p) (snd p)) with
  | Some level =>
      existsb (fun k => version_eqb (fst k) p && (snd k =? level)%Z)
        known_versions
  | None => negb (existsb (fun k => version_eqb (fst k) p) known_versions)
  end.

(** The [git diff] runs of one path over the eligible tags: one for each
    tag that has a tag before it. *)
Fixpoint diff_calls (path : str) (previous_tag : option str)
  (tags : list str) : list (list str) :=
  match tags with
  | [] => []
  | t :: tags' =>
      match previous_tag with
      | None => []
      | Some p => [git_diff_args p t path]
      end ++ diff_calls path (Some t) tags'
  end.

(** The child processes of the resolver for one path. *)
Definition resolver_calls (tags : list str) (path : str)
  : list (list str) :=
  git_tag_args :: diff_calls path None tags.

(** A host whose every child process exits with status 128 and the message
    of git outside a repository. *)
Definition not_a_repository : host :=
  {| root_dir := lit "/work";
     environ := fun _ => None;
     exec := fun _ _ w =>
       Some ({| returncode := 128%Z; stdout := [];
                stderr := lit "fatal: not a git repository" |}, fs w);
     start_failure := fun args _ _ => hd [] args;
     glob_glob := fun _ _ => [];
     mktemp := fun prefix suffix _ => lit "/tmp/" ++ prefix ++ suffix;
     set_elements := first_seen |}.

(** A host on which no child process can be started, because the working
    directory it is given is not there. *)
Definition no_checkout : host :=
  {| root_dir := lit "/work";
     environ := fun _ => None;
     exec := fun _ _ _ => None;
     start_failure := fun args cwd _ =>
       match cwd with
       | Some dir => dir
       | None => hd [] args
       end;
     glob_glob := fun _ _ => [];
     mktemp := fun prefix suffix _ => lit "/tmp/" ++ prefix ++ suffix;
     set_elements := first_seen |}.

(** The header of [art_field_source] with the line ends of a checkout that
    has carriage returns. *)
Definition art_field_source_crlf : str :=
  lit "class ArtField {" ++ [ascii_of_nat 13] ++ nl
  ++ lit " private:" ++ [ascii_of_nat 13] ++ nl
  ++ lit "  uint32_t access_flags_;" ++ [ascii_of_nat 13] ++ nl
  ++ lit "};" ++ [ascii_of_nat 13] ++ nl.

(** Release 7.0 as in [measured], its header with carriage returns. *)
Definition carriage_returns : script :=
  {| script_listing := tag70 ++ nl;
     script_tree := fun t =>
       if str_eqb t tag70 then [(plain_header, art_field_source_crlf)]
       else [];
     script_compile := exited [];
     script_dump := dump8 |}.

(** A repository with tags of old and of test releases only. *)
Definition old_releases : script :=
  {| script_listing :=
       lit "android-4.4_r1" ++ nl ++ lit "android-cts-5.1_r1" ++ nl
       ++ lit "android-4.4.4_r2" ++ nl;
     script_tree := fun _ => [(mirror_header, art_field_source)];
     script_compile := exited [];
     script_dump := dump8 |}.

(** A repository whose only release tag has a version that [api_levels]
    does not list. *)
Definition tag52 : str := lit "android-5.2.0_r1".

Definition unlisted_release : script :=
  {| script_listing := tag52 ++ nl;
     script_tree := fun _ => [(mirror_header, art_field_source)];
     script_compile := exited [];
     script_dump := dump8 |}.

(** The run of [make_standalone_toolchain.py] in [get_toolchain]. *)
Definition generator_args (ndk arch : str) (level : Z) (dir : str)
  : list str :=
  [ os_path_join ndk [lit "build"; lit "tools";
                      lit "make_standalone_toolchain.py"];
    lit "--arch"; arch;
    lit "--api"; str_of_Z level;
    lit "--stl"; lit "gnustl";
    lit "--install-dir"; dir ].

(** Where the standalone toolchain of an architecture and a flavor other
    than clang is installed. *)
Definition legacy_install_dir (h : host) (arch flavor : str) : str :=
  os_path_join (cache_dir h)
    [lit "toolchains"; join (lit "-") [arch; flavor]].

(** [21 if "64" in arch else 16] *)
Definition ndk_api_level (arch : str) : Z :=
  if contains (lit "64") arch then 21%Z else 16%Z.

(** The [cxxflags] that [get_toolchain] builds. *)
Definition toolchain_flags (arch : str) (clang : bool) : list str :=
  (if clang then [lit "-std=c++2a"] else [lit "-std=c++14"])
  ++ (if str_eqb arch (lit "arm")
      then [lit "-march=armv7-a"; lit "-mthumb"] else [])
  ++ (if clang then [lit "-Wno-inconsistent-missing-override"] else []).

(** The world once the probe source is written and the header, whose text
    was [header_source], is rewritten in place. *)
Definition staged (header class_name : str) (field_names : list str)
  (header_path source_name header_source : str) (w : world) : world :=
  set_node header_path (Some (File (publicize header_source)))
    (set_node source_name
       (Some (File (probe_text header class_name field_names))) w).

(** The line that [main] prints for a key and a value. *)
Definition progress_line (key value : str) : output_item :=
  Line (lit "// " ++ key ++ lit " => " ++ value).

(** The table holds, under each key, exactly the values of the records of
    that key. *)
Definition report_agrees (table : list (str * list str))
  (records : list (str * str)) : Prop :=
  forall key value,
    In (key, value) records
    <-> exists entries, dict_get table key = Some entries /\ In value entries.

(** The world of the scripted host after the two checkouts of a version. *)
Definition checkouts (sc : script) (version : AndroidVersion) : world :=
  snd (get_aosp_checkout (scripted_host sc) platform_art version
         (snd (get_aosp_checkout (scripted_host sc) system_core version
                 empty_world))).

(** The probe source and the object file of the scripted host. *)
Definition probe_cc : str := lit "/tmp/probe8k2_x1.cc".
Definition probe_o : str := lit "/tmp/probe8k2_x1.o".

(** An item of the output that is a line of text, not the report. *)
Definition is_line (o : output_item) : Prop :=
  match o with
  | Line _ => True
  | Json _ => False
  end.

(** Whatever it returns, [m] adds lines of text to the output and nothing
    else. *)
Definition only_lines {A} (m : M A) : Prop :=
  forall w r w',
    m w = (r, w') ->
    exists ls, printed w' = printed w ++ ls /\ Forall is_line ls.

(** ** The lines of a dump *)

(** A line of the data part of a dump.  A line that is taken has one space,
    an address of decimal digits, one space, data columns that start with a
    character other than white space, two spaces and a text column whose
    first character is neither of a word nor white space.  A line that is
    passed over has, after the space and the decimal digits of its address,
    a character that is neither a digit nor white space. *)
Inductive section_line : Type :=
| Taken (address : str) (x : ascii) (body : str) (c : ascii) (text : str)
| Passed (address : str) (c : ascii) (rest : str).

(** No line feed in a text. *)
Definition no_newline (s : str) : bool :=
  forallb (fun c => negb (Ascii.eqb c (ascii_of_nat 10))) s.

(** The text of a line, with its line feed. *)
Definition line_text (l : section_line) : str :=
  match l with
  | Taken address x body c text =>
      " "%char :: address
      ++ " "%char :: (x :: body) ++ " "%char :: " "%char :: c :: text ++ nl
  | Passed address c rest => " "%char :: address ++ c :: rest ++ nl
  end.

(** The conditions on the parts of a line. *)
Definition line_ok (l : section_line) : bool :=
  match l with
  | Taken address x body c text =>
      negb (length address =? 0) && forallb is_digit address
      && negb (is_space x) && forallb word_or_space (x :: body)
      && negb (word_or_space c) && no_newline text
  | Passed address c rest =>
      forallb is_digit address && negb (is_digit c) && negb (is_space c)
      && no_newline rest
  end.

(** A line before the data part: empty, or starting with a character that
    is neither white space nor a digit. *)
Definition header_ok (h : str) : bool :=
  no_newline h
  && match h with
     | [] => true
     | c :: _ => negb (is_space c) && negb (is_digit c)
     end.

(** The lines before the data part: the last of them is not empty. *)
Definition headers_ok (headers : list str) : bool :=
  forallb header_ok headers
  && negb (length (last headers [" "%char]) =? 0).

(** The text of a dump: the lines before the data part, then the lines of
    the data part. *)
Definition dump_text (headers : list str) (lines : list section_line) : str :=
  concat (map (fun h => h ++ nl) headers) ++ concat (map line_text lines).

(** The data columns of the lines that are taken, in order. *)
Fixpoint taken_columns (lines : list section_line) : list str :=
  match lines with
  | [] => []
  | Taken _ x body _ _ :: lines' => (x :: body) :: taken_columns lines'
  | Passed _ _ _ :: lines' => taken_columns lines'
  end.

(** The lines that [objdump -sj .data] prints before the data. *)
Definition dump_headers : list str :=
  [ []; lit "/tmp/probe8k2_x1.o:     file format elf32-littlearm"; [];
    lit "Contents of section .data:" ].

(** A line of sixteen bytes whose last twelve are the elements 12, 12,
    12. *)
Definition full_line (address : str) (x : ascii) (first : str)
  : section_line :=
  Taken address x (first ++ lit " 0c000000 0c000000 0c000000") "."%char
    (lit "...............").

(** The first ten data lines of [dump164]. *)
Definition lines160 : list section_line :=
  [ full_line (lit "0000") "1"%char (lit "0000000");
    full_line (lit "0010") "0"%char (lit "c000000");
    full_line (lit "0020") "0"%char (lit "c000000");
    full_line (lit "0030") "0"%char (lit "c000000");
    full_line (lit "0040") "0"%char (lit "c000000");
    full_line (lit "0050") "0"%char (lit "c000000");
    full_line (lit "0060") "0"%char (lit "c000000");
    full_line (lit "0070") "0"%char (lit "c000000");
    full_line (lit "0080") "0"%char (lit "c000000");
    full_line (lit "0090") "0"%char (lit "c000000") ].

(** Its eleventh data line, at the address a0. *)
Definition line_00a0 : section_line :=
  Passed (lit "00") "a"%char
    (lit "0 0c000000                             ....            ").

(** A dump of eight elements on two data lines. *)
Definition dump32 : str :=
  dump_text dump_headers
    [ Taken (lit "0000") "1"%char
        (lit "0000000 0c000000 08000000 04000000") "."%char
        (lit "...............");
      Taken (lit "0010") "0"%char
        (lit "1000000 02000000 03000000 ff000000") "."%char
        (lit "...............") ].

(** ** Auxiliary formulations used in the proofs *)

(** What a replacement of [w ++ ":"] by [n ++ ":"] does to a colon-free
    text [u] that a colon follows: the suffix [w], if [u] ends with it,
    becomes [n]. *)
Fixpoint field (w n u : str) : str :=
  if str_eqb u w then n
  else match u with
       | [] => []
       | c :: u' => c :: field w n u'
       end.

Definition public_field (u : str) : str :=
  field (lit "private") (lit "public") (field (lit "protected") (lit "public") u).

(** The loop of [compute_tags_affecting_path], tag by tag. *)
Fixpoint kept_from (diff : str -> str -> str -> str) (path : str)
  (previous_tag : option str) (tags : list str) : list str :=
  match tags with
  | [] => []
  | t :: tags' =>
      (match previous_tag with
       | None => [t]
       | Some p => if changed diff path p t then [t] else []
       end) ++ kept_from diff path (Some t) tags'
  end.

Definition str_le (a b : str) : Prop := str_leb a b = true.

(** Every list of the table is free of duplicates and in order. *)
Definition tidy (table : list (str * list str)) : Prop :=
  forall key entries,
    In (key, entries) table -> NoDup entries /\ StronglySorted str_le entries.

(** * Properties *)

(** ** Text lemmas *)

Lemma starts_with_spec (p s : str) :
  starts_with p s = true <-> exists r, s = p ++ r.
Proof.
  revert s; induction p as [|a p IH]; intros s; simpl.
  - split; [intros _; now exists s | reflexivity].
  - destruct s as [|b s]; simpl.
    + split; [discriminate | intros [r Hr]; discriminate].
    + rewrite andb_true_iff, Ascii.eqb_eq, IH. split.
      * intros [-> [r ->]]. now exists r.
      * intros [r Hr]. injection Hr as -> ->. split; [reflexivity | now exists r].
Qed.

Lemma starts_with_refl (p r : str) : starts_with p (p ++ r) = true.
Proof. apply starts_with_spec. now exists r. Qed.

Lemma str_eqb_eq (a b : str) : str_eqb a b = true <-> a = b.
Proof.
  revert b; induction a as [|x a IH]; intros [|y b]; simpl;
    try (split; [discriminate || reflexivity | discriminate || reflexivity]).
  rewrite andb_true_iff, Ascii.eqb_eq, IH. split.
  - now intros [-> ->].
  - intros H. injection H as -> ->. now split.
Qed.

Lemma str_eqb_refl (a : str) : str_eqb a a = true.
Proof. now apply str_eqb_eq. Qed.

Lemma str_eqb_neq (a b : str) : str_eqb a b = false <-> a <> b.
Proof.
  rewrite <- str_eqb_eq. destruct (str_eqb a b); split; congruence.
Qed.

Lemma replace_go_skip (old new : str) (k : nat) (s : str) :
  replace_go old new k s = replace_go old new 0 (skipn k s).
Proof.
  revert k; induction s as [|c s IH]; intros [|k]; simpl; try reflexivity.
  apply IH.
Qed.

(** ** The access-control rewrite, one access specifier at a time

    Both specifiers and their replacement end with the only colon they
    contain, so a replacement acts on the text between two colons. *)

Section Fields.

Variables w n : str.
Let colon : ascii := ":"%char.
Hypothesis w_plain : ~ In colon w.
Hypothesis n_plain : ~ In colon n.

Lemma field_plain (u : str) : ~ In colon u -> ~ In colon (field w n u).
Proof.
  induction u as [|c u IH]; cbn [field]; intros Hu.
  - destruct (str_eqb [] w); [exact n_plain | exact Hu].
  - destruct (str_eqb (c :: u) w); [exact n_plain|].
    intros [E|E]; [now apply Hu; left | apply IH; [|exact E]].
    intros F. apply Hu. now right.
Qed.

Lemma field_cases (u : str) : field w n u = u \/ exists v, field w n u = v ++ n.
Proof.
  induction u as [|c u IH]; cbn [field].
  - destruct (str_eqb [] w); [right; now exists [] | now left].
  - destruct (str_eqb (c :: u) w); [right; now exists []|].
    destruct IH as [->|[v ->]]; [now left | right; now exists (c :: v)].
Qed.

Lemma starts_with_field (u rest : str) :
  ~ In colon u ->
  starts_with (w ++ [colon]) (u ++ colon :: rest) = str_eqb u w.
Proof.
  intros Hu. destruct (str_eqb u w) eqn:E.
  - apply str_eqb_eq in E. subst u.
    change (colon :: rest) with ([colon] ++ rest). rewrite app_assoc.
    apply starts_with_refl.
  - apply str_eqb_neq in E.
    destruct (starts_with (w ++ [colon]) (u ++ colon :: rest)) eqn:F;
      [|reflexivity].
    exfalso. apply E. apply starts_with_spec in F. destruct F as [r Hr].
    rewrite <- app_assoc in Hr. simpl in Hr.
    clear E. revert w w_plain Hr. induction u as [|c u IH]; intros [|a v] Hv Hr;
      simpl in *.
    + reflexivity.
    + injection Hr as <- _. exfalso. apply Hv. now left.
    + injection Hr as -> _. exfalso. apply Hu. now left.
    + injection Hr as -> Hr. f_equal. apply IH; [|  | exact Hr].
      * intros F. apply Hu. now right.
      * intros F. apply Hv. now right.
Qed.

Lemma replace_go_plain (s : str) :
  ~ In colon s -> replace_go (w ++ [colon]) (n ++ [colon]) 0 s = s.
Proof.
  induction s as [|c s IH]; intros Hs; [reflexivity|].
  cbn [replace_go].
  destruct (starts_with (w ++ [colon]) (c :: s)) eqn:F.
  - apply starts_with_spec in F. destruct F as [r Hr]. exfalso. apply Hs.
    rewrite Hr. apply in_or_app. left. apply in_or_app. right. now left.
  - f_equal. apply IH. intros F'. apply Hs. now right.
Qed.

Lemma replace_go_field (u rest : str) :
  ~ In colon u ->
  replace_go (w ++ [colon]) (n ++ [colon]) 0 (u ++ colon :: rest)
  = field w n u ++ colon :: replace_go (w ++ [colon]) (n ++ [colon]) 0 rest.
Proof.
  induction u as [|c u IH]; intros Hu.
  - cbn [app replace_go].
    change (colon :: rest) with ([] ++ colon :: rest) at 1.
    rewrite starts_with_field by exact Hu. cbn [field].
    destruct (str_eqb [] w) eqn:E.
    + apply str_eqb_eq in E. subst w. simpl.
      now rewrite <- app_assoc.
    + reflexivity.
  - pose proof (starts_with_field (c :: u) rest Hu) as Hs.
    cbn [app] in Hs. cbn [app replace_go field]. rewrite Hs.
    destruct (str_eqb (c :: u) w) eqn:E.
    + apply str_eqb_eq in E. rewrite replace_go_skip.
      rewrite <- E, length_app. cbn [length].
      replace (S (length u) + 1 - 1) with (length u + 1) by lia.
      rewrite <- app_assoc. cbn [app].
      replace (skipn (length u + 1) (u ++ colon :: rest)) with rest.
      * reflexivity.
      * rewrite skipn_app, skipn_all2 by lia.
        replace (length u + 1 - length u) with 1 by lia. reflexivity.
    + cbn [app]. f_equal. apply IH.
      intros F. apply Hu. now right.
Qed.

End Fields.

Lemma field_id (w n u : str) :
  (forall x, u <> x ++ w) -> field w n u = u.
Proof.
  induction u as [|c u IH]; intros H; cbn [field].
  - destruct (str_eqb [] w) eqn:E; [|reflexivity].
    apply str_eqb_eq in E. now destruct (H []).
  - destruct (str_eqb (c :: u) w) eqn:E.
    + apply str_eqb_eq in E. now destruct (H []).
    + f_equal. apply IH. intros x Hx. apply (H (c :: x)). simpl. now f_equal.
Qed.

Lemma first_colon (s : str) :
  ~ In ":"%char s
  \/ exists u rest, s = u ++ ":"%char :: rest /\ ~ In ":"%char u.
Proof.
  induction s as [|c s IH].
  - left. intros [].
  - destruct (ascii_dec c ":"%char) as [->|Hc].
    + right. exists [], s. split; [reflexivity | intros []].
    + destruct IH as [H|(u & rest & -> & Hu)].
      * left. intros [E|E]; [now apply Hc | now apply H].
      * right. exists (c :: u), rest. split; [reflexivity|].
        intros [E|E]; [now apply Hc | now apply Hu].
Qed.

Lemma publicize_unfold (s : str) :
  publicize s
  = replace_go (lit "private" ++ [":"%char]) (lit "public" ++ [":"%char]) 0
      (replace_go (lit "protected" ++ [":"%char]) (lit "public" ++ [":"%char])
         0 s).
Proof. reflexivity. Qed.

Lemma plain_protected : ~ In ":"%char (lit "protected").
Proof. cbv. intuition discriminate. Qed.

Lemma plain_private : ~ In ":"%char (lit "private").
Proof. cbv. intuition discriminate. Qed.

Lemma plain_public : ~ In ":"%char (lit "public").
Proof. cbv. intuition discriminate. Qed.

Lemma publicize_plain (s : str) : ~ In ":"%char s -> publicize s = s.
Proof.
  intros H. rewrite publicize_unfold.
  rewrite (replace_go_plain (lit "protected") (lit "public") s H).
  apply replace_go_plain, H.
Qed.

Lemma publicize_field (u rest : str) :
  ~ In ":"%char u ->
  publicize (u ++ ":"%char :: rest) = public_field u ++ ":"%char :: publicize rest.
Proof.
  intros H. rewrite !publicize_unfold.
  rewrite (replace_go_field (lit "protected") (lit "public") plain_protected
             u rest H).
  rewrite (replace_go_field (lit "private") (lit "public") plain_private);
    [reflexivity|].
  apply field_plain; [apply plain_public | exact H].
Qed.

Lemma public_kept (w : str) (a : ascii) (v : str) :
  a <> "c"%char -> forall y, v ++ lit "public" <> y ++ w ++ [a].
Proof.
  intros Ha y E.
  change (lit "public") with (lit "publi" ++ ["c"%char]) in E.
  rewrite !app_assoc in E. apply app_inj_tail in E. destruct E as [_ E].
  now apply Ha.
Qed.

Lemma private_kept (v : str) :
  field (lit "private") (lit "public") (v ++ lit "public") = v ++ lit "public".
Proof.
  apply field_id.
  change (lit "private") with (lit "privat" ++ ["e"%char]).
  apply (public_kept (lit "privat") "e"%char v); discriminate.
Qed.

Lemma protected_kept (v : str) :
  field (lit "protected") (lit "public") (v ++ lit "public")
  = v ++ lit "public".
Proof.
  apply field_id.
  change (lit "protected") with (lit "protecte" ++ ["d"%char]).
  apply (public_kept (lit "protecte") "d"%char v); discriminate.
Qed.

Lemma public_field_cases (u : str) :
  public_field u = u \/ exists v, public_field u = v ++ lit "public".
Proof.
  unfold public_field.
  destruct (field_cases (lit "protected") (lit "public") u) as [->|[v ->]].
  - apply field_cases.
  - right. exists v. apply private_kept.
Qed.

Lemma public_field_idempotent (u : str) :
  public_field (public_field u) = public_field u.
Proof.
  destruct (public_field_cases u) as [E|[v E]]; rewrite E.
  - exact E.
  - unfold public_field. now rewrite protected_kept, private_kept.
Qed.

Lemma public_field_plain (u : str) :
  ~ In ":"%char u -> ~ In ":"%char (public_field u).
Proof.
  intros H. unfold public_field.
  apply field_plain; [apply plain_public|].
  apply field_plain; [apply plain_public | exact H].
Qed.

Lemma publicize_idempotent_bounded (k : nat) :
  forall s, length s <= k -> publicize (publicize s) = publicize s.
Proof.
  induction k as [|k IH]; intros s Hk.
  - destruct s; [reflexivity | simpl in Hk; lia].
  - destruct (first_colon s) as [H|(u & rest & -> & Hu)].
    + now rewrite !(publicize_plain s H).
    + rewrite (publicize_field u rest Hu).
      rewrite (publicize_field _ _ (public_field_plain u Hu)).
      rewrite public_field_idempotent, IH; [reflexivity|].
      rewrite length_app in Hk. simpl in Hk. lia.
Qed.

(** C8. The rewrite of the access specifiers that [probe_offsets] applies to
    the target header (every "protected:" and then every "private:" replaced
    by "public:") is idempotent: on a header that it has already rewritten
    it changes nothing. *)
Theorem publicize_idempotent (header_source : str) :
  publicize (publicize header_source) = publicize header_source.
Proof.
  exact (publicize_idempotent_bounded (length header_source) header_source
           (le_n _)).
Qed.

(** ** BinaryExtractor: from index arithmetic to pairs and groups of four *)

Lemma range_zero (k : nat) : 0 < k -> range 0 0 k = [].
Proof.
  intros Hk. unfold range. replace ((0 - 0 + k - 1) / k) with 0; [reflexivity|].
  symmetry. apply Nat.div_small. lia.
Qed.

Lemma range_step (k n : nat) :
  0 < k -> range 0 (k + n) k = 0 :: map (fun i => i + k) (range 0 n k).
Proof.
  intros Hk. unfold range.
  replace ((k + n - 0 + k - 1) / k) with (S ((n - 0 + k - 1) / k)).
  - cbn [seq map]. rewrite <- seq_shift, !map_map.
    f_equal. apply map_ext. intros j. lia.
  - replace (k + n - 0 + k - 1) with (1 * k + (n - 0 + k - 1)) by lia.
    rewrite Nat.div_add_l by lia. lia.
Qed.

Lemma range_short (k n : nat) : 0 < n -> n <= k -> range 0 n k = [0].
Proof.
  intros Hn Hk. unfold range.
  replace ((n - 0 + k - 1) / k) with 1; [reflexivity|].
  replace (n - 0 + k - 1) with (1 * k + (n - 1)) by lia.
  rewrite Nat.div_add_l by lia. rewrite Nat.div_small; lia.
Qed.

Lemma slice_shift {A} (pre rest : list A) (i j : nat) :
  slice (pre ++ rest) (i + length pre) (i + length pre + j)
  = slice rest i (i + j).
Proof.
  unfold slice. rewrite skipn_app, skipn_all2 by lia. simpl.
  f_equal; [lia | f_equal; lia].
Qed.

Lemma traverse_map {A B C} (f : B -> res C) (g : A -> B) (l : list A) :
  traverse f (map g l) = traverse (fun x => f (g x)) l.
Proof. induction l as [|x l IH]; simpl; [reflexivity | now rewrite IH]. Qed.

Lemma traverse_ext {A B} (f g : A -> res B) (l : list A) :
  (forall x, f x = g x) -> traverse f l = traverse g l.
Proof.
  intros H. induction l as [|x l IH]; simpl; [reflexivity | now rewrite H, IH].
Qed.

Lemma traverse_ok {A B} (f : A -> res B) (g : A -> B) (l : list A) :
  Forall (fun x => f x = Ok (g x)) l -> traverse f l = Ok (map g l).
Proof.
  induction 1 as [|x l Hx _ IH]; simpl; [reflexivity | now rewrite Hx, IH].
Qed.

Lemma traverse_inv {A B} (f : A -> res B) (l : list A) (ys : list B) :
  traverse f l = Ok ys -> Forall2 (fun x y => f x = Ok y) l ys.
Proof.
  revert ys; induction l as [|x l IH]; simpl; intros ys H.
  - injection H as <-. constructor.
  - destruct (f x) as [y|e] eqn:Hx; [|discriminate]. simpl in H.
    destruct (traverse f l) as [ys'|e]; [|discriminate]. simpl in H.
    injection H as <-. constructor; [exact Hx | now apply IH].
Qed.

Lemma raw_bytes_of_pairs_bounded (n : nat) :
  forall s, length s <= n -> raw_bytes_of s = traverse int16 (pairs s).
Proof.
  unfold raw_bytes_of.
  induction n as [|n IH]; intros s Hn.
  - destruct s; [reflexivity | simpl in Hn; lia].
  - destruct s as [|a [|b rest]]; [reflexivity | reflexivity|].
    change (length (a :: b :: rest)) with (2 + length rest).
    rewrite range_step by lia. cbn [traverse pairs].
    rewrite traverse_map.
    rewrite (traverse_ext
               (fun x => int16 (slice (a :: b :: rest) (x + 2) (x + 2 + 2)))
               (fun i => int16 (slice rest i (i + 2)))).
    + rewrite IH by (simpl in Hn; lia). reflexivity.
    + intros i. f_equal. exact (slice_shift [a; b] rest i 2).
Qed.

Lemma raw_bytes_of_pairs (s : str) :
  raw_bytes_of s = traverse int16 (pairs s).
Proof. exact (raw_bytes_of_pairs_bounded (length s) s (le_n _)). Qed.

Lemma words_of_chunks_bounded (n : nat) :
  forall bs, length bs <= n ->
             words_of bs = traverse int_from_bytes_little (chunks4 bs).
Proof.
  unfold words_of.
  induction n as [|n IH]; intros bs Hn.
  - destruct bs; [reflexivity | simpl in Hn; lia].
  - destruct bs as [|b0 [|b1 [|b2 [|b3 rest]]]]; try reflexivity.
    change (length (b0 :: b1 :: b2 :: b3 :: rest)) with (4 + length rest).
    rewrite range_step by lia. cbn [traverse chunks4].
    rewrite traverse_map.
    rewrite (traverse_ext
               (fun x => int_from_bytes_little
                           (slice (b0 :: b1 :: b2 :: b3 :: rest)
                              (x + 4) (x + 4 + 4)))
               (fun i => int_from_bytes_little (slice rest i (i + 4)))).
    + rewrite IH by (simpl in Hn; lia). reflexivity.
    + intros i. f_equal. exact (slice_shift [b0; b1; b2; b3] rest i 4).
Qed.

Lemma words_of_chunks (bs : list Z) :
  words_of bs = traverse int_from_bytes_little (chunks4 bs).
Proof. exact (words_of_chunks_bounded (length bs) bs (le_n _)). Qed.

(** ** BinaryExtractor: what the pattern extracts decodes to bytes *)

Lemma firstn_span (p : ascii -> bool) (s : str) (k : nat) :
  k <= span p s -> forallb p (firstn k s) = true.
Proof.
  revert k; induction s as [|c s IH]; intros [|k] Hk; simpl in *;
    try reflexivity.
  destruct (p c); [|lia]. simpl. apply IH. lia.
Qed.

Lemma give_back_inv (k least : nat) (s : str)
  (rest : str -> option (list str)) (ps : list str) :
  give_back k least s rest = Some ps ->
  exists k' ps', k' <= k /\ ps = firstn k' s :: ps'
                 /\ rest (skipn k' s) = Some ps'.
Proof.
  induction k as [|k IH]; cbn [give_back].
  - destruct (0 <? least); [discriminate|].
    destruct (rest (skipn 0 s)) as [ps'|] eqn:E; [|discriminate].
    intros H. injection H as <-. exists 0, ps'. auto.
  - destruct (S k <? least); [discriminate|].
    destruct (rest (skipn (S k) s)) as [ps'|] eqn:E.
    + intros H. injection H as <-. exists (S k), ps'. auto.
    + intros H. destruct (IH H) as (k' & ps' & Hk & -> & Hr).
      exists k', ps'. auto.
Qed.

Lemma match_atoms_classes (atoms : list atom) :
  forall s pieces,
    match_atoms atoms s = Some pieces ->
    Forall2 (fun a p => forallb (cls a) p = true) atoms pieces.
Proof.
  induction atoms as [|a atoms IH]; intros s pieces H; simpl in H.
  - injection H as <-. constructor.
  - apply give_back_inv in H. destruct H as (k & ps & Hk & -> & Hr).
    constructor; [now apply firstn_span | exact (IH _ _ Hr)].
Qed.

Lemma section_group_class (s : str) (pieces : list str) :
  match_atoms section_data_pattern s = Some pieces ->
  forallb word_or_space (nth section_data_group pieces []) = true.
Proof.
  intros H. apply match_atoms_classes in H. unfold section_data_pattern in H.
  repeat match goal with
         | F : Forall2 _ (_ :: _) _ |- _ => inversion F; subst; clear F
         end.
  assumption.
Qed.

Lemma findall_go_class (s : str) :
  forall k bol,
    Forall (fun g => forallb word_or_space g = true)
      (findall_go section_data_pattern section_data_group k bol s).
Proof.
  induction s as [|c s IH]; intros k bol; cbn [findall_go]; [constructor|].
  destruct k as [|k]; [|apply IH].
  destruct bol; [|apply IH].
  destruct (match_atoms section_data_pattern (c :: s)) as [pieces|] eqn:E;
    [|apply IH].
  constructor; [exact (section_group_class _ _ E) | apply IH].
Qed.

Lemma join_nil (parts : list str) : join [] parts = concat parts.
Proof.
  induction parts as [|q [|q' parts] IH]; [reflexivity | |].
  - simpl. now rewrite app_nil_r.
  - change (join [] (q :: q' :: parts)) with (q ++ [] ++ join [] (q' :: parts)).
    now rewrite IH.
Qed.

Lemma forallb_concat {A} (p : A -> bool) (ls : list (list A)) :
  Forall (fun l => forallb p l = true) ls -> forallb p (concat ls) = true.
Proof.
  induction 1 as [|l ls Hl _ IH]; simpl; [reflexivity|].
  now rewrite forallb_app, Hl, IH.
Qed.

Lemma replace_go_class (p : ascii -> bool) (old : str) (s : str) :
  forall k, forallb p s = true -> forallb p (replace_go old [] k s) = true.
Proof.
  induction s as [|c s IH]; intros k H; cbn [replace_go]; [reflexivity|].
  simpl in H. apply andb_true_iff in H. destruct H as [Hc Hs].
  destruct k as [|k]; [|now apply IH].
  destruct (starts_with old (c :: s)); simpl; [now apply IH|].
  now rewrite Hc, IH.
Qed.

Lemma replace_space (s : str) :
  replace (lit " ") [] s = filter (fun c => negb (Ascii.eqb c " "%char)) s.
Proof.
  change (replace (lit " ") [] s) with (replace_go [" "%char] [] 0 s).
  induction s as [|c s IH]; [reflexivity|].
  cbn [replace_go starts_with filter length Nat.sub app].
  rewrite andb_true_r, Ascii.eqb_sym.
  destruct (Ascii.eqb c " "%char); simpl; now rewrite IH.
Qed.

Lemma hex_bytes_class (output : str) :
  forallb word_or_space (hex_bytes_of output) = true.
Proof.
  unfold hex_bytes_of.
  change (replace (lit " ") []) with (replace_go [" "%char] [] 0).
  apply replace_go_class. rewrite join_nil. apply forallb_concat.
  apply findall_go_class.
Qed.

Lemma lstrip_suffix (q : ascii -> bool) (s : str) :
  exists pre, s = pre ++ lstrip_of q s.
Proof.
  induction s as [|c s [pre IH]]; simpl.
  - now exists [].
  - destruct (q c); [|now exists []].
    exists (c :: pre). simpl. now f_equal.
Qed.

Lemma strip_infix (q : ascii -> bool) (s : str) :
  exists pre post, s = pre ++ strip_of q s ++ post.
Proof.
  destruct (lstrip_suffix q s) as [pre Hpre].
  destruct (lstrip_suffix q (rev (lstrip_of q s))) as [post Hpost].
  exists pre, (rev post). unfold strip_of.
  rewrite <- rev_app_distr, <- Hpost, rev_involutive. exact Hpre.
Qed.

Lemma strip_class (q p : ascii -> bool) (s : str) :
  forallb p s = true -> forallb p (strip_of q s) = true.
Proof.
  destruct (strip_infix q s) as (pre & post & E). rewrite E at 1.
  rewrite !forallb_app, !andb_true_iff. tauto.
Qed.

Lemma strip_length (q : ascii -> bool) (s : str) :
  length (strip_of q s) <= length s.
Proof.
  destruct (strip_infix q s) as (pre & post & E). rewrite E at 2.
  rewrite !length_app. lia.
Qed.

Lemma not_space_not_int_space (c : ascii) :
  is_space c = false -> int_space c = false.
Proof.
  destruct c as [[] [] [] [] [] [] [] []]; cbv; congruence.
Qed.

Lemma word_or_space_no_sign (c : ascii) :
  word_or_space c = true ->
  Ascii.eqb c "-"%char = false /\ Ascii.eqb c "+"%char = false.
Proof.
  destruct c as [[] [] [] [] [] [] [] []]; cbv; intuition congruence.
Qed.

Lemma hex_digit_value_range (c : ascii) (d : Z) :
  hex_digit_value c = Some d -> (0 <= d <= 15)%Z.
Proof.
  destruct c as [[] [] [] [] [] [] [] []]; cbv; intros H;
    try discriminate; injection H as <-; split; discriminate.
Qed.

Lemma hex_digits_bound (s : str) :
  forall acc after v,
    (0 <= acc)%Z ->
    hex_digits acc after s = Some v ->
    (0 <= v < (acc + 1) * 16 ^ Z.of_nat (length s))%Z.
Proof.
  induction s as [|c s IH]; intros acc after v Hacc H; cbn [hex_digits] in H.
  - destruct after; [|discriminate]. injection H as <-. simpl. lia.
  - cbn [length]. rewrite Nat2Z.inj_succ, Z.pow_succ_r by lia.
    assert (0 < 16 ^ Z.of_nat (length s))%Z by (apply Z.pow_pos_nonneg; lia).
    destruct (Ascii.eqb c "_"%char).
    + destruct after; [|discriminate]. apply IH in H; [nia | lia].
    + destruct (hex_digit_value c) as [d|] eqn:Hd; [|discriminate].
      apply hex_digit_value_range in Hd. apply IH in H; [nia | lia].
Qed.

Lemma hex_unsigned_byte (s : str) (v : Z) :
  length s <= 2 -> hex_unsigned s = Some v -> is_byte v = true.
Proof.
  intros Hs H.
  assert (B : hex_digits 0 false s = Some v -> is_byte v = true).
  { intros D. apply hex_digits_bound in D; [|lia].
    assert (16 ^ Z.of_nat (length s) <= 16 ^ 2)%Z
      by (apply Z.pow_le_mono_r; lia).
    unfold is_byte. apply andb_true_iff. split; [apply Z.leb_le | apply Z.ltb_lt];
      lia. }
  destruct s as [|z [|x [|y s]]]; try (simpl in Hs; lia); try exact (B H).
  unfold hex_unsigned in H.
  destruct (Ascii.eqb z "0"%char
            && (Ascii.eqb x "x"%char || Ascii.eqb x "X"%char));
    [discriminate | exact (B H)].
Qed.

Lemma int16_byte (s : str) (v : Z) :
  length s <= 2 -> forallb word_or_space s = true ->
  int16 s = Ok v -> is_byte v = true.
Proof.
  intros Hlen Hcls H. unfold int16 in H.
  pose proof (strip_length int_space s) as L.
  pose proof (strip_class int_space _ _ Hcls) as C.
  destruct (strip_of int_space s) as [|c t]; [discriminate|].
  simpl in C. apply andb_true_iff in C. destruct C as [Hc _].
  destruct (word_or_space_no_sign c Hc) as [E1 E2]. rewrite E1, E2 in H.
  destruct (hex_unsigned (c :: t)) as [n|] eqn:E; [|discriminate].
  injection H as <-. apply (hex_unsigned_byte (c :: t)); [lia | exact E].
Qed.

Lemma pairs_class (p : ascii -> bool) (n : nat) :
  forall s, length s <= n -> forallb p s = true ->
            Forall (fun q => length q <= 2 /\ forallb p q = true) (pairs s).
Proof.
  induction n as [|n IH]; intros s Hn Hs.
  - destruct s; [constructor | simpl in Hn; lia].
  - destruct s as [|a [|b rest]]; cbn [pairs].
    + constructor.
    + constructor; [split; [simpl; lia | exact Hs] | constructor].
    + simpl in Hs. apply andb_true_iff in Hs. destruct Hs as [Ha Hs].
      apply andb_true_iff in Hs. destruct Hs as [Hb Hs].
      constructor.
      * split; [simpl; lia | simpl; now rewrite Ha, Hb].
      * apply IH; [simpl in Hn; lia | exact Hs].
Qed.

Lemma decoded_bytes_are_bytes (output : str) (bs : list Z) :
  traverse int16 (pairs (hex_bytes_of output)) = Ok bs ->
  forallb is_byte bs = true.
Proof.
  intros H. apply traverse_inv in H.
  pose proof (pairs_class word_or_space _ _ (le_n _) (hex_bytes_class output))
    as C.
  induction H as [|q v qs vs Hq _ IH]; [reflexivity|].
  inversion C as [|? ? [Hl Hc] C']; subst. simpl.
  rewrite (int16_byte q v Hl Hc Hq). now apply IH.
Qed.

Lemma chunks4_bytes_bounded (n : nat) :
  forall bs, length bs <= n -> forallb is_byte bs = true ->
             Forall (fun ch => forallb is_byte ch = true) (chunks4 bs).
Proof.
  induction n as [|n IH]; intros bs Hn Hb.
  - destruct bs; [constructor | simpl in Hn; lia].
  - destruct bs as [|b0 [|b1 [|b2 [|b3 rest]]]]; cbn [chunks4];
      try (constructor; [exact Hb | constructor]); [constructor|].
    cbn [forallb] in Hb.
    apply andb_true_iff in Hb; destruct Hb as [H0 Hb].
    apply andb_true_iff in Hb; destruct Hb as [H1 Hb].
    apply andb_true_iff in Hb; destruct Hb as [H2 Hb].
    apply andb_true_iff in Hb; destruct Hb as [H3 Hb].
    constructor.
    + cbn [forallb]. now rewrite H0, H1, H2, H3.
    + apply IH; [simpl in Hn; lia | exact Hb].
Qed.

(** The result of the script's index arithmetic, as pairs and groups. *)
Lemma parse_words (output : str) :
  parse_objdump_section_as_uint32_array output
  = res_bind (traverse int16 (pairs (hex_bytes_of output)))
      (fun bs => Ok (map little_endian (chunks4 bs))).
Proof.
  unfold parse_objdump_section_as_uint32_array.
  rewrite raw_bytes_of_pairs.
  destruct (traverse int16 (pairs (hex_bytes_of output))) as [bs|e] eqn:E;
    [|reflexivity].
  cbn [res_bind]. rewrite words_of_chunks. apply traverse_ok.
  apply decoded_bytes_are_bytes in E.
  pose proof (chunks4_bytes_bounded (length bs) bs (le_n _) E) as F.
  eapply Forall_impl; [|exact F].
  intros ch Hch. unfold int_from_bytes_little. now rewrite Hch.
Qed.

Lemma hex_digit_plain (c : ascii) (d : Z) :
  hex_digit_value c = Some d ->
  is_space c = false
  /\ Ascii.eqb c "-"%char = false /\ Ascii.eqb c "+"%char = false
  /\ Ascii.eqb c "_"%char = false
  /\ Ascii.eqb c "x"%char = false /\ Ascii.eqb c "X"%char = false.
Proof.
  destruct c as [[] [] [] [] [] [] [] []]; cbv; intros H;
    try discriminate; repeat split; reflexivity.
Qed.

Lemma int16_hex_pair (a b : ascii) (x y : Z) :
  hex_digit_value a = Some x -> hex_digit_value b = Some y ->
  int16 [a; b] = Ok (16 * x + y)%Z.
Proof.
  intros Ha Hb.
  destruct (hex_digit_plain a x Ha) as (As & Am & Ap & Au & _).
  destruct (hex_digit_plain b y Hb) as (Bs & _ & _ & Bu & Bx & BX).
  apply not_space_not_int_space in As, Bs.
  unfold int16, strip_of. cbn [lstrip_of]. rewrite As.
  cbn [rev app lstrip_of]. rewrite Bs. cbn [rev app].
  rewrite Am, Ap. unfold hex_unsigned. rewrite Bx, BX, andb_false_r.
  cbn [hex_digits]. rewrite Au, Ha, Bu, Hb. reflexivity.
Qed.

Lemma nth_word (k : nat) :
  forall bs,
    4 * k + 4 <= length bs ->
    nth k (map little_endian (chunks4 bs)) 0%Z
    = (nth (4 * k) bs 0 + 256 * nth (4 * k + 1) bs 0
       + 65536 * nth (4 * k + 2) bs 0 + 16777216 * nth (4 * k + 3) bs 0)%Z.
Proof.
  induction k as [|k IH]; intros bs Hk;
    destruct bs as [|b0 [|b1 [|b2 [|b3 rest]]]]; try (simpl in Hk; lia).
  - cbn [chunks4 map nth little_endian Nat.mul Nat.add]. lia.
  - replace (4 * S k) with (S (S (S (S (4 * k))))) by lia.
    cbn [chunks4 map nth Nat.add]. apply IH. simpl in Hk. lia.
Qed.

Lemma chunks4_tail_bounded (n : nat) :
  forall bs,
    length bs <= n -> length bs mod 4 <> 0 ->
    length (chunks4 bs) = length bs / 4 + 1
    /\ last (chunks4 bs) [] = skipn (4 * (length bs / 4)) bs.
Proof.
  induction n as [|n IH]; intros bs Hn Hm.
  - destruct bs; [now destruct Hm | simpl in Hn; lia].
  - destruct bs as [|b0 [|b1 [|b2 [|b3 rest]]]];
      [now destruct Hm | now split | now split | now split |].
    change (length (b0 :: b1 :: b2 :: b3 :: rest)) with (4 + length rest) in *.
    assert (Em : (4 + length rest) mod 4 = length rest mod 4).
    { replace (4 + length rest) with (length rest + 1 * 4) by lia.
      apply Nat.Div0.mod_add. }
    assert (Ed : (4 + length rest) / 4 = 1 + length rest / 4).
    { replace (4 + length rest) with (1 * 4 + length rest) by lia.
      apply Nat.div_add_l. lia. }
    rewrite Em in Hm. rewrite Ed.
    destruct (IH rest ltac:(lia) Hm) as [Hl Ht].
    cbn [chunks4 length]. split; [lia|].
    replace (4 * (1 + length rest / 4)) with (4 + 4 * (length rest / 4)) by lia.
    cbn [Nat.add skipn]. rewrite <- Ht.
    destruct (chunks4 rest); [simpl in Hl; lia | reflexivity].
Qed.

Lemma last_map {A B} (f : A -> B) (l : list A) (d : A) (d' : B) :
  l <> [] -> last (map f l) d' = f (last l d).
Proof.
  induction l as [|x [|y l] IH]; intros H; [now destruct H | reflexivity|].
  change (last (map f (x :: y :: l)) d') with (last (map f (y :: l)) d').
  change (last (x :: y :: l) d) with (last (y :: l) d).
  apply IH. discriminate.
Qed.

(** C4, as the script has it.  When the number of decoded bytes is not a
    multiple of four, the last one to three bytes are not lost: they give
    one more element, the last, which is their little-endian value; the
    result has one element more than there are full groups of four. *)
Theorem trailing_bytes_kept (output : str) (bs : list Z) :
  raw_bytes_of (hex_bytes_of output) = Ok bs ->
  length bs mod 4 <> 0 ->
  exists ws,
    parse_objdump_section_as_uint32_array output = Ok ws
    /\ length ws = length bs / 4 + 1
    /\ last ws 0%Z = little_endian (skipn (4 * (length bs / 4)) bs).
Proof.
  intros Hb Hm. rewrite raw_bytes_of_pairs in Hb.
  exists (map little_endian (chunks4 bs)).
  destruct (chunks4_tail_bounded (length bs) bs (le_n _) Hm) as [Hl Ht].
  split; [|split].
  - rewrite parse_words, Hb. reflexivity.
  - now rewrite length_map.
  - rewrite (last_map little_endian (chunks4 bs) [] 0%Z), Ht; [reflexivity|].
    intros E. rewrite E in Hl. simpl in Hl. lia.
Qed.

Lemma trailing_bytes_kept_witness :
  exists ws,
    parse_objdump_section_as_uint32_array dump5 = Ok ws
    /\ length ws = 2 /\ last ws 0%Z = 2%Z.
Proof.
  apply (trailing_bytes_kept dump5 [1; 0; 0; 0; 2]%Z).
  - vm_compute. reflexivity.
  - vm_compute. discriminate.
Defined.

(** C4, as claimed, fails: the dump of the five bytes 01 00 00 00 02 gives
    two elements, the second from the fifth byte. *)
Lemma trailing_bytes_not_dropped :
  parse_objdump_section_as_uint32_array dump5 = Ok [1; 2]%Z
  /\ ~ trailing_bytes_dropped dump5.
Proof.
  split; [vm_compute; reflexivity|].
  intros H. destruct (H [1; 0; 0; 0; 2]%Z) as (ws & Hp & Hl).
  - vm_compute. reflexivity.
  - vm_compute. discriminate.
  - vm_compute in Hp. injection Hp as <-. vm_compute in Hl. discriminate.
Qed.

(** ** VersionResolver *)

Lemma logged_logged (w : world) (l1 l2 : list (list str)) :
  logged (logged w l1) l2 = logged w (l1 ++ l2).
Proof. unfold logged. simpl. now rewrite app_assoc. Qed.

Lemma logged_nil (w : world) : logged w [] = w.
Proof. destruct w. unfold logged. simpl. now rewrite app_nil_r. Qed.

Lemma run_in_art_repo_answers (h : host) (args : list str) (out : str)
  (w : world) :
  answers h args (Some (art_repo_dir h)) out ->
  run_in_art_repo h args w = (Ok (strip out), logged w [args]).
Proof.
  intros H. destruct (H w) as (c & He & Hr & Ho).
  unfold run_in_art_repo, subprocess_run. rewrite He, Hr. cbn.
  rewrite Ho. reflexivity.
Qed.

Lemma tags_loop_kept (h : host) (listing : str)
  (diff : str -> str -> str -> str) (path : str) :
  git_repository h listing diff ->
  forall tags i previous_tag result w,
    (i = 0 <-> previous_tag = None) ->
    exists calls,
      tags_loop h path i previous_tag tags result w
      = (Ok (result ++ kept_from diff path previous_tag tags), logged w calls).
Proof.
  intros [_ Hdiff]. induction tags as [|t tags IH];
    intros i previous_tag result w Hi; cbn [tags_loop kept_from].
  - exists []. now rewrite app_nil_r, logged_nil.
  - unfold bind at 1. destruct previous_tag as [p|].
    + destruct (i =? 0) eqn:E.
      { apply Nat.eqb_eq in E. apply Hi in E. discriminate. }
      unfold bind at 1.
      rewrite (run_in_art_repo_answers h _ _ w (Hdiff p t path)).
      unfold ret at 1.
      destruct (IH (S i) (Some t)
                  (if 0 <? length (strip (diff p t path))
                   then result ++ [t] else result)
                  (logged w [git_diff_args p t path])) as [calls Hc].
      { split; [lia | discriminate]. }
      rewrite Hc, logged_logged. eexists. f_equal. f_equal.
      unfold changed. destruct (0 <? length (strip (diff p t path)));
        now rewrite <- ?app_assoc.
    + assert (E : i = 0) by now apply Hi. subst i. cbn [Nat.eqb]. unfold ret at 1.
      destruct (IH 1 (Some t) (result ++ [t]) w) as [calls Hc].
      { split; [lia | discriminate]. }
      rewrite Hc. exists calls. now rewrite <- app_assoc.
Qed.

Lemma kept_from_selected (diff : str -> str -> str -> str) (path : str) :
  forall rest pre,
    kept_from diff path
      (match rev pre with [] => None | p :: _ => Some p end) rest
    = map (fun i => nth i (pre ++ rest) [])
        (filter (selected diff path (pre ++ rest))
           (seq (length pre) (length rest))).
Proof.
  induction rest as [|t rest IH]; intros pre; [reflexivity|].
  cbn [kept_from length seq filter].
  specialize (IH (pre ++ [t])). rewrite rev_app_distr in IH. cbn [rev app] in IH.
  rewrite <- app_assoc in IH. cbn [app] in IH.
  rewrite length_app in IH. cbn [length] in IH.
  replace (length pre + 1) with (S (length pre)) in IH by lia.
  rewrite IH. clear IH.
  assert (Ht : nth (length pre) (pre ++ t :: rest) [] = t).
  { rewrite app_nth2 by lia. now rewrite Nat.sub_diag. }
  unfold selected at 2. rewrite Ht.
  destruct pre as [|a pre'] using rev_ind.
  - reflexivity.
  - clear IHpre'. rewrite rev_app_distr. cbn [rev app].
    rewrite length_app. cbn [length].
    replace (length pre' + 1 =? 0) with false by (symmetry; apply Nat.eqb_neq; lia).
    cbn [orb].
    replace (nth (length pre' + 1 - 1) ((pre' ++ [a]) ++ t :: rest) []) with a.
    + rewrite length_app in Ht. cbn [length] in Ht.
      destruct (changed diff path a t); cbn [map app]; now rewrite ?Ht.
    + rewrite <- app_assoc. rewrite app_nth2 by lia.
      replace (length pre' + 1 - 1 - length pre') with 0 by lia. reflexivity.
Qed.

Lemma compute_tags_affecting_path_spec (h : host) (listing : str)
  (diff : str -> str -> str -> str) (path : str) (w : world) :
  git_repository h listing diff ->
  exists calls,
    compute_tags_affecting_path h path w
    = (Ok (tags_affecting_path diff path (eligible listing)), logged w calls).
Proof.
  intros H. unfold compute_tags_affecting_path, bind.
  rewrite (run_in_art_repo_answers h _ _ w (proj1 H)).
  destruct (tags_loop_kept h listing diff path H (eligible listing) 0 None []
              (logged w [git_tag_args])) as [calls Hc]; [tauto|].
  unfold eligible in Hc at 1. rewrite Hc, logged_logged. eexists.
  f_equal. f_equal. cbn [app].
  exact (kept_from_selected diff path (eligible listing) []).
Qed.

Lemma scripted_git_repository (sc : script) :
  git_repository (scripted_host sc) (script_listing sc) (script_diff sc).
Proof.
  split.
  - intros w. eexists. split; [reflexivity | split; reflexivity].
  - intros a b path w. eexists. split; [reflexivity | split; reflexivity].
Qed.

Lemma selected_iff (diff : str -> str -> str -> str) (path : str)
  (tags : list str) (i : nat) :
  selected diff path tags i = true
  <-> i = 0 \/ strip (diff (nth (i - 1) tags []) (nth i tags []) path) <> [].
Proof.
  unfold selected, changed. rewrite orb_true_iff, Nat.eqb_eq, Nat.ltb_lt.
  destruct (strip (diff (nth (i - 1) tags []) (nth i tags []) path));
    cbn [length]; split; intros [H|H].
  - now left.
  - lia.
  - now left.
  - now destruct H.
  - now left.
  - right. discriminate.
  - now left.
  - right. lia.
Qed.

(** C1. With the eligible tags in commit-time order, the resolver of one
    path returns the tags at the positions that are the first position or
    whose path-scoped diff against the position before is not empty, in
    order, and no other.  For the tags [v1, v2, v3] where only the diff from
    v1 to v2 touches the path, it returns [v1, v2]. *)
Theorem compute_tags_affecting_path_selects (h : host) (listing : str)
  (diff : str -> str -> str -> str) (path : str) (w : world) :
  git_repository h listing diff ->
  (exists w',
      compute_tags_affecting_path h path w
      = (Ok (map (fun i => nth i (eligible listing) [])
               (filter (selected diff path (eligible listing))
                  (seq 0 (length (eligible listing))))), w'))
  /\ (forall i,
         selected diff path (eligible listing) i = true
         <-> i = 0
             \/ strip (diff (nth (i - 1) (eligible listing) [])
                         (nth i (eligible listing) []) path) <> [])
  /\ (forall v1 v2 v3,
         eligible listing = [v1; v2; v3] ->
         strip (diff v1 v2 path) <> [] -> strip (diff v2 v3 path) = [] ->
         exists w',
           compute_tags_affecting_path h path w = (Ok [v1; v2], w')).
Proof.
  intros H.
  destruct (compute_tags_affecting_path_spec h listing diff path w H)
    as [calls Hc].
  split; [|split].
  - eexists. exact Hc.
  - intros i. apply selected_iff.
  - intros v1 v2 v3 E H12 H23. eexists. rewrite Hc. f_equal. f_equal.
    unfold tags_affecting_path. rewrite E.
    cbn [length seq filter]. unfold selected. cbn [Nat.eqb Nat.sub nth orb].
    unfold changed. rewrite H23.
    destruct (strip (diff v1 v2 path)); [now destruct H12 | reflexivity].
Qed.

Lemma compute_tags_affecting_path_selects_witness :
  exists w',
    compute_tags_affecting_path (scripted_host one_change) mirror_header
      empty_world
    = (Ok [tag50; tag51], w').
Proof.
  destruct (compute_tags_affecting_path_selects
              (scripted_host one_change) (script_listing one_change)
              (script_diff one_change) mirror_header
              empty_world
              (scripted_git_repository one_change)) as (_ & _ & H).
  apply (H tag50 tag51 tag60).
  - vm_compute. reflexivity.
  - vm_compute. discriminate.
  - vm_compute. reflexivity.
Defined.


(** ** Dictionaries keep the first place of a key *)

Lemma str_eqb_sym (a b : str) : str_eqb a b = str_eqb b a.
Proof.
  destruct (str_eqb a b) eqn:E.
  - apply str_eqb_eq in E. subst. symmetry. apply str_eqb_refl.
  - destruct (str_eqb b a) eqn:F; [|reflexivity].
    apply str_eqb_eq in F. subst. now rewrite str_eqb_refl in E.
Qed.

Lemma mem_In (k : str) (ks : list str) : mem k ks = true <-> In k ks.
Proof.
  unfold mem. rewrite existsb_exists. split.
  - intros (x & Hx & E). apply str_eqb_eq in E. now subst.
  - intros H. exists k. split; [exact H | apply str_eqb_refl].
Qed.

Lemma dict_keys_set {V} (d : list (str * V)) (k : str) (v : V) :
  dict_keys (dict_set d k v) = add_key (dict_keys d) k.
Proof.
  unfold add_key, mem. induction d as [|[k' v'] d IH]; [reflexivity|].
  cbn [dict_set dict_keys map fst existsb].
  destruct (str_eqb k' k); [reflexivity|]. cbn [orb dict_keys map fst].
  unfold dict_keys in IH. rewrite IH.
  now destruct (existsb (fun k'0 => str_eqb k'0 k) (map fst d)).
Qed.

Lemma dict_keys_fromkeys_from (l : list str) :
  forall d : list (str * unit),
    dict_keys (fold_left (fun d k => dict_set d k tt) l d)
    = fold_left add_key l (dict_keys d).
Proof.
  induction l as [|x l IH]; intros d; [reflexivity|].
  cbn [fold_left]. now rewrite IH, dict_keys_set.
Qed.

Lemma filter_twice {A} (f g : A -> bool) (l : list A) :
  filter f (filter g l) = filter (fun x => g x && f x) l.
Proof.
  induction l as [|x l IH]; [reflexivity|]. cbn [filter].
  destruct (g x); cbn [filter andb]; now rewrite IH.
Qed.

Lemma add_keys_first_seen (l : list str) :
  forall ks,
    fold_left add_key l ks
    = ks ++ filter (fun y => negb (mem y ks)) (first_seen l).
Proof.
  induction l as [|x l IH]; intros ks; cbn [fold_left first_seen filter].
  - now rewrite app_nil_r.
  - rewrite IH. unfold add_key. destruct (mem x ks) eqn:E; cbn [negb].
    + f_equal. rewrite filter_twice. apply filter_ext. intros y.
      destruct (mem y ks) eqn:F; [now rewrite andb_false_r|].
      rewrite andb_true_r. destruct (str_eqb y x) eqn:G; [|reflexivity].
      apply str_eqb_eq in G. subst. congruence.
    + rewrite <- app_assoc. f_equal. cbn [app]. f_equal.
      rewrite filter_twice. apply filter_ext. intros y.
      unfold mem. rewrite existsb_app. cbn [existsb].
      rewrite orb_false_r, negb_orb, (str_eqb_sym x y). apply andb_comm.
Qed.

Lemma dict_fromkeys_first_seen (l : list str) :
  dict_keys (dict_fromkeys l) = first_seen l.
Proof.
  unfold dict_fromkeys. rewrite dict_keys_fromkeys_from, add_keys_first_seen.
  cbn [dict_keys map app]. rewrite <- (filter_ext (fun _ => true)).
  - induction (first_seen l) as [|y f IH]; [reflexivity|].
    cbn [filter]. now rewrite IH.
  - reflexivity.
Qed.

Lemma first_seen_In (l : list str) (t : str) : In t (first_seen l) <-> In t l.
Proof.
  induction l as [|x l IH]; [reflexivity|]. cbn [first_seen In].
  rewrite filter_In, IH. destruct (str_eqb t x) eqn:E.
  - apply str_eqb_eq in E. subst. tauto.
  - apply str_eqb_neq in E. cbn [negb]. split.
    + intros [H|[H _]]; auto.
    + intros [H|H]; [now left | right; now split].
Qed.

Lemma first_seen_NoDup (l : list str) : NoDup (first_seen l).
Proof.
  induction l as [|x l IH]; cbn [first_seen]; constructor.
  - rewrite filter_In, str_eqb_refl. intros [_ H]. discriminate.
  - now apply NoDup_filter.
Qed.

Lemma first_seen_id (l : list str) : NoDup l -> first_seen l = l.
Proof.
  induction 1 as [|x l Hx _ IH]; [reflexivity|]. cbn [first_seen].
  rewrite IH. f_equal. clear IH.
  induction l as [|y l IH]; [reflexivity|]. cbn [filter].
  destruct (str_eqb y x) eqn:E.
  - apply str_eqb_eq in E. subst. exfalso. apply Hx. now left.
  - cbn [negb]. f_equal. apply IH. intros H. apply Hx. now right.
Qed.

Lemma subsequence_In {A} (out listing : list A) (x : A) :
  subsequence out listing -> In x out -> In x listing.
Proof.
  induction 1 as [|y out listing _ IH|y out listing _ IH]; simpl; intuition.
Qed.

Lemma subsequence_NoDup {A} (out listing : list A) :
  subsequence out listing -> NoDup listing -> NoDup out.
Proof.
  induction 1 as [|y out listing Hs IH|y out listing Hs IH]; intros N.
  - constructor.
  - inversion N; subst. now apply IH.
  - inversion N as [|? ? Hy N']; subst. constructor; [|now apply IH].
    intros F. apply Hy. exact (subsequence_In out listing y Hs F).
Qed.

Lemma subsequence_subseqb (out listing : list str) :
  subsequence out listing -> subseqb out listing = true.
Proof.
  induction 1 as [|y out listing _ IH|y out listing _ IH]; cbn [subseqb].
  - reflexivity.
  - destruct out; [reflexivity|]. rewrite IH. apply orb_true_r.
  - now rewrite str_eqb_refl, IH.
Qed.

Lemma positions_subsequence {A} (d : A) (f : nat -> bool) :
  forall rest pre,
    subsequence
      (map (fun i => nth i (pre ++ rest) d)
         (filter f (seq (length pre) (length rest))))
      rest.
Proof.
  induction rest as [|t rest IH]; intros pre; [constructor|].
  cbn [length seq filter].
  specialize (IH (pre ++ [t])). rewrite <- app_assoc, length_app in IH.
  cbn [app length] in IH.
  replace (length pre + 1) with (S (length pre)) in IH by lia.
  destruct (f (length pre)).
  - cbn [map]. rewrite app_nth2 by lia. rewrite Nat.sub_diag. cbn [nth].
    now constructor.
  - now constructor.
Qed.

Lemma tags_affecting_path_subsequence (diff : str -> str -> str -> str)
  (path : str) (tags : list str) :
  subsequence (tags_affecting_path diff path tags) tags.
Proof. exact (positions_subsequence [] (selected diff path tags) tags []). Qed.

Lemma tags_of_paths_spec (h : host) (listing : str)
  (diff : str -> str -> str -> str) :
  git_repository h listing diff ->
  forall paths tags w,
    exists calls,
      tags_of_paths h paths tags w
      = (Ok (tags
             ++ concat (map (fun path =>
                               tags_affecting_path diff path (eligible listing))
                          paths)),
         logged w calls).
Proof.
  intros H. induction paths as [|path paths IH]; intros tags w;
    cbn [tags_of_paths map concat].
  - exists []. now rewrite app_nil_r, logged_nil.
  - unfold bind.
    destruct (compute_tags_affecting_path_spec h listing diff path w H)
      as [c1 ->].
    destruct (IH (tags ++ tags_affecting_path diff path (eligible listing))
                (logged w c1)) as [c2 ->].
    exists (c1 ++ c2). now rewrite logged_logged, <- app_assoc.
Qed.

(** C2, as the script has it.  The resolver of several paths returns the
    tags of the per-path results without repetition, each at its first
    place in their concatenation; a tag is in the result exactly when it is
    in the result of one of the paths.  For a single path (and a listing
    without repeated tags) the result is that path's result and follows the
    commit-time order of the listing. *)
Theorem compute_tags_affecting_first_seen (h : host) (listing : str)
  (diff : str -> str -> str -> str) (paths : list str) (w : world) :
  git_repository h listing diff ->
  exists out w',
    compute_tags_affecting h paths w = (Ok out, w')
    /\ out = first_seen
               (concat (map (fun path =>
                               tags_affecting_path diff path (eligible listing))
                          paths))
    /\ NoDup out
    /\ (forall t,
           In t out
           <-> exists path,
                 In path paths
                 /\ In t (tags_affecting_path diff path (eligible listing)))
    /\ (forall path,
           paths = [path] -> NoDup (eligible listing) ->
           out = tags_affecting_path diff path (eligible listing)
           /\ ordered_by_commit_time (eligible listing) out).
Proof.
  intros H. destruct (tags_of_paths_spec h listing diff H paths [] w)
    as [calls Hc].
  eexists. eexists. split; [|split; [reflexivity | split; [|split]]].
  - unfold compute_tags_affecting, bind. rewrite Hc. unfold ret.
    cbn [app]. now rewrite dict_fromkeys_first_seen.
  - apply first_seen_NoDup.
  - intros t. rewrite first_seen_In, in_concat. split.
    + intros (l & Hl & Ht). apply in_map_iff in Hl.
      destruct Hl as (path & <- & Hp). now exists path.
    + intros (path & Hp & Ht). eexists. split; [|exact Ht].
      apply in_map_iff. now exists path.
  - intros path -> N. cbn [map concat]. rewrite app_nil_r.
    pose proof (tags_affecting_path_subsequence diff path (eligible listing))
      as S.
    rewrite first_seen_id by exact (subsequence_NoDup _ _ S N).
    split; [reflexivity | exact S].
Qed.

Lemma compute_tags_affecting_first_seen_witness :
  exists out w',
    compute_tags_affecting (scripted_host interleaved)
      [mirror_header; plain_header] empty_world
    = (Ok out, w')
    /\ out = [tag50; tag60; tag51].
Proof.
  destruct (compute_tags_affecting_first_seen
              (scripted_host interleaved) (script_listing interleaved)
              (script_diff interleaved) [mirror_header; plain_header]
              empty_world
              (scripted_git_repository interleaved))
    as (out & w' & Hrun & Hout & _).
  exists out, w'. split; [exact Hrun|]. rewrite Hout. vm_compute. reflexivity.
Defined.

(** C2, as claimed, fails: with the mirror header changed from 5.1 to 6.0
    only and the other header from 5.0 to 5.1 only, the result lists 6.0
    before 5.1. *)
Lemma compute_tags_affecting_out_of_order :
  fst (compute_tags_affecting (scripted_host interleaved)
         [mirror_header; plain_header] empty_world)
  = Ok [tag50; tag60; tag51]
  /\ eligible (script_listing interleaved) = [tag50; tag51; tag60]
  /\ ~ ordered_by_commit_time (eligible (script_listing interleaved))
         [tag50; tag60; tag51].
Proof.
  split; [vm_compute; reflexivity | split; [vm_compute; reflexivity|]].
  intros H. apply subsequence_subseqb in H. vm_compute in H. discriminate.
Qed.

(** ** Running the script step by step *)

Lemma bind_ok {A B} (m : M A) (f : A -> M B) (w w' : world) (a : A) :
  m w = (Ok a, w') -> bind m f w = f a w'.
Proof. intros H. unfold bind. now rewrite H. Qed.

Lemma bind_raise {A B} (m : M A) (f : A -> M B) (w w' : world) (e : exn) :
  m w = (Raise e, w') -> bind m f w = (Raise e, w').
Proof. intros H. unfold bind. now rewrite H. Qed.

Lemma bind_inv {A B} (m : M A) (f : A -> M B) (w w' : world) (b : B) :
  bind m f w = (Ok b, w') ->
  exists a w1, m w = (Ok a, w1) /\ f a w1 = (Ok b, w').
Proof.
  unfold bind. destruct (m w) as [[a|e] w1]; intros H; [|discriminate].
  now exists a, w1.
Qed.

(** A checkout that returns has spawned nothing, or one
    [git worktree add]. *)
Lemma get_aosp_checkout_inv (h : host) (repo : list str)
  (version : AndroidVersion) (w w' : world) (d : str) :
  get_aosp_checkout h repo version w = (Ok d, w') ->
  d = worktree_dir h repo version
  /\ printed w' = printed w
  /\ (spawned w' = spawned w
      \/ spawned w' = spawned w ++ [git_worktree_args d (tag version)]).
Proof.
  unfold get_aosp_checkout, bind, os_path_isdir, ret.
  destruct (match fs w (worktree_dir h repo version) with
            | Some Dir => true
            | _ => false
            end); cbn [negb].
  - intros H. injection H as <- <-. auto.
  - unfold subprocess_run.
    destruct (exec h _ _ w) as [[c fs']|]; [|discriminate].
    destruct (true && negb (returncode c =? 0)%Z); [discriminate|].
    intros H. injection H as <- <-. cbn. auto.
Qed.

(** C6. When the target header is not in the checked-out tree,
    [probe_offsets] returns -1 for the size and for every requested field,
    and the only child processes it has started are the [git worktree add]
    of the two checkouts: no compiler has run. *)
Theorem probe_offsets_header_absent (h : host) (header class_name : str)
  (field_names : list str) (version : AndroidVersion) (arch : str)
  (w w1 w2 : world) (d1 d2 : str) :
  get_aosp_checkout h system_core version w = (Ok d1, w1) ->
  get_aosp_checkout h platform_art version w1 = (Ok d2, w2) ->
  fs w2 (os_path_join d2 [header]) = None ->
  probe_offsets h header class_name field_names version arch w
  = (Ok ((-1)%Z :: map (fun _ => (-1)%Z) field_names), w2)
  /\ exists calls,
       spawned w2 = spawned w ++ calls
       /\ Forall (fun args =>
                    exists dir, args = git_worktree_args dir (tag version))
            calls.
Proof.
  intros H1 H2 H3. split.
  - unfold probe_offsets.
    rewrite (bind_ok _ _ _ _ _ H1), (bind_ok _ _ _ _ _ H2).
    unfold bind, os_path_exists. rewrite H3. reflexivity.
  - apply get_aosp_checkout_inv in H1. apply get_aosp_checkout_inv in H2.
    destruct H1 as (_ & _ & [E1|E1]), H2 as (_ & _ & [E2|E2]);
      rewrite E2, E1.
    + exists []. split; [now rewrite app_nil_r | constructor].
    + eexists. split; [reflexivity|]. repeat constructor. now eexists.
    + eexists. split; [reflexivity|]. repeat constructor. now eexists.
    + rewrite <- app_assoc. eexists. split; [reflexivity|].
      repeat constructor; now eexists.
Qed.

Lemma probe_offsets_header_absent_witness :
  fst (probe_offsets (scripted_host interleaved) plain_header plain_class
         probed_fields version50 (lit "arm") empty_world)
  = Ok [-1; -1]%Z.
Proof.
  edestruct (probe_offsets_header_absent (scripted_host interleaved)
               plain_header plain_class probed_fields version50 (lit "arm")
               empty_world) as [H _].
  - vm_compute. reflexivity.
  - vm_compute. reflexivity.
  - vm_compute. reflexivity.
  - rewrite H. reflexivity.
Defined.


(** The [finally] of [probe_offsets] removes the object file when there is
    one. *)
Lemma cleanup_runs (probe_obj : str) (w : world) :
  fs w probe_obj <> Some Dir ->
  exists w',
    (present <- os_path_exists probe_obj ;;
     if present then os_unlink probe_obj else ret tt) w = (Ok tt, w')
    /\ printed w' = printed w /\ spawned w' = spawned w.
Proof.
  intros H. unfold bind, os_path_exists, os_unlink, ret.
  destruct (fs w probe_obj) as [[c|]|] eqn:E.
  - rewrite E. eexists. split; [reflexivity | split; reflexivity].
  - now destruct H.
  - eexists. split; [reflexivity | split; reflexivity].
Qed.

Lemma subprocess_run_exited (h : host) (args : list str) (cwd : option str)
  (w : world) (c : completed) (fs' : str -> option node) :
  exec h args cwd w = Some (c, fs') ->
  subprocess_run h args cwd false w
  = (Ok c, {| fs := fs'; printed := printed w;
              spawned := spawned w ++ [args] |}).
Proof. intros H. unfold subprocess_run. now rewrite H. Qed.

Lemma subprocess_run_checked (h : host) (args : list str) (cwd : option str)
  (w : world) (c : completed) (fs' : str -> option node) :
  exec h args cwd w = Some (c, fs') -> returncode c = 0%Z ->
  subprocess_run h args cwd true w
  = (Ok c, {| fs := fs'; printed := printed w;
              spawned := spawned w ++ [args] |}).
Proof. intros H R. unfold subprocess_run. now rewrite H, R. Qed.

(** [probe_offsets] up to the start of the compiler. *)
Lemma probe_offsets_staged (h : host) (header class_name : str)
  (field_names : list str) (version : AndroidVersion) (arch : str)
  (w w1 w2 w4 : world) (d1 d2 : str) (toolchain : Toolchain)
  (includes : list str) :
  let header_path := os_path_join d2 [header] in
  let source_name := mktemp h (lit "probe") (lit ".cc") w2 in
  let probe_obj := splitext_root source_name ++ lit ".o" in
  let args :=
    compile_args h toolchain includes d2 source_name probe_obj in
  get_aosp_checkout h system_core version w = (Ok d1, w1) ->
  get_aosp_checkout h platform_art version w1 = (Ok d2, w2) ->
  fs w2 header_path <> None ->
  stage_probe h header class_name field_names version arch d1 header_path
    source_name (set_node source_name (Some (File [])) w2)
  = (Ok (toolchain, includes), w4) ->
  probe_offsets h header class_name field_names version arch w
  = (fst (compile_and_extract h toolchain args probe_obj field_names w4),
     set_node source_name None
       (snd (compile_and_extract h toolchain args probe_obj field_names w4))).
Proof.
  intros header_path source_name probe_obj args H1 H2 H3 H4.
  unfold probe_offsets.
  rewrite (bind_ok _ _ _ _ _ H1), (bind_ok _ _ _ _ _ H2).
  fold header_path. unfold bind at 1, os_path_exists at 1.
  destruct (fs w2 header_path) eqn:E; [|now destruct H3]. cbn [negb].
  unfold with_named_temporary_file. fold source_name.
  rewrite (bind_ok _ _ _ _ _ H4). fold probe_obj. fold args.
  now destruct (compile_and_extract h toolchain args probe_obj field_names w4).
Qed.

Lemma compile_and_extract_error (h : host) (toolchain : Toolchain)
  (args : list str) (probe_obj : str) (field_names : list str) (w4 : world)
  (c : completed) (fs5 : str -> option node) :
  exec h args None w4 = Some (c, fs5) ->
  returncode c <> 0%Z ->
  fs5 probe_obj <> Some Dir ->
  exists w',
    compile_and_extract h toolchain args probe_obj field_names w4
    = (if existsb (fun e => contains e (stderr c)) ignored_errors
       then Ok (sentinels (-2) field_names)
       else Raise (CalledProcessError (returncode c) args (stderr c)), w')
    /\ printed w'
       = if existsb (fun e => contains e (stderr c)) ignored_errors
         then printed w4 else printed w4 ++ [Line (stderr c)].
Proof.
  intros H5 H6 H7. apply Z.eqb_neq in H6.
  unfold compile_and_extract, try_finally.
  rewrite (bind_ok _ _ _ _ _ (subprocess_run_exited h args None w4 c fs5 H5)).
  rewrite H6. cbn [negb].
  destruct (existsb (fun e => contains e (stderr c)) ignored_errors).
  - unfold ret at 1.
    destruct (cleanup_runs probe_obj
                {| fs := fs5; printed := printed w4;
                   spawned := spawned w4 ++ [args] |} H7)
      as (w' & -> & Hp & _).
    exists w'. split; [reflexivity | exact Hp].
  - unfold bind at 1, print at 1, raise at 1. cbn [fs printed spawned].
    destruct (cleanup_runs probe_obj
                {| fs := fs5; printed := printed w4 ++ [Line (stderr c)];
                   spawned := spawned w4 ++ [args] |} H7)
      as (w' & -> & Hp & _).
    exists w'. split; [reflexivity | exact Hp].
Qed.

Lemma compile_and_extract_measured (h : host) (toolchain : Toolchain)
  (args : list str) (probe_obj : str) (field_names : list str) (w4 : world)
  (c d : completed) (fs5 fs6 : str -> option node) :
  exec h args None w4 = Some (c, fs5) ->
  returncode c = 0%Z ->
  exec h (objdump_args toolchain probe_obj) None
    {| fs := fs5; printed := printed w4; spawned := spawned w4 ++ [args] |}
  = Some (d, fs6) ->
  returncode d = 0%Z ->
  fs6 probe_obj <> Some Dir ->
  exists w',
    compile_and_extract h toolchain args probe_obj field_names w4
    = (parse_objdump_section_as_uint32_array (stdout d), w').
Proof.
  intros H5 H6 H7 H8 H9.
  unfold compile_and_extract, try_finally.
  rewrite (bind_ok _ _ _ _ _ (subprocess_run_exited h args None w4 c fs5 H5)).
  rewrite H6. cbn [Z.eqb negb].
  rewrite (bind_ok _ _ _ _ _
             (subprocess_run_checked h _ None _ d fs6 H7 H8)).
  unfold lift. cbn [fs printed spawned].
  destruct (cleanup_runs probe_obj
              {| fs := fs6; printed := printed w4;
                 spawned := (spawned w4 ++ [args])
                            ++ [objdump_args toolchain probe_obj] |} H9)
    as (w' & -> & _).
  exists w'. reflexivity.
Qed.

(** C7. When the compiler exits with a status other than 0: if its
    diagnostic contains "is not a member of" or "has no member named",
    [probe_offsets] returns -2 for the size and for every requested field
    and prints nothing; otherwise it prints the diagnostic and raises
    [CalledProcessError]. *)
Theorem probe_offsets_compile_error (h : host) (header class_name : str)
  (field_names : list str) (version : AndroidVersion) (arch : str)
  (w w1 w2 w4 : world) (d1 d2 : str) (toolchain : Toolchain)
  (includes : list str) (c : completed) (fs5 : str -> option node) :
  let header_path := os_path_join d2 [header] in
  let source_name := mktemp h (lit "probe") (lit ".cc") w2 in
  let probe_obj := splitext_root source_name ++ lit ".o" in
  let args :=
    compile_args h toolchain includes d2 source_name probe_obj in
  get_aosp_checkout h system_core version w = (Ok d1, w1) ->
  get_aosp_checkout h platform_art version w1 = (Ok d2, w2) ->
  fs w2 header_path <> None ->
  stage_probe h header class_name field_names version arch d1 header_path
    source_name (set_node source_name (Some (File [])) w2)
  = (Ok (toolchain, includes), w4) ->
  exec h args None w4 = Some (c, fs5) ->
  returncode c <> 0%Z ->
  fs5 probe_obj <> Some Dir ->
  (contains (lit "is not a member of") (stderr c) = true
   \/ contains (lit "has no member named") (stderr c) = true ->
   exists w',
     probe_offsets h header class_name field_names version arch w
     = (Ok ((-2)%Z :: map (fun _ => (-2)%Z) field_names), w')
     /\ printed w' = printed w4)
  /\ (contains (lit "is not a member of") (stderr c) = false ->
      contains (lit "has no member named") (stderr c) = false ->
      exists w',
        probe_offsets h header class_name field_names version arch w
        = (Raise (CalledProcessError (returncode c) args (stderr c)), w')
        /\ printed w' = printed w4 ++ [Line (stderr c)]).
Proof.
  intros header_path source_name probe_obj args H1 H2 H3 H4 H5 H6 H7.
  rewrite (probe_offsets_staged h header class_name field_names version arch
             w w1 w2 w4 d1 d2 toolchain includes H1 H2 H3 H4).
  fold header_path source_name probe_obj args.
  destruct (compile_and_extract_error h toolchain args probe_obj field_names
              w4 c fs5 H5 H6 H7) as (w' & -> & Hp).
  cbn [fst snd existsb ignored_errors] in *. split.
  - intros Hc.
    replace (contains (lit "is not a member of") (stderr c)
             || (contains (lit "has no member named") (stderr c) || false))
      with true in *
      by (symmetry; rewrite orb_false_r; apply orb_true_iff; exact Hc).
    eexists. split; [reflexivity | exact Hp].
  - intros Ha Hb. rewrite Ha, Hb in *. eexists. split; [reflexivity | exact Hp].
Qed.

Lemma probe_offsets_compile_error_witness :
  fst (probe_offsets (scripted_host (failing no_member)) mirror_header
         mirror_class probed_fields version50 (lit "arm")
         empty_world)
  = Ok [-2; -2]%Z
  /\ exists args,
       fst (probe_offsets (scripted_host (failing no_runtime_header))
              mirror_header mirror_class probed_fields version50 (lit "arm")
              empty_world)
       = Raise (CalledProcessError 1 args no_runtime_header).
Proof.
  split.
  - edestruct (probe_offsets_compile_error (scripted_host (failing no_member))
                 mirror_header mirror_class probed_fields version50
                 (lit "arm") empty_world) as [H _].
    + vm_compute. reflexivity.
    + vm_compute. reflexivity.
    + vm_compute. discriminate.
    + vm_compute. reflexivity.
    + vm_compute. reflexivity.
    + vm_compute. discriminate.
    + vm_compute. discriminate.
    + destruct H as (w' & H & _); [right; vm_compute; reflexivity|].
      rewrite H. reflexivity.
  - edestruct (probe_offsets_compile_error
                 (scripted_host (failing no_runtime_header))
                 mirror_header mirror_class probed_fields version50
                 (lit "arm") empty_world)
      as [_ H].
    + vm_compute. reflexivity.
    + vm_compute. reflexivity.
    + vm_compute. discriminate.
    + vm_compute. reflexivity.
    + vm_compute. reflexivity.
    + vm_compute. discriminate.
    + vm_compute. discriminate.
    + destruct H as (w' & H & _);
        [vm_compute; reflexivity | vm_compute; reflexivity|].
      rewrite H. eexists. reflexivity.
Defined.

(** ** What a dump of the probe's array decodes to *)

Lemma hex_char_value (d : Z) :
  (0 <= d < 16)%Z -> hex_digit_value (hex_char d) = Some d.
Proof.
  intros H. replace d with (Z.of_nat (Z.to_nat d)) by lia.
  assert (B : Z.to_nat d < 16) by lia. revert B.
  generalize (Z.to_nat d) as n. intros n B.
  do 16 (destruct n as [|n]; [vm_compute; reflexivity|]). lia.
Qed.

Lemma hex_pairs_roundtrip (bs : list Z) :
  forallb is_byte bs = true ->
  traverse int16 (pairs (flat_map hex_of_byte bs)) = Ok bs.
Proof.
  induction bs as [|b bs IH]; intros H; [reflexivity|].
  cbn [forallb] in H. apply andb_true_iff in H. destruct H as [Hb H].
  unfold is_byte in Hb. apply andb_true_iff in Hb. destruct Hb as [L U].
  apply Z.leb_le in L. apply Z.ltb_lt in U.
  cbn [flat_map hex_of_byte app pairs traverse].
  rewrite (int16_hex_pair (hex_char (b / 16)) (hex_char (b mod 16))
             (b / 16) (b mod 16)).
  - cbn [res_bind]. rewrite (IH H). cbn [res_bind].
    f_equal. f_equal. pose proof (Z.div_mod b 16). lia.
  - apply hex_char_value. split.
    + apply Z.div_pos; lia.
    + apply Z.div_lt_upper_bound; lia.
  - apply hex_char_value. apply Z.mod_pos_bound. lia.
Qed.

Lemma le_bytes4_bytes (v : Z) : forallb is_byte (le_bytes4 v) = true.
Proof.
  unfold le_bytes4, is_byte. cbn [forallb].
  repeat (apply andb_true_iff; split); try reflexivity;
    try (apply Z.leb_le; apply Z.mod_pos_bound; lia);
    try (apply Z.ltb_lt; apply Z.mod_pos_bound; lia).
Qed.

Lemma le_bytes4_roundtrip (v : Z) :
  (0 <= v < 2 ^ 32)%Z -> little_endian (le_bytes4 v) = v.
Proof.
  intros H. change (2 ^ 32)%Z with 4294967296%Z in H.
  unfold le_bytes4. cbn [little_endian].
  Z.div_mod_to_equations. lia.
Qed.

Lemma values_bytes (vs : list Z) :
  forallb is_byte (flat_map le_bytes4 vs) = true.
Proof.
  induction vs as [|v vs IH]; [reflexivity|].
  cbn [flat_map]. now rewrite forallb_app, le_bytes4_bytes, IH.
Qed.

Lemma values_roundtrip (vs : list Z) :
  Forall (fun v => (0 <= v < 2 ^ 32)%Z) vs ->
  map little_endian (chunks4 (flat_map le_bytes4 vs)) = vs.
Proof.
  induction 1 as [|v vs Hv _ IH]; [reflexivity|].
  cbn [flat_map]. unfold le_bytes4 at 1. cbn [app chunks4 map].
  rewrite IH. f_equal. exact (le_bytes4_roundtrip v Hv).
Qed.

Lemma parse_dump_of_values (output : str) (vs : list Z) :
  Forall (fun v => (0 <= v < 2 ^ 32)%Z) vs ->
  hex_bytes_of output = hex_of_values vs ->
  parse_objdump_section_as_uint32_array output = Ok vs.
Proof.
  intros Hv Hd. rewrite parse_words, Hd. unfold hex_of_values.
  rewrite (hex_pairs_roundtrip _ (values_bytes vs)). cbn [res_bind].
  now rewrite values_roundtrip.
Qed.

(** X1. When the compiler succeeds and the data columns that the pattern
    extracts from the dump of the object's [.data] spell the bytes of the
    array of the probe (an [unsigned int] for the size of the class and for
    the offset of each requested field, in the order of the request),
    [probe_offsets] returns the size as element 0 and then the offset of
    each requested field in order: one more element than there are
    requested fields. *)
Theorem probe_offsets_measured (layout : str -> Z) (h : host)
  (header class_name : str) (field_names : list str)
  (version : AndroidVersion) (arch : str)
  (w w1 w2 w4 : world) (d1 d2 : str) (toolchain : Toolchain)
  (includes : list str) (c d : completed) (fs5 fs6 : str -> option node) :
  let header_path := os_path_join d2 [header] in
  let source_name := mktemp h (lit "probe") (lit ".cc") w2 in
  let probe_obj := splitext_root source_name ++ lit ".o" in
  let args :=
    compile_args h toolchain includes d2 source_name probe_obj in
  get_aosp_checkout h system_core version w = (Ok d1, w1) ->
  get_aosp_checkout h platform_art version w1 = (Ok d2, w2) ->
  fs w2 header_path <> None ->
  stage_probe h header class_name field_names version arch d1 header_path
    source_name (set_node source_name (Some (File [])) w2)
  = (Ok (toolchain, includes), w4) ->
  exec h args None w4 = Some (c, fs5) ->
  returncode c = 0%Z ->
  exec h (objdump_args toolchain probe_obj) None
    {| fs := fs5; printed := printed w4; spawned := spawned w4 ++ [args] |}
  = Some (d, fs6) ->
  returncode d = 0%Z ->
  fs6 probe_obj <> Some Dir ->
  (forall query, 0 <= layout query < 2 ^ 32)%Z ->
  hex_bytes_of (stdout d)
  = hex_of_values (map layout (probe_queries class_name field_names)) ->
  exists w',
    probe_offsets h header class_name field_names version arch w
    = (Ok (layout (sizeof_query class_name)
           :: map (fun field_name =>
                     layout (offsetof_query class_name field_name))
                field_names), w')
    /\ length (layout (sizeof_query class_name)
               :: map (fun field_name =>
                         layout (offsetof_query class_name field_name))
                    field_names)
       = 1 + length field_names.
Proof.
  intros header_path source_name probe_obj args
    H1 H2 H3 H4 H5 H6 H7 H8 H9 Hl Hd.
  rewrite (probe_offsets_staged h header class_name field_names version arch
             w w1 w2 w4 d1 d2 toolchain includes H1 H2 H3 H4).
  fold header_path source_name probe_obj args.
  destruct (compile_and_extract_measured h toolchain args probe_obj
              field_names w4 c d fs5 fs6 H5 H6 H7 H8 H9) as (w' & ->).
  cbn [fst snd].
  rewrite (parse_dump_of_values (stdout d)
             (map layout (probe_queries class_name field_names))).
  - eexists. split.
    + unfold probe_queries. cbn [app map]. rewrite map_map. reflexivity.
    + cbn [length]. now rewrite length_map.
  - apply Forall_forall. intros v Hv. apply in_map_iff in Hv.
    destruct Hv as (q & <- & _). apply Hl.
  - exact Hd.
Qed.

Lemma probe_offsets_measured_witness :
  fst (probe_offsets (scripted_host measured) plain_header plain_class
         probed_fields version70 (lit "arm") empty_world)
  = Ok [16; 12]%Z.
Proof.
  edestruct (probe_offsets_measured
               (fun query =>
                  if str_eqb query (sizeof_query plain_class)
                  then 16%Z else 12%Z)
               (scripted_host measured) plain_header plain_class
               probed_fields version70 (lit "arm") empty_world)
    as (w' & H & _).
  - vm_compute. reflexivity.
  - vm_compute. reflexivity.
  - vm_compute. discriminate.
  - vm_compute. reflexivity.
  - vm_compute. reflexivity.
  - vm_compute. reflexivity.
  - vm_compute. reflexivity.
  - vm_compute. reflexivity.
  - vm_compute. discriminate.
  - intros query. cbv beta.
    destruct (str_eqb query (sizeof_query plain_class)); split;
      vm_compute; congruence.
  - vm_compute. reflexivity.
  - rewrite H. vm_compute. reflexivity.
Defined.

(** ** What [probe_offsets] can return *)







(** ** ResultAggregator *)

Lemma str_leb_total (a b : str) : str_leb a b = false -> str_leb b a = true.
Proof.
  revert b; induction a as [|x a IH]; intros [|y b]; cbn [str_leb];
    try discriminate; try reflexivity.
  intros H. apply orb_false_iff in H. destruct H as [H1 H2].
  apply Nat.ltb_ge in H1. apply andb_false_iff in H2.
  apply orb_true_iff.
  destruct (Nat.eq_dec (code x) (code y)) as [E|E].
  - right. destruct H2 as [H2|H2]; [apply Nat.eqb_neq in H2; lia|].
    apply andb_true_iff. split; [apply Nat.eqb_eq; lia | now apply IH].
  - left. apply Nat.ltb_lt. lia.
Qed.

Lemma str_leb_trans (a b c : str) :
  str_leb a b = true -> str_leb b c = true -> str_leb a c = true.
Proof.
  revert b c; induction a as [|x a IH]; intros [|y b] [|z c];
    cbn [str_leb]; try discriminate; try reflexivity.
  rewrite !orb_true_iff, !andb_true_iff, !Nat.ltb_lt, !Nat.eqb_eq.
  intros [H1|[H1 H1']] [H2|[H2 H2']].
  - left. lia.
  - left. lia.
  - left. lia.
  - right. split; [lia | exact (IH b c H1' H2')].
Qed.

Lemma insert_sorted_perm (x : str) (l : list str) :
  Permutation (insert_sorted x l) (x :: l).
Proof.
  induction l as [|y l IH]; cbn [insert_sorted]; [reflexivity|].
  destruct (str_leb x y); [reflexivity|].
  rewrite IH. apply perm_swap.
Qed.

Lemma sort_perm (l : list str) : Permutation (sort l) l.
Proof.
  induction l as [|x l IH]; [reflexivity|].
  unfold sort in *. cbn [fold_right]. rewrite insert_sorted_perm.
  now constructor.
Qed.

Lemma insert_sorted_sorted (x : str) (l : list str) :
  Sorted str_le l -> Sorted str_le (insert_sorted x l).
Proof.
  induction 1 as [|y l Hl IH Hd]; cbn [insert_sorted].
  - repeat constructor.
  - destruct (str_leb x y) eqn:E.
    + constructor; [now constructor | now constructor].
    + constructor; [exact IH|].
      apply str_leb_total in E.
      destruct l as [|z l]; cbn [insert_sorted].
      * now constructor.
      * destruct (str_leb x z); constructor;
          [exact E | now inversion Hd].
Qed.

Lemma sort_sorted (l : list str) : StronglySorted str_le (sort l).
Proof.
  apply Sorted_StronglySorted.
  - intros a b c. apply str_leb_trans.
  - induction l as [|x l IH]; [constructor|].
    unfold sort in *. cbn [fold_right]. now apply insert_sorted_sorted.
Qed.

Lemma sort_NoDup (l : list str) : NoDup l -> NoDup (sort l).
Proof.
  intros H. eapply Permutation_NoDup; [|exact H].
  symmetry. apply sort_perm.
Qed.

Lemma dict_set_In {V} (d : list (str * V)) (k k' : str) (v v' : V) :
  In (k, v) (dict_set d k' v') -> v = v' \/ In (k, v) d.
Proof.
  induction d as [|[k0 v0] d IH]; cbn [dict_set].
  - intros [H|[]]. injection H as _ <-. now left.
  - destruct (str_eqb k0 k').
    + intros [H|H]; [injection H as _ <-; now left | right; now right].
    + intros [H|H]; [right; now left|].
      destruct (IH H) as [E|E]; [now left | right; now right].
Qed.

Lemma record_probe_inv (h : host) (arch : str) (version : AndroidVersion)
  (table table' : list (str * list str)) (w w' : world) :
  record_probe h arch version table w = (Ok table', w') ->
  exists entries,
    table' = dict_set table (result_key arch version)
               (sort (set_elements h entries)).
Proof.
  unfold record_probe. intros H.
  apply bind_inv in H. destruct H as ([size access_flags] & w1 & _ & H).
  apply bind_inv in H. destruct H as (u & w2 & _ & H).
  unfold ret in H. injection H as <- _. eexists. reflexivity.
Qed.

Section Aggregation.

Variable h : host.
Hypothesis set_is_duplicate_free : forall l, NoDup (set_elements h l).

Lemma record_probe_tidy (arch : str) (version : AndroidVersion)
  (table table' : list (str * list str)) (w w' : world) :
  record_probe h arch version table w = (Ok table', w') ->
  tidy table ->
  tidy table'
  /\ dict_keys table' = add_key (dict_keys table) (result_key arch version).
Proof.
  intros H T. apply record_probe_inv in H. destruct H as [entries ->].
  split; [|apply dict_keys_set].
  intros key es Hin. apply dict_set_In in Hin. destruct Hin as [->|Hin].
  - split; [apply sort_NoDup, set_is_duplicate_free | apply sort_sorted].
  - exact (T key es Hin).
Qed.

Lemma versions_loop_tidy (arch : str) (versions : list AndroidVersion) :
  forall table table' w w',
    for_each versions (fun version => record_probe h arch version) table w
    = (Ok table', w') ->
    tidy table ->
    tidy table'
    /\ dict_keys table'
       = fold_left add_key (map (result_key arch) versions)
           (dict_keys table).
Proof.
  induction versions as [|v versions IH]; intros table table' w w' H T;
    cbn [for_each map fold_left] in *.
  - unfold ret in H. injection H as <- _. now split.
  - apply bind_inv in H. destruct H as (t1 & w1 & H1 & H).
    destruct (record_probe_tidy arch v table t1 w w1 H1 T) as [T1 K1].
    destruct (IH t1 table' w1 w' H T1) as [T' K'].
    split; [exact T' | now rewrite K', K1].
Qed.

Lemma architectures_loop_tidy (versions : list AndroidVersion)
  (archs : list str) :
  forall table table' w w',
    for_each archs
      (fun arch =>
         for_each versions (fun version => record_probe h arch version))
      table w
    = (Ok table', w') ->
    tidy table ->
    tidy table'
    /\ dict_keys table'
       = fold_left add_key
           (flat_map (fun arch => map (result_key arch) versions) archs)
           (dict_keys table).
Proof.
  induction archs as [|arch archs IH]; intros table table' w w' H T;
    cbn [for_each flat_map fold_left] in *.
  - unfold ret in H. injection H as <- _. now split.
  - apply bind_inv in H. destruct H as (t1 & w1 & H1 & H).
    destruct (versions_loop_tidy arch versions table t1 w w1 H1 T)
      as [T1 K1].
    destruct (IH t1 table' w1 w' H T1) as [T' K'].
    split; [exact T' | now rewrite K', fold_left_app, K1].
Qed.

End Aggregation.

Lemma add_keys_from_nil (l : list str) : fold_left add_key l [] = first_seen l.
Proof.
  rewrite add_keys_first_seen. cbn [app].
  rewrite <- (filter_ext (fun _ => true)) by reflexivity.
  induction (first_seen l) as [|y f IH]; [reflexivity|].
  cbn [filter]. now rewrite IH.
Qed.

(** C9, as the script has it.  In the report of [main] the keys stand in
    the order in which the loops first produce them: the architectures in
    the order arm, x86, arm64, x86_64 and, for one architecture, the API
    levels in the order in which the list of versions first has them.  The
    list under each key has no duplicates and is sorted lexicographically. *)
Theorem report_keys_and_values (h : host) (w w1 w' : world)
  (tags : list str) (versions : list AndroidVersion)
  (table : list (str * list str)) :
  (forall l, NoDup (set_elements h l)) ->
  compute_tags_affecting h [mirror_header; plain_header] w = (Ok tags, w1) ->
  traverse from_tag tags = Ok versions ->
  main_table h w = (Ok table, w') ->
  main h w
  = (Ok tt, {| fs := fs w'; printed := printed w' ++ [Json table];
               spawned := spawned w' |})
  /\ dict_keys table
     = first_seen
         (flat_map (fun arch => map (result_key arch) versions)
            [lit "arm"; lit "x86"; lit "arm64"; lit "x86_64"])
  /\ forall key entries,
       In (key, entries) table ->
       NoDup entries /\ StronglySorted (fun a b => str_leb a b = true) entries.
Proof.
  intros Hset Htags Hversions Htable. split.
  - unfold main. now rewrite (bind_ok _ _ _ _ _ Htable).
  - unfold main_table in Htable.
    rewrite (bind_ok _ _ _ _ _ Htags) in Htable.
    unfold bind at 1, lift at 1 in Htable. rewrite Hversions in Htable.
    destruct (architectures_loop_tidy h Hset versions architectures
                [] table w1 w' Htable) as [T K].
    + intros key entries [].
    + split; [|exact T].
      rewrite K. apply add_keys_from_nil.
Qed.

Lemma report_keys_and_values_witness :
  exists table,
    fst (main_table (scripted_host measured) empty_world)
    = Ok table
    /\ dict_keys table
       = [lit "arm-24"; lit "x86-24"; lit "arm64-24"; lit "x86_64-24"]
    /\ forall key entries,
         In (key, entries) table ->
         NoDup entries
         /\ StronglySorted (fun a b => str_leb a b = true) entries.
Proof.
  edestruct (report_keys_and_values (scripted_host measured)
               empty_world) as (_ & K & T).
  - intros l. apply first_seen_NoDup.
  - vm_compute. reflexivity.
  - vm_compute. reflexivity.
  - vm_compute. reflexivity.
  - eexists. split; [vm_compute; reflexivity|]. split; [|exact T].
    rewrite K. vm_compute. reflexivity.
Defined.

(** C9, as claimed, fails: with the versions 5.0, 6.0, 5.1 of the
    interleaved history the report has the key arm-23 before arm-22. *)
Lemma report_keys_not_ascending :
  exists table w',
    main_table (scripted_host interleaved) empty_world
    = (Ok table, w')
    /\ firstn 3 (dict_keys table)
       = [lit "arm-21"; lit "arm-23"; lit "arm-22"]
    /\ ~ keys_ascend_by_level (dict_keys table).
Proof.
  eexists. eexists. split; [vm_compute; reflexivity|].
  split; [vm_compute; reflexivity|].
  intros K. assert (F : 2 < 1); [|lia].
  apply (K (lit "arm") 22%Z 23%Z 2 1).
  - lia.
  - vm_compute. reflexivity.
  - vm_compute. reflexivity.
Qed.

(** C5 fails on the script for a request of forty fields.  The array of the
    probe has 41 elements, 164 bytes, and the dump has a line at the address
    a0; the pattern wants decimal digits in the address column, does not
    match that line, and [probe_offsets] returns 40 elements, the size and
    39 offsets, where 41 are due. *)
Theorem probe_offsets_loses_line_00a0 :
  length forty_fields = 40
  /\ match_atoms section_data_pattern
       (lit " 0090 0c000000 0c000000 0c000000 0c000000  ................"
        ++ nl)
     = Some [lit " "; lit "0090"; lit " ";
             lit "0c000000 0c000000 0c000000 0c000000"; lit "  "]
  /\ match_atoms section_data_pattern
       (lit " 00a0 0c000000                             ....            "
        ++ nl)
     = None
  /\ length (findall section_data_pattern section_data_group dump164) = 10
  /\ fst (probe_offsets (scripted_host wide) plain_header plain_class
            forty_fields version70 (lit "arm") empty_world)
     = Ok (16%Z :: repeat 12%Z 39).
Proof.
  repeat split; vm_compute; reflexivity.
Qed.

(** X2. Every tag that the resolver of one path returns is a release tag of
    major version 5 or later. *)
Theorem compute_tags_affecting_path_relevant (h : host) (listing : str)
  (diff : str -> str -> str -> str) (path : str) (w : world) :
  git_repository h listing diff ->
  exists tags w',
    compute_tags_affecting_path h path w = (Ok tags, w')
    /\ forall t,
         In t tags ->
         exists major minor,
           try_parse_tag t = Some (major, minor) /\ (5 <= major)%Z.
Proof.
  intros H.
  destruct (compute_tags_affecting_path_spec h listing diff path w H)
    as [calls Hc].
  eexists. eexists. split; [exact Hc|].
  intros t Ht.
  pose proof (subsequence_In _ _ t
                (tags_affecting_path_subsequence diff path (eligible listing))
                Ht) as Hin.
  unfold eligible in Hin. apply filter_In in Hin. destruct Hin as [_ Hr].
  unfold is_relevant_tag in Hr.
  destruct (try_parse_tag t) as [[major minor]|]; [|discriminate].
  exists major, minor. split; [reflexivity | now apply Z.leb_le].
Qed.

Lemma compute_tags_affecting_path_relevant_witness :
  exists tags,
    fst (compute_tags_affecting_path (scripted_host one_change) mirror_header
           empty_world)
    = Ok tags
    /\ forall t,
         In t tags ->
         exists major minor,
           try_parse_tag t = Some (major, minor) /\ (5 <= major)%Z.
Proof.
  destruct (compute_tags_affecting_path_relevant
              (scripted_host one_change) (script_listing one_change)
              (script_diff one_change) mirror_header
              empty_world
              (scripted_git_repository one_change)) as (tags & w' & Hrun & Hrel).
  exists tags. split; [now rewrite Hrun | exact Hrel].
Defined.

(** ** Lines that the pattern passes over *)

Lemma give_back_none (k least : nat) (s : str)
  (rest : str -> option (list str)) :
  (forall j, least <= j <= k -> rest (skipn j s) = None) ->
  give_back k least s rest = None.
Proof.
  induction k as [|k IH]; intros H; cbn [give_back].
  - destruct (0 <? least) eqn:E; [reflexivity|].
    apply Nat.ltb_ge in E. now rewrite H by lia.
  - destruct (S k <? least) eqn:E; [reflexivity|].
    apply Nat.ltb_ge in E. rewrite H by lia.
    apply IH. intros j Hj. apply H. lia.
Qed.

Lemma digit_not_space (c : ascii) : is_digit c = true -> is_space c = false.
Proof.
  destruct c as [[] [] [] [] [] [] [] []]; cbv; congruence.
Qed.

Lemma span_digits (address : str) (c : ascii) (rest : str) :
  forallb is_digit address = true -> is_digit c = false ->
  span is_digit (address ++ c :: rest) = length address.
Proof.
  intros Ha Hc. induction address as [|d address IH]; cbn [app span length].
  - now rewrite Hc.
  - cbn [forallb] in Ha. apply andb_true_iff in Ha. destruct Ha as [Hd Ha].
    now rewrite Hd, IH.
Qed.

Lemma no_space_ahead (address : str) (c : ascii) (rest : str) (j : nat) :
  forallb is_digit address = true -> is_space c = false ->
  j <= length address ->
  span is_space (skipn j (address ++ c :: rest)) = 0.
Proof.
  intros Ha Hc. revert j. induction address as [|d address IH]; intros j Hj.
  - replace j with 0 by (simpl in Hj; lia). cbn [app skipn span].
    now rewrite Hc.
  - cbn [forallb] in Ha. apply andb_true_iff in Ha. destruct Ha as [Hd Ha].
    destruct j as [|j]; cbn [app skipn].
    + cbn [span]. now rewrite (digit_not_space d Hd).
    + apply IH; [exact Ha | simpl in Hj; lia].
Qed.

Lemma digits_then_other (address : str) (c : ascii) (rest : str) :
  forallb is_digit address = true ->
  is_digit c = false -> is_space c = false ->
  match_atoms section_data_pattern (" "%char :: address ++ c :: rest) = None.
Proof.
  intros Ha Hd Hs. unfold section_data_pattern. cbn [match_atoms cls least].
  assert (Hspan : span is_space (" "%char :: address ++ c :: rest) = 1).
  { pose proof (no_space_ahead address c rest 0 Ha Hs (Nat.le_0_l _)) as Z0.
    cbn [skipn] in Z0. cbn [span]. change (is_space " "%char) with true.
    cbv iota. now rewrite Z0. }
  rewrite Hspan. apply give_back_none. intros j Hj.
  replace j with 1 by lia. cbn [skipn].
  rewrite (span_digits address c rest Ha Hd).
  apply give_back_none. intros k Hk.
  rewrite (no_space_ahead address c rest k Ha Hs) by lia.
  reflexivity.
Qed.

(** ** Lines that the pattern takes *)

Lemma give_back_first (k least : nat) (s : str)
  (rest : str -> option (list str)) (ps : list str) :
  least <= k -> rest (skipn k s) = Some ps ->
  give_back k least s rest = Some (firstn k s :: ps).
Proof.
  intros Hk Hr. destruct k as [|k]; cbn [give_back].
  - replace (0 <? least) with false by (symmetry; apply Nat.ltb_ge; lia).
    now rewrite Hr.
  - replace (S k <? least) with false by (symmetry; apply Nat.ltb_ge; lia).
    now rewrite Hr.
Qed.

Lemma give_back_next (k least : nat) (s : str)
  (rest : str -> option (list str)) :
  rest (skipn (S k) s) = None ->
  give_back (S k) least s rest = give_back k least s rest.
Proof.
  intros Hr. cbn [give_back]. rewrite Hr.
  destruct (S k <? least) eqn:E; [|reflexivity].
  apply Nat.ltb_lt in E. symmetry. apply give_back_none.
  intros j Hj. lia.
Qed.

Lemma span_class_then (p : ascii -> bool) (taken : str) (c : ascii)
  (rest : str) :
  forallb p taken = true -> p c = false ->
  span p (taken ++ c :: rest) = length taken.
Proof.
  intros Ht Hc. induction taken as [|x taken IH]; cbn [app span length].
  - now rewrite Hc.
  - cbn [forallb] in Ht. apply andb_true_iff in Ht. destruct Ht as [Hx Ht].
    now rewrite Hx, IH.
Qed.

Lemma skipn_past {A} (taken rest : list A) (k : nat) :
  skipn (length taken + k) (taken ++ rest) = skipn k rest.
Proof.
  rewrite skipn_app, skipn_all2 by lia.
  replace (length taken + k - length taken) with k by lia. reflexivity.
Qed.

Lemma firstn_exact {A} (taken rest : list A) :
  firstn (length taken) (taken ++ rest) = taken.
Proof.
  rewrite firstn_app, Nat.sub_diag, firstn_all. cbn [firstn].
  apply app_nil_r.
Qed.

(** X4. A line of a dump whose address column is made of decimal digits,
    whose data columns start right after one space and are followed by two
    spaces and a character that is neither of a word nor white space (the
    dot that the text column prints for a byte that is not printable), is
    matched by [section_data_pattern], and group 1 is the data columns. *)
Theorem data_line_matched (address body : str) (x c : ascii) (rest : str) :
  address <> [] ->
  forallb is_digit address = true ->
  is_space x = false ->
  forallb word_or_space (x :: body) = true ->
  word_or_space c = false ->
  match_atoms section_data_pattern
    (" "%char :: address
     ++ " "%char :: (x :: body) ++ " "%char :: " "%char :: c :: rest)
  = Some [ [" "%char]; address; [" "%char]; x :: body;
           [" "%char; " "%char] ].
Proof.
  intros Hne Ha Hx Hb Hc.
  assert (Hcs : is_space c = false).
  { unfold word_or_space in Hc. apply orb_false_iff in Hc. tauto. }
  unfold section_data_pattern. cbn [match_atoms cls least].
  (* the leading white space *)
  assert (S1 : span is_space
                 (" "%char :: address
                  ++ " "%char :: (x :: body)
                  ++ " "%char :: " "%char :: c :: rest) = 1).
  { destruct address as [|d address]; [now destruct Hne|].
    cbn [forallb] in Ha. apply andb_true_iff in Ha. destruct Ha as [Hd _].
    cbn [span app]. change (is_space " "%char) with true. cbv iota.
    now rewrite (digit_not_space d Hd). }
  rewrite S1. apply give_back_first; [lia|]. cbn [skipn].
  (* the address *)
  rewrite (span_class_then is_digit address " "%char _ Ha eq_refl).
  rewrite (give_back_first (length address) 1 _ _
             [[" "%char]; x :: body; [" "%char; " "%char]]).
  - now rewrite firstn_exact.
  - destruct address; [now destruct Hne | simpl; lia].
  - replace (length address) with (length address + 0) by lia.
    rewrite skipn_past. cbn [skipn].
    (* the space before the data columns *)
    assert (S3 : span is_space
                   (" "%char :: (x :: body)
                    ++ " "%char :: " "%char :: c :: rest) = 1).
    { cbn [span app]. change (is_space " "%char) with true. cbv iota.
      now rewrite Hx. }
    rewrite S3. apply give_back_first; [lia|]. cbn [skipn].
    (* the data columns, longest first *)
    assert (S4 : span word_or_space
                   ((x :: body) ++ " "%char :: " "%char :: c :: rest)
                 = S (S (length (x :: body)))).
    { change ((x :: body) ++ " "%char :: " "%char :: c :: rest)
        with ((x :: body) ++ [" "%char; " "%char] ++ c :: rest).
      rewrite app_assoc, span_class_then.
      - rewrite length_app. cbn [length]. lia.
      - rewrite forallb_app, Hb. reflexivity.
      - exact Hc. }
    rewrite S4.
    rewrite give_back_next.
    + rewrite give_back_next.
      * rewrite (give_back_first (length (x :: body)) 1 _ _
                   [[" "%char; " "%char]]).
        -- now rewrite firstn_exact.
        -- cbn [length]. lia.
        -- replace (length (x :: body)) with (length (x :: body) + 0) by lia.
           rewrite skipn_past. cbn [skipn span].
           change (is_space " "%char) with true. cbv iota.
           rewrite Hcs. reflexivity.
      * replace (S (length (x :: body))) with (length (x :: body) + 1) by lia.
        rewrite skipn_past. cbn [skipn span].
        change (is_space " "%char) with true. cbv iota.
        rewrite Hcs. reflexivity.
    + replace (S (S (length (x :: body))))
        with (length (x :: body) + 2) by lia.
      rewrite skipn_past. cbn [skipn span]. rewrite Hcs. reflexivity.
Qed.

Lemma data_line_matched_witness :
  match_atoms section_data_pattern
    (lit " 0090 0c000000 0c000000 0c000000 0c000000  ................"
     ++ nl)
  = Some [ lit " "; lit "0090"; lit " ";
           lit "0c000000 0c000000 0c000000 0c000000"; lit "  " ].
Proof.
  apply (data_line_matched (lit "0090")
           (lit "c000000 0c000000 0c000000 0c000000") "0"%char "."%char
           (lit "..............." ++ nl)).
  - discriminate.
  - reflexivity.
  - reflexivity.
  - reflexivity.
  - reflexivity.
Defined.

(** ** The lines of a dump, one after the other *)

Lemma rest_of_line (atoms : list atom) (group : nat) (t more : str) :
  no_newline t = true ->
  findall_go atoms group 0 false (t ++ nl ++ more)
  = findall_go atoms group 0 true more.
Proof.
  induction t as [|c t IH]; intros H.
  - reflexivity.
  - cbn [no_newline forallb] in H. apply andb_true_iff in H.
    destruct H as [Hc Ht]. apply negb_true_iff in Hc.
    cbn [app findall_go]. rewrite Hc. exact (IH Ht).
Qed.

Lemma pass_over (atoms : list atom) (group : nat) (pre rest : str) :
  forall bol,
    findall_go atoms group (length pre) bol (pre ++ rest)
    = findall_go atoms group 0
        (fold_left (fun _ c => Ascii.eqb c (ascii_of_nat 10)) pre bol) rest.
Proof.
  induction pre as [|p pre IH]; intros bol; [reflexivity|].
  cbn [length app findall_go fold_left]. apply IH.
Qed.

Lemma space_not_digit (c : ascii) : is_space c = true -> is_digit c = false.
Proof.
  destruct c as [[] [] [] [] [] [] [] []]; cbv; congruence.
Qed.

Lemma white_then_other (ws : str) (c : ascii) (rest : str) :
  forallb is_space ws = true ->
  is_space c = false -> is_digit c = false ->
  match_atoms section_data_pattern (ws ++ c :: rest) = None.
Proof.
  intros Hw Hs Hd. unfold section_data_pattern. cbn [match_atoms cls least].
  rewrite (span_class_then is_space ws c rest Hw Hs).
  apply give_back_none. intros j Hj.
  rewrite skipn_app. replace (j - length ws) with 0 by lia. cbn [skipn].
  assert (Z0 : span is_digit (skipn j ws ++ c :: rest) = 0).
  { assert (F : forallb is_space (skipn j ws) = true).
    { rewrite <- (firstn_skipn j ws), forallb_app in Hw.
      apply andb_true_iff in Hw. tauto. }
    destruct (skipn j ws) as [|y ys]; cbn [app span].
    - now rewrite Hd.
    - cbn [forallb] in F. apply andb_true_iff in F.
      now rewrite (space_not_digit y (proj1 F)). }
  rewrite Z0. reflexivity.
Qed.

Lemma columns_matched (address body : str) (x c : ascii) (rest : str) :
  address <> [] ->
  forallb is_digit address = true ->
  is_space x = false ->
  forallb word_or_space (x :: body) = true ->
  word_or_space c = false ->
  match_atoms section_data_pattern
    (" "%char :: address
     ++ " "%char :: (x :: body) ++ " "%char :: " "%char :: c :: rest)
  = Some [ [" "%char]; address; [" "%char]; x :: body;
           [" "%char; " "%char] ].
Proof.
  intros Hne Ha Hx Hb Hc.
  assert (Hcs : is_space c = false).
  { unfold word_or_space in Hc. apply orb_false_iff in Hc. tauto. }
  unfold section_data_pattern. cbn [match_atoms cls least].
  (* the leading white space *)
  assert (S1 : span is_space
                 (" "%char :: address
                  ++ " "%char :: (x :: body)
                  ++ " "%char :: " "%char :: c :: rest) = 1).
  { destruct address as [|d address]; [now destruct Hne|].
    cbn [forallb] in Ha. apply andb_true_iff in Ha. destruct Ha as [Hd _].
    cbn [span app]. change (is_space " "%char) with true. cbv iota.
    now rewrite (digit_not_space d Hd). }
  rewrite S1. apply give_back_first; [lia|]. cbn [skipn].
  (* the address *)
  rewrite (span_class_then is_digit address " "%char _ Ha eq_refl).
  rewrite (give_back_first (length address) 1 _ _
             [[" "%char]; x :: body; [" "%char; " "%char]]).
  - now rewrite firstn_exact.
  - destruct address; [now destruct Hne | simpl; lia].
  - replace (length address) with (length address + 0) by lia.
    rewrite skipn_past. cbn [skipn].
    (* the space before the data columns *)
    assert (S3 : span is_space
                   (" "%char :: (x :: body)
                    ++ " "%char :: " "%char :: c :: rest) = 1).
    { cbn [span app]. change (is_space " "%char) with true. cbv iota.
      now rewrite Hx. }
    rewrite S3. apply give_back_first; [lia|]. cbn [skipn].
    (* the data columns, longest first *)
    assert (S4 : span word_or_space
                   ((x :: body) ++ " "%char :: " "%char :: c :: rest)
                 = S (S (length (x :: body)))).
    { change ((x :: body) ++ " "%char :: " "%char :: c :: rest)
        with ((x :: body) ++ [" "%char; " "%char] ++ c :: rest).
      rewrite app_assoc, span_class_then.
      - rewrite length_app. cbn [length]. lia.
      - rewrite forallb_app, Hb. reflexivity.
      - exact Hc. }
    rewrite S4.
    rewrite give_back_next.
    + rewrite give_back_next.
      * rewrite (give_back_first (length (x :: body)) 1 _ _
                   [[" "%char; " "%char]]).
        -- now rewrite firstn_exact.
        -- cbn [length]. lia.
        -- replace (length (x :: body)) with (length (x :: body) + 0) by lia.
           rewrite skipn_past. cbn [skipn span].
           change (is_space " "%char) with true. cbv iota.
           rewrite Hcs. reflexivity.
      * replace (S (length (x :: body))) with (length (x :: body) + 1) by lia.
        rewrite skipn_past. cbn [skipn span].
        change (is_space " "%char) with true. cbv iota.
        rewrite Hcs. reflexivity.
    + replace (S (S (length (x :: body))))
        with (length (x :: body) + 2) by lia.
      rewrite skipn_past. cbn [skipn span]. rewrite Hcs. reflexivity.
Qed.

Lemma not_space_not_newline (c : ascii) :
  is_space c = false -> Ascii.eqb c (ascii_of_nat 10) = false.
Proof.
  destruct c as [[] [] [] [] [] [] [] []]; cbv; congruence.
Qed.

Lemma digits_no_newline (address : str) :
  forallb is_digit address = true -> no_newline address = true.
Proof.
  unfold no_newline. induction address as [|d address IH]; [reflexivity|].
  cbn [forallb]. intros H. apply andb_true_iff in H. destruct H as [Hd Ha].
  rewrite (not_space_not_newline d (digit_not_space d Hd)). exact (IH Ha).
Qed.

Lemma no_newline_app (a b : str) :
  no_newline (a ++ b) = no_newline a && no_newline b.
Proof. apply forallb_app. Qed.

Lemma ends_with_space (pre : str) (bol : bool) :
  fold_left (fun _ c => Ascii.eqb c (ascii_of_nat 10)) (pre ++ [" "%char]) bol
  = false.
Proof. now rewrite fold_left_app. Qed.

Lemma findall_taken (address : str) (x : ascii) (body : str) (c : ascii)
  (text more : str) :
  line_ok (Taken address x body c text) = true ->
  findall_go section_data_pattern section_data_group 0 true
    (line_text (Taken address x body c text) ++ more)
  = (x :: body)
    :: findall_go section_data_pattern section_data_group 0 true more.
Proof.
  intros H. cbn [line_ok] in H.
  apply andb_true_iff in H. destruct H as [H H0].
  apply andb_true_iff in H. destruct H as [H H4].
  apply andb_true_iff in H. destruct H as [H H1].
  apply andb_true_iff in H. destruct H as [H H2].
  apply andb_true_iff in H. destruct H as [H H3].
  apply negb_true_iff in H, H2, H4.
  assert (Hne : address <> [])
    by (destruct address; [discriminate H | discriminate]).
  assert (Hcs : is_space c = false).
  { unfold word_or_space in H4. apply orb_false_iff in H4. tauto. }
  cbn [line_text].
  replace ((" "%char :: address
            ++ " "%char :: (x :: body)
            ++ " "%char :: " "%char :: c :: text ++ nl) ++ more)
    with (" "%char :: address
          ++ " "%char :: (x :: body)
          ++ " "%char :: " "%char :: c :: (text ++ nl ++ more))
    by (cbn [app]; repeat (rewrite <- app_assoc; cbn [app]); reflexivity).
  cbn [findall_go].
  rewrite (columns_matched address body x c (text ++ nl ++ more)
             Hne H3 H2 H1 H4).
  cbn [nth section_data_group concat]. f_equal.
  change (Ascii.eqb " " (ascii_of_nat 10)) with false.
  match goal with
  | |- findall_go _ _ ?n _ _ = _ =>
      replace n
        with (length ((address ++ " "%char :: (x :: body) ++ [" "%char])
                      ++ [" "%char]))
        by (cbn [app]; repeat (rewrite length_app; cbn [length app]); lia)
  end.
  replace (address
           ++ " "%char :: (x :: body)
           ++ " "%char :: " "%char :: c :: text ++ nl ++ more)
    with (((address ++ " "%char :: (x :: body) ++ [" "%char])
           ++ [" "%char]) ++ (c :: text) ++ nl ++ more)
    by (cbn [app]; repeat (rewrite <- app_assoc; cbn [app]); reflexivity).
  rewrite pass_over, ends_with_space.
  apply rest_of_line. cbn [no_newline forallb].
  rewrite (not_space_not_newline c Hcs). exact H0.
Qed.

Lemma findall_passed (address : str) (c : ascii) (rest more : str) :
  line_ok (Passed address c rest) = true ->
  findall_go section_data_pattern section_data_group 0 true
    (line_text (Passed address c rest) ++ more)
  = findall_go section_data_pattern section_data_group 0 true more.
Proof.
  intros H. cbn [line_ok] in H.
  apply andb_true_iff in H. destruct H as [H H0].
  apply andb_true_iff in H. destruct H as [H H1].
  apply andb_true_iff in H. destruct H as [H H2].
  apply negb_true_iff in H1, H2.
  cbn [line_text].
  replace ((" "%char :: address ++ c :: rest ++ nl) ++ more)
    with (" "%char :: address ++ c :: (rest ++ nl ++ more))
    by (cbn [app]; repeat (rewrite <- app_assoc; cbn [app]); reflexivity).
  cbn [findall_go].
  rewrite (digits_then_other address c (rest ++ nl ++ more) H H2 H1).
  change (Ascii.eqb " " (ascii_of_nat 10)) with false.
  replace (address ++ c :: rest ++ nl ++ more)
    with ((address ++ c :: rest) ++ nl ++ more)
    by (rewrite <- app_assoc; reflexivity).
  apply rest_of_line. rewrite no_newline_app, (digits_no_newline address H).
  cbn [no_newline forallb andb].
  rewrite (not_space_not_newline c H1). exact H0.
Qed.

Lemma findall_lines (lines : list section_line) :
  forallb line_ok lines = true ->
  findall_go section_data_pattern section_data_group 0 true
    (concat (map line_text lines))
  = taken_columns lines.
Proof.
  induction lines as [|l lines IH]; intros H; [reflexivity|].
  cbn [forallb] in H. apply andb_true_iff in H. destruct H as [Hl Hr].
  cbn [map concat].
  destruct l as [address x body c text | address c rest];
    cbn [taken_columns].
  - rewrite (findall_taken address x body c text _ Hl). f_equal.
    exact (IH Hr).
  - rewrite (findall_passed address c rest _ Hl). exact (IH Hr).
Qed.

Lemma headers_lookahead (headers : list str) (more : str) :
  headers <> [] ->
  forallb header_ok headers = true ->
  last headers [" "%char] <> [] ->
  exists ws c rest,
    concat (map (fun h => h ++ nl) headers) ++ more = ws ++ c :: rest
    /\ forallb is_space ws = true
    /\ is_space c = false /\ is_digit c = false.
Proof.
  induction headers as [|h headers IH]; intros Hne Hok Hlast;
    [now destruct Hne|].
  cbn [forallb] in Hok. apply andb_true_iff in Hok. destruct Hok as [Hh Hr].
  cbn [map concat]. destruct h as [|c t].
  - destruct headers as [|h' headers]; [now destruct Hlast|].
    destruct (IH ltac:(discriminate) Hr Hlast) as (ws & c & rest & E & W & S & D).
    exists (ascii_of_nat 10 :: ws), c, rest.
    split; [cbn [app nl]; now rewrite E|].
    split; [cbn [forallb]; now rewrite W | split; assumption].
  - unfold header_ok in Hh. apply andb_true_iff in Hh. destruct Hh as [_ Hc].
    apply andb_true_iff in Hc. destruct Hc as [S D].
    apply negb_true_iff in S, D.
    exists [], c, ((t ++ nl) ++ concat (map (fun h => h ++ nl) headers) ++ more).
    split; [cbn [app]; now rewrite <- app_assoc|].
    split; [reflexivity | split; assumption].
Qed.

Lemma findall_headers (headers : list str) (more : str) :
  forallb header_ok headers = true ->
  last headers [" "%char] <> [] ->
  findall_go section_data_pattern section_data_group 0 true
    (concat (map (fun h => h ++ nl) headers) ++ more)
  = findall_go section_data_pattern section_data_group 0 true more.
Proof.
  induction headers as [|h headers IH]; intros Hok Hlast; [reflexivity|].
  assert (Hrest : headers = [] \/ last headers [" "%char] <> []).
  { destruct headers as [|h' headers]; [now left | right; exact Hlast]. }
  destruct (headers_lookahead (h :: headers) more ltac:(discriminate)
              Hok Hlast) as (ws & c & rest & E & W & S & D).
  pose proof (white_then_other ws c rest W S D) as N. rewrite <- E in N.
  cbn [forallb] in Hok. apply andb_true_iff in Hok. destruct Hok as [Hh Hr].
  assert (Hnext :
            findall_go section_data_pattern section_data_group 0 true
              (concat (map (fun h => h ++ nl) headers) ++ more)
            = findall_go section_data_pattern section_data_group 0 true more).
  { destruct Hrest as [-> | Hl]; [reflexivity | exact (IH Hr Hl)]. }
  cbn [map concat] in N |- *.
  rewrite <- !app_assoc in N. rewrite <- !app_assoc.
  destruct h as [|x t].
  - cbn [app nl] in N |- *. cbn [findall_go]. rewrite N.
    change (Ascii.eqb (ascii_of_nat 10) (ascii_of_nat 10)) with true.
    exact Hnext.
  - unfold header_ok in Hh. apply andb_true_iff in Hh.
    destruct Hh as [Hn Hx]. apply andb_true_iff in Hx.
    destruct Hx as [Sx _]. apply negb_true_iff in Sx.
    cbn [no_newline forallb] in Hn. apply andb_true_iff in Hn.
    destruct Hn as [_ Hn].
    cbn [app] in N |- *. cbn [findall_go].
    rewrite N, (not_space_not_newline x Sx).
    rewrite (rest_of_line _ _ t _ Hn). exact Hnext.
Qed.

Lemma findall_dump (headers : list str) (lines : list section_line) :
  headers_ok headers = true ->
  forallb line_ok lines = true ->
  findall section_data_pattern section_data_group (dump_text headers lines)
  = taken_columns lines.
Proof.
  intros Hh Hl. unfold headers_ok in Hh. apply andb_true_iff in Hh.
  destruct Hh as [Hok Hlast]. apply negb_true_iff in Hlast.
  unfold findall, dump_text.
  rewrite findall_headers; [apply findall_lines; exact Hl | exact Hok |].
  intros E. rewrite E in Hlast. discriminate.
Qed.

Lemma hex_bytes_of_dump (headers : list str) (lines : list section_line) :
  headers_ok headers = true ->
  forallb line_ok lines = true ->
  hex_bytes_of (dump_text headers lines)
  = filter (fun c => negb (Ascii.eqb c " "%char))
      (concat (taken_columns lines)).
Proof.
  intros Hh Hl. unfold hex_bytes_of.
  rewrite replace_space, join_nil. now rewrite (findall_dump _ _ Hh Hl).
Qed.

Lemma taken_columns_app (a b : list section_line) :
  taken_columns (a ++ b) = taken_columns a ++ taken_columns b.
Proof.
  induction a as [|l a IH]; [reflexivity|].
  destruct l; cbn [app taken_columns]; now rewrite IH.
Qed.

Lemma parse_of_hex_bytes (a b : str) :
  hex_bytes_of a = hex_bytes_of b ->
  parse_objdump_section_as_uint32_array a
  = parse_objdump_section_as_uint32_array b.
Proof.
  intros E. unfold parse_objdump_section_as_uint32_array. now rewrite E.
Qed.

(** X3. A line of a dump whose address column has, after its decimal
    digits, a character that is neither a digit nor white space (the
    hexadecimal digits a to f) is not matched by [section_data_pattern].
    In a dump whose other lines are as the pattern expects, no match
    reaches into such a line either: the groups that are found are the data
    columns of the lines before and after it, and
    [parse_objdump_section_as_uint32_array] returns what it returns for the
    dump without the line. *)
Theorem hex_address_not_matched (address : str) (c : ascii) (rest : str)
  (headers : list str) (before after : list section_line) :
  forallb is_digit address = true ->
  is_digit c = false -> is_space c = false ->
  match_atoms section_data_pattern (" "%char :: address ++ c :: rest) = None
  /\ (no_newline rest = true ->
      headers_ok headers = true ->
      forallb line_ok before = true -> forallb line_ok after = true ->
      findall section_data_pattern section_data_group
        (dump_text headers (before ++ Passed address c rest :: after))
      = taken_columns before ++ taken_columns after
      /\ parse_objdump_section_as_uint32_array
           (dump_text headers (before ++ Passed address c rest :: after))
         = parse_objdump_section_as_uint32_array
             (dump_text headers (before ++ after))).
Proof.
  intros Ha Hd Hs. split; [exact (digits_then_other address c rest Ha Hd Hs)|].
  intros Hr Hh Hb Hf.
  assert (Hall : forallb line_ok (before ++ Passed address c rest :: after)
                 = true).
  { rewrite forallb_app, Hb. cbn [forallb line_ok andb].
    now rewrite Ha, Hd, Hs, Hr, Hf. }
  assert (Hwo : forallb line_ok (before ++ after) = true)
    by now rewrite forallb_app, Hb, Hf.
  split.
  - rewrite (findall_dump _ _ Hh Hall), taken_columns_app. reflexivity.
  - apply parse_of_hex_bytes.
    rewrite (hex_bytes_of_dump _ _ Hh Hall), (hex_bytes_of_dump _ _ Hh Hwo).
    now rewrite !taken_columns_app.
Qed.

Lemma hex_address_not_matched_witness :
  match_atoms section_data_pattern
    (lit " 00a0 0c000000                             ....            ")
  = None
  /\ dump164 = dump_text dump_headers (lines160 ++ [line_00a0])
  /\ parse_objdump_section_as_uint32_array dump164
     = parse_objdump_section_as_uint32_array (dump_text dump_headers lines160).
Proof.
  destruct (hex_address_not_matched (lit "00") "a"%char
              (lit "0 0c000000                             ....            ")
              dump_headers lines160 [])
    as [N P]; try reflexivity.
  split; [exact N|]. split; [vm_compute; reflexivity|].
  destruct P as [_ P];
    [reflexivity | reflexivity | reflexivity | reflexivity | exact P].
Defined.

(** C3. For every dump text, [parse_objdump_section_as_uint32_array] takes
    the runs that the pattern extracts, in order and without their spaces,
    decodes that text two characters at a time into bytes (two hexadecimal
    digits give sixteen times the first plus the second), and turns each
    four consecutive bytes into their little-endian value, in order.  In a
    dump of header lines and data lines, the runs are the data columns of
    every line whose address is made of decimal digits, in the order of
    the lines; a line whose address has a hexadecimal letter after its
    decimal digits is passed over.  The dump of the bytes
    00 00 00 08 04 00 00 00 08 00 00 00 gives
    [0x08000000, 0x00000004, 0x00000008]; the dump of 41 elements on
    eleven lines, the last at the address a0, gives 40 elements. *)
Theorem parse_objdump_little_endian :
  (forall output,
      hex_bytes_of output
      = filter (fun c => negb (Ascii.eqb c " "%char))
          (concat (findall section_data_pattern section_data_group output))
      /\ parse_objdump_section_as_uint32_array output
         = res_bind (traverse int16 (pairs (hex_bytes_of output)))
             (fun bs => Ok (map little_endian (chunks4 bs))))
  /\ (forall headers lines,
         headers_ok headers = true -> forallb line_ok lines = true ->
         findall section_data_pattern section_data_group
           (dump_text headers lines)
         = taken_columns lines
         /\ hex_bytes_of (dump_text headers lines)
            = filter (fun c => negb (Ascii.eqb c " "%char))
                (concat (taken_columns lines)))
  /\ (forall a b x y,
         hex_digit_value a = Some x -> hex_digit_value b = Some y ->
         int16 [a; b] = Ok (16 * x + y)%Z)
  /\ (forall bs k,
         4 * k + 4 <= length bs ->
         nth k (map little_endian (chunks4 bs)) 0%Z
         = (nth (4 * k) bs 0 + 256 * nth (4 * k + 1) bs 0
            + 65536 * nth (4 * k + 2) bs 0
            + 16777216 * nth (4 * k + 3) bs 0)%Z)
  /\ parse_objdump_section_as_uint32_array dump12
     = Ok [0x08000000; 0x00000004; 0x00000008]%Z
  /\ (dump164 = dump_text dump_headers (lines160 ++ [line_00a0])
      /\ length (lines160 ++ [line_00a0]) = 11
      /\ parse_objdump_section_as_uint32_array dump164
         = Ok (16 :: repeat 12 39)%Z).
Proof.
  split; [|split; [|split; [|split; [|split]]]].
  - intros output. split; [|apply parse_words].
    unfold hex_bytes_of. now rewrite replace_space, join_nil.
  - intros headers lines Hh Hl.
    split; [exact (findall_dump _ _ Hh Hl) | exact (hex_bytes_of_dump _ _ Hh Hl)].
  - exact int16_hex_pair.
  - intros bs k. apply nth_word.
  - vm_compute. reflexivity.
  - repeat split; vm_compute; reflexivity.
Qed.

Lemma parse_objdump_little_endian_witness :
  parse_objdump_section_as_uint32_array dump32
  = Ok [16; 12; 8; 4; 1; 2; 3; 255]%Z
  /\ int16 (lit "08") = Ok 8%Z
  /\ nth 0 (map little_endian (chunks4 [0; 0; 0; 8]%Z)) 0%Z = 0x08000000%Z.
Proof.
  destruct parse_objdump_little_endian
    as (Hparse & Hlines & Hpair & Hword & _).
  split; [|split].
  - destruct (Hparse dump32) as [_ ->]. unfold dump32.
    destruct (Hlines dump_headers
                [ Taken (lit "0000") "1"%char
                    (lit "0000000 0c000000 08000000 04000000") "."%char
                    (lit "...............");
                  Taken (lit "0010") "0"%char
                    (lit "1000000 02000000 03000000 ff000000") "."%char
                    (lit "...............") ]) as [_ ->];
      [reflexivity | reflexivity |].
    vm_compute. reflexivity.
  - apply (Hpair "0"%char "8"%char 0%Z 8%Z); reflexivity.
  - rewrite (Hword [0; 0; 0; 8]%Z 0) by (simpl; lia). reflexivity.
Defined.

(** * Further properties *)

(** ** Release tags and versions *)

Lemma digit_value_range (c : ascii) :
  is_digit c = true -> (0 <= digit_value c <= 9)%Z.
Proof.
  destruct c as [[] [] [] [] [] [] [] []]; cbv; intros H;
    try discriminate; split; discriminate.
Qed.

Lemma digit_plain (c : ascii) :
  is_digit c = true ->
  Ascii.eqb c "."%char = false /\ Ascii.eqb "q"%char c = false.
Proof.
  destruct c as [[] [] [] [] [] [] [] []]; cbv; intros H;
    try discriminate; split; reflexivity.
Qed.

Lemma try_parse_tag_parsable (name : str) (ma mi : Z) :
  try_parse_tag name = Some (ma, mi) -> In (ma, mi) parsable_versions.
Proof.
  unfold try_parse_tag. destruct (starts_with (lit "android-") name);
    [|discriminate].
  assert (Q : (if starts_with (lit "q-") (skipn 8 name)
               then Some (10, 0)%Z else None) = Some (ma, mi) ->
              In (ma, mi) parsable_versions).
  { destruct (starts_with (lit "q-") (skipn 8 name)); [|discriminate].
    intros H. injection H as <- <-. now left. }
  destruct (skipn 8 name) as [|a [|d [|b r]]]; try exact Q.
  destruct (is_digit a) eqn:Ha; [|exact Q].
  destruct (Ascii.eqb d "."%char); [|exact Q].
  destruct (is_digit b) eqn:Hb; [|exact Q].
  cbn [andb]. intros H. injection H as <- <-. right.
  apply digit_value_range in Ha. apply digit_value_range in Hb.
  apply in_flat_map. exists (Z.to_nat (digit_value a)). split.
  - apply in_seq. lia.
  - apply in_map_iff. exists (Z.to_nat (digit_value b)). split.
    + f_equal; lia.
    + apply in_seq. lia.
Qed.

Lemma table_agrees_all : forallb table_agrees parsable_versions = true.
Proof. vm_compute. reflexivity. Qed.

Lemma version_eqb_eq (a b : Z * Z) : version_eqb a b = true <-> a = b.
Proof.
  destruct a as [a1 a2], b as [b1 b2]. unfold version_eqb. cbn [fst snd].
  rewrite andb_true_iff, !Z.eqb_eq. split.
  - now intros [-> ->].
  - intros H. injection H as -> ->. now split.
Qed.

(** X5. [AndroidVersion.from_tag] returns a version only for the nine
    major.minor pairs of [api_levels], with the tag kept and the API level
    of the table, so the major version is at least 5 and the API level
    between 21 and 29.  On a tag that the pattern does not match it raises
    [TypeError]; on every other pair, 5.2 or 9.1 as well as 4.4, it raises
    [KeyError] with the key looked up. *)
Theorem from_tag_outcomes (t : str) :
  match from_tag t with
  | Ok v =>
      tag v = t
      /\ try_parse_tag t = Some (major v, minor v)
      /\ In (major v, minor v, api_level v) known_versions
      /\ (5 <= major v <= 10)%Z /\ (21 <= api_level v <= 29)%Z
  | Raise e =>
      (try_parse_tag t = None /\ e = TypeError)
      \/ exists ma mi,
           try_parse_tag t = Some (ma, mi)
           /\ e = KeyError (version_key ma mi)
           /\ forall level, ~ In (ma, mi, level) known_versions
  end.
Proof.
  unfold from_tag. destruct (try_parse_tag t) as [[ma mi]|] eqn:E;
    [|left; now split].
  pose proof (try_parse_tag_parsable t ma mi E) as P.
  pose proof (proj1 (forallb_forall table_agrees parsable_versions)
                table_agrees_all (ma, mi) P) as A.
  unfold table_agrees in A. cbn [fst snd] in A.
  change (str_of_Z ma ++ lit "." ++ str_of_Z mi) with (version_key ma mi).
  destruct (dict_get api_levels (version_key ma mi)) as [level|].
  - cbn [tag major minor api_level].
    apply existsb_exists in A. destruct A as ([[ka ki] kl] & Hin & Hk).
    cbn [fst snd] in Hk. apply andb_true_iff in Hk. destruct Hk as [Hv Hl].
    apply version_eqb_eq in Hv. injection Hv as -> ->.
    apply Z.eqb_eq in Hl. subst kl.
    split; [reflexivity | split; [reflexivity | split; [exact Hin|]]].
    unfold known_versions in Hin. cbn [In] in Hin.
    repeat (destruct Hin as [Hin|Hin];
            [injection Hin as <- <- <-; split; lia|]).
    now destruct Hin.
  - right. exists ma, mi. split; [reflexivity | split; [reflexivity|]].
    intros level Hin. apply negb_true_iff in A.
    assert (X : existsb (fun k => version_eqb (fst k) (ma, mi)) known_versions
                = true); [|congruence].
    apply existsb_exists. exists (ma, mi, level). split; [exact Hin|].
    now apply version_eqb_eq.
Qed.

(** X6. A tag whose major version has two digits, as all release tags from
    android-10.0.0 on have, is not matched by [tag_pattern]: it is not a
    relevant tag, and only the codename tags android-q- count as
    release 10. *)
Theorem two_digit_major_not_relevant (a b : ascii) (rest : str) :
  is_digit a = true -> is_digit b = true ->
  try_parse_tag (lit "android-" ++ a :: b :: rest) = None
  /\ is_relevant_tag (lit "android-" ++ a :: b :: rest) = false
  /\ try_parse_tag (lit "android-q-" ++ rest) = Some (10, 0)%Z.
Proof.
  intros Ha Hb.
  destruct (digit_plain a Ha) as [_ Hq]. destruct (digit_plain b Hb) as [Hd _].
  assert (P : try_parse_tag (lit "android-" ++ a :: b :: rest) = None).
  { unfold try_parse_tag. rewrite starts_with_refl.
    change (skipn 8 (lit "android-" ++ a :: b :: rest)) with (a :: b :: rest).
    cbn [starts_with lit list_ascii_of_string]. rewrite Hq. cbn [andb].
    destruct rest as [|c r]; [reflexivity|].
    now rewrite Hd, andb_false_r. }
  split; [exact P | split].
  - unfold is_relevant_tag. now rewrite P.
  - change (lit "android-q-" ++ rest) with (lit "android-" ++ lit "q-" ++ rest).
    unfold try_parse_tag. rewrite starts_with_refl.
    change (skipn 8 (lit "android-" ++ lit "q-" ++ rest))
      with (lit "q-" ++ rest).
    rewrite starts_with_refl. destruct rest as [|c r]; reflexivity.
Qed.

Lemma two_digit_major_not_relevant_witness :
  is_relevant_tag (lit "android-10.0.0_r1") = false
  /\ try_parse_tag (lit "android-q-preview-1") = Some (10, 0)%Z.
Proof.
  destruct (two_digit_major_not_relevant "1"%char "0"%char (lit ".0.0_r1")
              eq_refl eq_refl) as (_ & H & _).
  destruct (two_digit_major_not_relevant "1"%char "0"%char (lit "preview-1")
              eq_refl eq_refl) as (_ & _ & Q).
  split; [exact H | exact Q].
Defined.

(** ** What the rewrite of the access specifiers leaves *)

Lemma field_suffix (w n x : str) : field w n (x ++ w) = x ++ n.
Proof.
  induction x as [|c x IH].
  - cbn [app]. destruct w; cbn [field]; now rewrite str_eqb_refl.
  - cbn [app field]. destruct (str_eqb (c :: x ++ w) w) eqn:E.
    + apply str_eqb_eq in E. apply (f_equal (@length ascii)) in E.
      cbn [length] in E. rewrite length_app in E. lia.
    + now rewrite IH.
Qed.

Lemma last_char_differs (w v y : str) (a b : ascii) :
  a <> b -> w ++ [a] <> y ++ v ++ [b].
Proof.
  intros Hab E. rewrite app_assoc in E. apply app_inj_tail in E.
  now destruct E.
Qed.

Lemma public_field_no_private (u x : str) :
  public_field u <> x ++ lit "private".
Proof.
  destruct (public_field_cases u) as [E|[v E]]; rewrite E.
  - intros ->. unfold public_field in E.
    rewrite (field_id (lit "protected") (lit "public")) in E.
    + rewrite field_suffix in E. apply app_inv_head in E. discriminate.
    + intros y. change (lit "private") with (lit "privat" ++ ["e"%char]).
      change (lit "protected") with (lit "protecte" ++ ["d"%char]).
      rewrite app_assoc. apply last_char_differs. discriminate.
  - change (lit "private") with (lit "privat" ++ ["e"%char]).
    apply (public_kept (lit "privat") "e"%char v). discriminate.
Qed.

Lemma public_field_no_protected (u x : str) :
  public_field u <> x ++ lit "protected".
Proof.
  destruct (public_field_cases u) as [E|[v E]]; rewrite E.
  - intros ->. unfold public_field in E.
    rewrite field_suffix, private_kept in E.
    apply app_inv_head in E. discriminate.
  - change (lit "protected") with (lit "protecte" ++ ["d"%char]).
    apply (public_kept (lit "protecte") "d"%char v). discriminate.
Qed.

Lemma contains_plain (w s : str) :
  ~ In ":"%char s -> contains (w ++ [":"%char]) s = false.
Proof.
  induction s as [|c s IH]; intros H.
  - cbn [contains]. rewrite orb_false_r.
    destruct (starts_with (w ++ [":"%char]) []) eqn:E; [|reflexivity].
    apply starts_with_spec in E. destruct E as [r E].
    destruct w; discriminate.
  - cbn [contains]. rewrite IH by (intros F; apply H; now right).
    rewrite orb_false_r.
    destruct (starts_with (w ++ [":"%char]) (c :: s)) eqn:E; [|reflexivity].
    apply starts_with_spec in E. destruct E as [r E]. exfalso. apply H.
    rewrite E. apply in_or_app. left. apply in_or_app. right. now left.
Qed.

Lemma contains_past_field (w g t : str) :
  ~ In ":"%char w -> ~ In ":"%char g -> (forall x, g <> x ++ w) ->
  contains (w ++ [":"%char]) (g ++ ":"%char :: t)
  = contains (w ++ [":"%char]) t.
Proof.
  intros Hw. induction g as [|c g IH]; intros Hg Hs.
  - cbn [app contains].
    pose proof (starts_with_field w Hw [] t Hg) as S. cbn [app] in S.
    rewrite S. replace (str_eqb [] w) with false; [reflexivity|].
    symmetry. apply str_eqb_neq. exact (Hs []).
  - cbn [app contains].
    pose proof (starts_with_field w Hw (c :: g) t Hg) as S. cbn [app] in S.
    rewrite S. replace (str_eqb (c :: g) w) with false.
    + cbn [orb]. apply IH.
      * intros F. apply Hg. now right.
      * intros x E. apply (Hs (c :: x)). cbn [app]. now f_equal.
    + symmetry. apply str_eqb_neq. exact (Hs []).
Qed.

Lemma publicize_clean_bounded (k : nat) :
  forall s, length s <= k ->
            contains (lit "private:") (publicize s) = false
            /\ contains (lit "protected:") (publicize s) = false.
Proof.
  induction k as [|k IH]; intros s Hk.
  - destruct s; [split; reflexivity | simpl in Hk; lia].
  - destruct (first_colon s) as [H|(u & rest & -> & Hu)].
    + rewrite (publicize_plain s H). split.
      * exact (contains_plain (lit "private") s H).
      * exact (contains_plain (lit "protected") s H).
    + rewrite (publicize_field u rest Hu).
      destruct (IH rest) as [I1 I2].
      { rewrite length_app in Hk. simpl in Hk. lia. }
      split.
      * change (lit "private:") with (lit "private" ++ [":"%char]) in *.
        rewrite contains_past_field; [exact I1 | apply plain_private | |].
        -- exact (public_field_plain u Hu).
        -- intros x. apply public_field_no_private.
      * change (lit "protected:") with (lit "protected" ++ [":"%char]) in *.
        rewrite contains_past_field; [exact I2 | apply plain_protected | |].
        -- exact (public_field_plain u Hu).
        -- intros x. apply public_field_no_protected.
Qed.

Lemma replace_go_absent (old new : str) (s : str) :
  contains old s = false -> replace_go old new 0 s = s.
Proof.
  induction s as [|c s IH]; intros H; [reflexivity|].
  cbn [contains] in H. apply orb_false_iff in H. destruct H as [H1 H2].
  cbn [replace_go]. rewrite H1. f_equal. now apply IH.
Qed.

(** X7. After the rewrite of the access specifiers no "private:" and no
    "protected:" is left in the header text, whatever the text was; and a
    text with neither is not changed. *)
Theorem publicize_leaves_public_only (header_source : str) :
  contains (lit "private:") (publicize header_source) = false
  /\ contains (lit "protected:") (publicize header_source) = false
  /\ (contains (lit "private:") header_source = false ->
      contains (lit "protected:") header_source = false ->
      publicize header_source = header_source).
Proof.
  destruct (publicize_clean_bounded (length header_source) header_source
              (le_n _)) as [H1 H2].
  split; [exact H1 | split; [exact H2|]].
  intros A B. rewrite publicize_unfold.
  change (lit "protected" ++ [":"%char]) with (lit "protected:").
  change (lit "private" ++ [":"%char]) with (lit "private:").
  rewrite (replace_go_absent (lit "protected:") _ header_source B).
  exact (replace_go_absent (lit "private:") _ header_source A).
Qed.

Lemma publicize_leaves_public_only_witness :
  publicize (lit "class A { public: int x; };")
  = lit "class A { public: int x; };".
Proof.
  destruct (publicize_leaves_public_only (lit "class A { public: int x; };"))
    as (_ & _ & H).
  apply H; reflexivity.
Defined.

(** ** The numbers that the BinaryExtractor returns *)

Lemma little_endian_bound (bs : list Z) :
  forallb is_byte bs = true ->
  (0 <= little_endian bs < 256 ^ Z.of_nat (length bs))%Z.
Proof.
  induction bs as [|b bs IH]; intros H; cbn [little_endian length].
  - simpl. lia.
  - cbn [forallb] in H. apply andb_true_iff in H. destruct H as [Hb H].
    unfold is_byte in Hb. apply andb_true_iff in Hb. destruct Hb as [L U].
    apply Z.leb_le in L. apply Z.ltb_lt in U. specialize (IH H).
    rewrite Nat2Z.inj_succ, Z.pow_succ_r by lia. lia.
Qed.

Lemma chunks4_shape_bounded (n : nat) :
  forall bs,
    length bs <= n ->
    length (chunks4 bs) = (length bs + 3) / 4
    /\ Forall (fun ch => length ch <= 4) (chunks4 bs).
Proof.
  induction n as [|n IH]; intros bs Hn.
  - destruct bs; [split; [reflexivity | constructor] | simpl in Hn; lia].
  - destruct bs as [|b0 [|b1 [|b2 [|b3 rest]]]]; cbn [chunks4];
      try (split; [reflexivity | repeat constructor; simpl; lia]).
    destruct (IH rest) as [L F]; [simpl in Hn; lia|].
    split.
    + cbn [length]. rewrite L.
      replace (S (S (S (S (length rest)))) + 3)
        with (1 * 4 + (length rest + 3)) by lia.
      rewrite Nat.div_add_l by lia. lia.
    + constructor; [simpl; lia | exact F].
Qed.

Lemma traverse_raise {A B} (f : A -> res B) (l : list A) (e : exn) :
  traverse f l = Raise e -> exists x, In x l /\ f x = Raise e.
Proof.
  induction l as [|x l IH]; cbn [traverse]; [discriminate|].
  destruct (f x) as [y|e'] eqn:Hx; cbn [res_bind].
  - destruct (traverse f l) as [ys|e'] eqn:Hl; cbn [res_bind]; [discriminate|].
    intros H. injection H as ->. destruct (IH eq_refl) as (x' & Hin & Hx').
    exists x'. split; [now right | exact Hx'].
  - intros H. injection H as ->. exists x. split; [now left | exact Hx].
Qed.

(** X8. Every number that [parse_objdump_section_as_uint32_array] returns is
    an unsigned 32-bit value, and there is one per started group of four
    decoded bytes.  The only exception it raises is [ValueError], for a
    pair of characters of the extracted text that [int(., 16)] rejects. *)
Theorem parse_objdump_results (output : str) :
  match parse_objdump_section_as_uint32_array output with
  | Ok ws =>
      Forall (fun v => (0 <= v < 2 ^ 32)%Z) ws
      /\ exists bs,
           raw_bytes_of (hex_bytes_of output) = Ok bs
           /\ length ws = (length bs + 3) / 4
  | Raise e =>
      e = ValueError
      /\ exists pair,
           In pair (pairs (hex_bytes_of output)) /\ int16 pair = Raise ValueError
  end.
Proof.
  rewrite parse_words, raw_bytes_of_pairs.
  destruct (traverse int16 (pairs (hex_bytes_of output))) as [bs|e] eqn:E;
    cbn [res_bind].
  - pose proof (decoded_bytes_are_bytes output bs E) as B.
    pose proof (chunks4_bytes_bounded (length bs) bs (le_n _) B) as F.
    destruct (chunks4_shape_bounded (length bs) bs (le_n _)) as [L S].
    split.
    + apply Forall_map. apply Forall_forall. intros ch Hch.
      pose proof (proj1 (Forall_forall _ _) F ch Hch) as Hb.
      pose proof (proj1 (Forall_forall _ _) S ch Hch) as Hl.
      cbv beta in Hb, Hl. pose proof (little_endian_bound ch Hb) as Hle.
      assert (256 ^ Z.of_nat (length ch) <= 256 ^ 4)%Z
        by (apply Z.pow_le_mono_r; lia).
      change (2 ^ 32)%Z with (256 ^ 4)%Z. lia.
    + exists bs. split; [reflexivity | now rewrite length_map].
  - apply traverse_raise in E. destruct E as (pair & Hin & Hp).
    assert (e = ValueError).
    { unfold int16 in Hp.
      destruct (match strip_of int_space pair with
                | [] => None
                | c :: s' =>
                    if Ascii.eqb c "-"%char
                    then option_map Z.opp (hex_unsigned s')
                    else if Ascii.eqb c "+"%char then hex_unsigned s'
                         else hex_unsigned (c :: s')
                end); [discriminate | now injection Hp]. }
    subst e. split; [reflexivity | now exists pair].
Qed.

(** ** The processes and the failures of the VersionResolver *)

Lemma tags_loop_calls (h : host) (listing : str)
  (diff : str -> str -> str -> str) (path : str) :
  git_repository h listing diff ->
  forall tags i previous_tag result w,
    (i = 0 <-> previous_tag = None) ->
    tags_loop h path i previous_tag tags result w
    = (Ok (result ++ kept_from diff path previous_tag tags),
       logged w (diff_calls path previous_tag tags)).
Proof.
  intros [_ Hdiff]. induction tags as [|t tags IH];
    intros i previous_tag result w Hi; cbn [tags_loop kept_from diff_calls].
  - now rewrite app_nil_r, logged_nil.
  - unfold bind at 1. destruct previous_tag as [p|].
    + destruct (i =? 0) eqn:E.
      { apply Nat.eqb_eq in E. apply Hi in E. discriminate. }
      unfold bind at 1.
      rewrite (run_in_art_repo_answers h _ _ w (Hdiff p t path)).
      unfold ret at 1.
      rewrite IH by (split; [lia | discriminate]).
      rewrite logged_logged. f_equal. unfold changed.
      destruct (0 <? length (strip (diff p t path)));
        now rewrite <- ?app_assoc.
    + assert (E : i = 0) by now apply Hi. subst i. cbn [Nat.eqb].
      unfold ret at 1. rewrite IH by (split; [lia | discriminate]).
      cbn [app]. now rewrite <- app_assoc.
Qed.

Lemma compute_tags_affecting_path_calls (h : host) (listing : str)
  (diff : str -> str -> str -> str) (path : str) (w : world) :
  git_repository h listing diff ->
  compute_tags_affecting_path h path w
  = (Ok (tags_affecting_path diff path (eligible listing)),
     logged w (resolver_calls (eligible listing) path)).
Proof.
  intros H. unfold compute_tags_affecting_path, bind.
  rewrite (run_in_art_repo_answers h _ _ w (proj1 H)).
  pose proof (tags_loop_calls h listing diff path H (eligible listing) 0 None
                [] (logged w [git_tag_args])) as L.
  unfold eligible in L at 1. rewrite L by tauto.
  rewrite logged_logged. cbn [app]. unfold resolver_calls. f_equal. f_equal.
  exact (kept_from_selected diff path (eligible listing) []).
Qed.

Lemma diff_calls_length (path : str) (tags : list str) :
  forall previous_tag,
    length (diff_calls path previous_tag tags)
    = match previous_tag with
      | None => length tags - 1
      | Some _ => length tags
      end.
Proof.
  induction tags as [|t tags IH]; intros [p|]; cbn [diff_calls length app];
    try reflexivity; rewrite ?length_app, IH; cbn [length]; lia.
Qed.

Lemma tags_affecting_path_head (diff : str -> str -> str -> str)
  (path t0 : str) (tags : list str) :
  exists more, tags_affecting_path diff path (t0 :: tags) = t0 :: more.
Proof.
  unfold tags_affecting_path. cbn [length seq filter].
  unfold selected at 1. cbn [Nat.eqb orb map nth]. eexists. reflexivity.
Qed.

(** X9. With git answering, the resolver of one path changes no file and
    prints nothing; it starts one [git tag] and then one [git diff] for each
    eligible tag that has one before it, in order.  It returns no tag when
    no tag is eligible, and otherwise its first tag is the earliest eligible
    one, whatever the diffs say. *)
Theorem compute_tags_affecting_path_effects (h : host) (listing : str)
  (diff : str -> str -> str -> str) (path : str) (w : world) :
  git_repository h listing diff ->
  exists tags,
    compute_tags_affecting_path h path w
    = (Ok tags,
       {| fs := fs w; printed := printed w;
          spawned := spawned w
                     ++ git_tag_args
                        :: diff_calls path None (eligible listing) |})
    /\ length (diff_calls path None (eligible listing))
       = length (eligible listing) - 1
    /\ (eligible listing = [] -> tags = [])
    /\ (forall t0 rest,
           eligible listing = t0 :: rest -> exists more, tags = t0 :: more).
Proof.
  intros H. eexists. split; [|split; [|split]].
  - exact (compute_tags_affecting_path_calls h listing diff path w H).
  - exact (diff_calls_length path (eligible listing) None).
  - intros ->. reflexivity.
  - intros t0 rest ->. apply tags_affecting_path_head.
Qed.

Lemma compute_tags_affecting_path_effects_witness :
  exists tags w',
    compute_tags_affecting_path (scripted_host one_change) mirror_header
      empty_world = (Ok tags, w')
    /\ length (spawned w') = 3 /\ hd [] tags = tag50.
Proof.
  destruct (compute_tags_affecting_path_effects
              (scripted_host one_change) (script_listing one_change)
              (script_diff one_change) mirror_header empty_world
              (scripted_git_repository one_change))
    as (tags & Hrun & _ & _ & Hhead).
  exists tags. eexists. split; [exact Hrun|].
  destruct (Hhead tag50 [tag51; tag60]) as [more ->];
    [vm_compute; reflexivity|].
  split; vm_compute; reflexivity.
Defined.

(** X10. When [git tag] exits with a status other than 0, [main] prints
    what git wrote to its standard error and ends with
    [CalledProcessError]: it starts no other process and prints no report.
    When git cannot be started at all, [main] ends with the error of the
    operating system, which names the file that is missing (the program or,
    when the checkout of platform/art is not there, that directory), and
    leaves the world as it was. *)
Theorem main_git_failure (h : host) (w : world) :
  (forall c fs',
      exec h git_tag_args (Some (art_repo_dir h)) w = Some (c, fs') ->
      returncode c <> 0%Z ->
      main h w
      = (Raise (CalledProcessError (returncode c) git_tag_args (stderr c)),
         {| fs := fs'; printed := printed w ++ [Line (stderr c)];
            spawned := spawned w ++ [git_tag_args] |}))
  /\ (exec h git_tag_args (Some (art_repo_dir h)) w = None ->
      main h w
      = (Raise (OSError
                  (start_failure h git_tag_args (Some (art_repo_dir h)) w)),
         w)).
Proof.
  split.
  - intros c fs' He Hr. apply Z.eqb_neq in Hr.
    unfold main, main_table, compute_tags_affecting, bind.
    cbn [tags_of_paths]. unfold bind, compute_tags_affecting_path, bind,
      run_in_art_repo, subprocess_run.
    rewrite He, Hr. reflexivity.
  - intros He.
    unfold main, main_table, compute_tags_affecting, bind.
    cbn [tags_of_paths]. unfold bind, compute_tags_affecting_path, bind,
      run_in_art_repo, subprocess_run.
    rewrite He. reflexivity.
Qed.

Lemma main_git_failure_witness :
  (exists w',
     main not_a_repository empty_world
     = (Raise (CalledProcessError 128 git_tag_args
                 (lit "fatal: not a git repository")), w')
     /\ printed w' = [Line (lit "fatal: not a git repository")]
     /\ spawned w' = [git_tag_args])
  /\ main no_checkout empty_world
     = (Raise (OSError (lit "/work/aosp/platform/art")), empty_world).
Proof.
  split.
  - destruct (main_git_failure not_a_repository empty_world) as [H _].
    eexists. split.
    + apply (H {| returncode := 128%Z; stdout := [];
                  stderr := lit "fatal: not a git repository" |}
               (fs empty_world)); [reflexivity | discriminate].
    + split; reflexivity.
  - destruct (main_git_failure no_checkout empty_world) as [_ H].
    rewrite H by reflexivity. reflexivity.
Defined.

(** X11. When the repository has no eligible tag, [main] runs [git tag] once
    for each of the two header paths and nothing else, and its report is
    the empty table. *)
Theorem main_without_eligible_tags (h : host) (listing : str)
  (diff : str -> str -> str -> str) (w : world) :
  git_repository h listing diff ->
  eligible listing = [] ->
  main h w
  = (Ok tt, {| fs := fs w; printed := printed w ++ [Json []];
               spawned := spawned w ++ [git_tag_args; git_tag_args] |}).
Proof.
  intros H E.
  unfold main, main_table, compute_tags_affecting. cbn [tags_of_paths].
  unfold bind.
  rewrite (compute_tags_affecting_path_calls h listing diff mirror_header w H).
  rewrite (compute_tags_affecting_path_calls h listing diff plain_header _ H).
  rewrite E. unfold ret, lift, print_json, logged. cbn. 
  now rewrite <- app_assoc.
Qed.

Lemma main_without_eligible_tags_witness :
  main (scripted_host old_releases) empty_world
  = (Ok tt, {| fs := fs empty_world; printed := [Json []];
               spawned := [git_tag_args; git_tag_args] |}).
Proof.
  apply (main_without_eligible_tags (scripted_host old_releases)
           (script_listing old_releases) (script_diff old_releases)
           empty_world (scripted_git_repository old_releases)).
  vm_compute. reflexivity.
Defined.

Lemma traverse_In {A B} (f : A -> res B) (l : list A) (ys : list B) (x : A) :
  traverse f l = Ok ys -> In x l -> exists y, f x = Ok y.
Proof.
  intros H. apply traverse_inv in H.
  induction H as [|a y l ys Ha _ IH]; intros [].
  - subst. now exists y.
  - now apply IH.
Qed.

Lemma eligible_parses (listing t : str) :
  In t (eligible listing) ->
  exists ma mi, try_parse_tag t = Some (ma, mi) /\ (5 <= ma)%Z.
Proof.
  unfold eligible. intros H. apply filter_In in H. destruct H as [_ H].
  unfold is_relevant_tag in H.
  destruct (try_parse_tag t) as [[ma mi]|]; [|discriminate].
  exists ma, mi. split; [reflexivity | now apply Z.leb_le].
Qed.

(** X12. When one of the tags that the resolver returns has a version that
    [api_levels] does not list, [main] ends with [KeyError] on the key of
    such a version of an eligible tag.  It has then run the [git tag] and
    [git diff] of the two paths and nothing else: no checkout, no compiler,
    and it prints nothing. *)
Theorem main_unlisted_release (h : host) (listing : str)
  (diff : str -> str -> str -> str) (w : world) (t : str) (e : exn) :
  git_repository h listing diff ->
  In t (tags_affecting_path diff mirror_header (eligible listing)
        ++ tags_affecting_path diff plain_header (eligible listing)) ->
  from_tag t = Raise e ->
  exists t' ma mi,
    In t' (eligible listing)
    /\ try_parse_tag t' = Some (ma, mi)
    /\ dict_get api_levels (version_key ma mi) = None
    /\ main h w
       = (Raise (KeyError (version_key ma mi)),
          {| fs := fs w; printed := printed w;
             spawned := spawned w
                        ++ resolver_calls (eligible listing) mirror_header
                        ++ resolver_calls (eligible listing) plain_header |}).
Proof.
  intros H Hin He.
  unfold main, main_table, compute_tags_affecting. cbn [tags_of_paths].
  unfold bind.
  rewrite (compute_tags_affecting_path_calls h listing diff mirror_header w H).
  rewrite (compute_tags_affecting_path_calls h listing diff plain_header _ H).
  rewrite logged_logged. unfold ret, lift. cbn [app].
  rewrite dict_fromkeys_first_seen.
  destruct (traverse from_tag _) as [versions|e'] eqn:T.
  - apply (traverse_In _ _ _ t) in T; [|now apply first_seen_In].
    destruct T as [v Hv]. congruence.
  - apply traverse_raise in T. destruct T as (t' & Ht' & E).
    apply (proj1 (first_seen_In _ _)) in Ht'.
    assert (Hel : In t' (eligible listing)).
    { apply in_app_or in Ht'.
      destruct Ht' as [I|I];
        exact (subsequence_In _ _ t'
                 (tags_affecting_path_subsequence diff _ (eligible listing))
                 I). }
    destruct (eligible_parses listing t' Hel) as (ma & mi & P & _).
    exists t', ma, mi. split; [exact Hel|]. split; [exact P|].
    unfold from_tag in E. rewrite P in E. fold (version_key ma mi) in E.
    destruct (dict_get api_levels (version_key ma mi)); [discriminate|].
    injection E as <-. split; reflexivity.
Qed.

Lemma main_unlisted_release_witness :
  exists w',
    main (scripted_host unlisted_release) empty_world
    = (Raise (KeyError (lit "5.2")), w')
    /\ printed w' = []
    /\ spawned w' = [git_tag_args; git_tag_args].
Proof.
  destruct (main_unlisted_release (scripted_host unlisted_release)
              (script_listing unlisted_release)
              (script_diff unlisted_release) empty_world tag52
              (KeyError (lit "5.2"))
              (scripted_git_repository unlisted_release))
    as (t' & ma & mi & _ & _ & _ & E).
  - vm_compute. now left.
  - vm_compute. reflexivity.
  - eexists. split; [vm_compute; reflexivity|]. split; reflexivity.
Defined.

(** ** The toolchain, the staging and the output of a run *)

Lemma arch_supported (arch : str) :
  In arch architectures
  <-> exists g, dict_get host_triplets_generic arch = Some g.
Proof.
  split.
  - intros [<-|[<-|[<-|[<-|[]]]]]; eexists; vm_compute; reflexivity.
  - intros [g H]. unfold host_triplets_generic in H. cbn [dict_get] in H.
    unfold architectures.
    repeat match type of H with
           | (if str_eqb ?k arch then _ else _) = _ =>
               let E := fresh "E" in
               destruct (str_eqb k arch) eqn:E;
               [apply str_eqb_eq in E; subst arch; cbn [In]; tauto|]
           end.
    discriminate.
Qed.

Lemma arch_has_abi (arch g : str) :
  dict_get host_triplets_generic arch = Some g ->
  exists a, dict_get host_triplets_abi arch = Some a.
Proof.
  intros H. assert (I : In arch architectures) by (apply arch_supported; eauto).
  destruct I as [<-|[<-|[<-|[<-|[]]]]]; eexists; vm_compute; reflexivity.
Qed.

Lemma generator_inv (h : host) (arch dir : str) (level : Z) (w w' : world)
  (u : unit) :
  (ndk <- os_environ h (lit "ANDROID_NDK_R17B_ROOT") ;;
   subprocess_run h (generator_args ndk arch level dir) None true ;;;
   ret tt) w = (Ok u, w') ->
  exists ndk,
    environ h (lit "ANDROID_NDK_R17B_ROOT") = Some ndk
    /\ printed w' = printed w
    /\ spawned w' = spawned w ++ [generator_args ndk arch level dir].
Proof.
  intros H. apply bind_inv in H. destruct H as (ndk & w1 & Ev & H).
  unfold os_environ in Ev.
  destruct (environ h (lit "ANDROID_NDK_R17B_ROOT")) as [v|]; [|discriminate].
  unfold ret in Ev. injection Ev as -> <-.
  apply bind_inv in H. destruct H as (c & w2 & S & H).
  unfold ret in H. injection H as _ <-.
  unfold subprocess_run in S.
  destruct (exec h _ None w) as [[c' fs']|]; [|discriminate].
  destruct (true && negb (returncode c' =? 0)%Z); [discriminate|].
  injection S as _ <-. exists ndk. repeat split.
Qed.

Lemma get_toolchain_inv (h : host) (arch flavor : str) (w w' : world)
  (t : Toolchain) :
  get_toolchain h arch flavor w = (Ok t, w') ->
  let clang := str_eqb flavor (lit "clang") in
  exists generic abi dir,
    dict_get host_triplets_generic arch = Some generic
    /\ dict_get host_triplets_abi arch = Some abi
    /\ cxx t
       = os_path_join dir
           [lit "bin";
            join (lit "-")
              [if clang then abi ++ str_of_Z (ndk_api_level arch)
               else generic;
               if clang then lit "clang++" else lit "g++"]]
    /\ cxxflags t = toolchain_flags arch clang
    /\ objdump t
       = os_path_join dir [lit "bin"; join (lit "-") [generic; lit "objdump"]]
    /\ printed w' = printed w
    /\ if clang
       then w' = w
            /\ exists ndk more,
                 environ h (lit "ANDROID_NDK_R21_ROOT") = Some ndk
                 /\ glob_glob h
                      (os_path_join ndk [lit "toolchains"; lit "llvm";
                                         lit "prebuilt"; lit "*"]) w
                    = dir :: more
       else dir = legacy_install_dir h arch flavor
            /\ ((fs w dir = Some Dir /\ w' = w)
                \/ (fs w dir <> Some Dir
                    /\ exists ndk,
                         environ h (lit "ANDROID_NDK_R17B_ROOT") = Some ndk
                         /\ spawned w'
                            = spawned w
                              ++ [generator_args ndk arch
                                    (ndk_api_level arch) dir])).
Proof.
  intros H clang. unfold get_toolchain in H.
  apply bind_inv in H. destruct H as (generic & w1 & L & H).
  unfold lookup in L.
  destruct (dict_get host_triplets_generic arch) as [g|] eqn:G;
    [|discriminate].
  unfold ret in L. injection L as -> <-.
  destruct (arch_has_abi arch generic G) as [abi A].
  cbv zeta in H. fold clang in H.
  apply bind_inv in H. destruct H as ([name dir] & w2 & B & H).
  unfold ret in H. injection H as <- <-.
  exists generic, abi, dir. split; [reflexivity|]. split; [exact A|].
  destruct clang eqn:C.
  - apply bind_inv in B. destruct B as (triplet & w3 & L & B).
    unfold lookup in L. rewrite A in L. unfold ret in L. injection L as <- <-.
    apply bind_inv in B. destruct B as (ndk & w4 & Ev & B).
    unfold os_environ in Ev.
    destruct (environ h (lit "ANDROID_NDK_R21_ROOT")) as [v|] eqn:N;
      [|discriminate].
    unfold ret in Ev. injection Ev as -> <-.
    apply bind_inv in B. destruct B as (found & w5 & F & B).
    injection F as <- <-.
    destruct (glob_glob h _ w) as [|d more] eqn:Gl; [discriminate|].
    unfold ret in B. injection B as <- <- <-.
    repeat split; try reflexivity.
    exists ndk, more. split; [reflexivity | exact Gl].
  - apply bind_inv in B. destruct B as (present & w3 & P & B).
    unfold os_path_isdir in P. injection P as <- <-.
    apply bind_inv in B. destruct B as (u & w4 & S & B).
    unfold ret in B. injection B as <- <- <-.
    fold (legacy_install_dir h arch flavor) in *.
    assert (Q : printed w4 = printed w
                /\ ((fs w (legacy_install_dir h arch flavor) = Some Dir
                     /\ w4 = w)
                    \/ (fs w (legacy_install_dir h arch flavor) <> Some Dir
                        /\ exists ndk,
                             environ h (lit "ANDROID_NDK_R17B_ROOT") = Some ndk
                             /\ spawned w4
                                = spawned w
                                  ++ [generator_args ndk arch
                                        (ndk_api_level arch)
                                        (legacy_install_dir h arch flavor)]))).
    { match type of S with
      | context [fs w ?p] =>
          change p with (legacy_install_dir h arch flavor) in S
      end.
      destruct (fs w (legacy_install_dir h arch flavor)) as [[c|]|] eqn:D;
        cbn [negb] in S.
      - destruct (generator_inv h arch (legacy_install_dir h arch flavor)
                    (ndk_api_level arch) w w4 u S) as (ndk & N & Hp & Hs).
        split; [exact Hp|]. right. split; [discriminate|]. now exists ndk.
      - unfold ret in S. injection S as _ <-. split; [reflexivity|]. now left.
      - destruct (generator_inv h arch (legacy_install_dir h arch flavor)
                    (ndk_api_level arch) w w4 u S) as (ndk & N & Hp & Hs).
        split; [exact Hp|]. right. split; [discriminate|]. now exists ndk. }
    destruct Q as [Hp Q].
    repeat split; try reflexivity; try exact Hp. exact Q.
Qed.

Lemma get_toolchain_raise (h : host) (arch flavor : str) (w w' : world)
  (e : exn) :
  get_toolchain h arch flavor w = (Raise e, w') ->
  printed w' = printed w
  /\ (str_eqb flavor (lit "clang") = true -> w' = w)
  /\ (~ In arch architectures -> e = KeyError arch /\ w' = w).
Proof.
  unfold get_toolchain, bind, lookup.
  destruct (dict_get host_triplets_generic arch) as [g|] eqn:G.
  - assert (I : In arch architectures) by (apply arch_supported; eauto).
    unfold ret at 1. cbv zeta.
    destruct (str_eqb flavor (lit "clang")).
    + unfold lookup, os_environ, ret, raise.
      destruct (dict_get host_triplets_abi arch);
        [|intros H; injection H as <- <-; tauto].
      destruct (environ h _); [|intros H; injection H as <- <-; tauto].
      destruct (glob_glob h _ w); [intros H; injection H as <- <-; tauto|].
      discriminate.
    + unfold os_path_isdir, os_environ, subprocess_run, ret, raise.
      destruct (negb _).
      * destruct (environ h _); [|intros H; injection H as <- <-; tauto].
        destruct (exec h _ None w) as [[c fs']|];
          [|intros H; injection H as <- <-; split; [reflexivity|];
            split; [discriminate | tauto]].
        destruct (true && negb (returncode c =? 0)%Z);
          [|discriminate].
        intros H; injection H as <- <-. split; [reflexivity|].
        split; [discriminate | tauto].
      * discriminate.
  - unfold raise. intros H. injection H as <- <-. repeat split.
Qed.

Lemma thumb_only_for_arm (arch : str) (clang : bool) :
  In (lit "-mthumb") (toolchain_flags arch clang) <-> arch = lit "arm".
Proof.
  unfold toolchain_flags. destruct (str_eqb arch (lit "arm")) eqn:E.
  - apply str_eqb_eq in E. split; [intros _; exact E|]. intros _.
    destruct clang; cbn; tauto.
  - apply str_eqb_neq in E. split; [|intros F; now destruct E].
    destruct clang; cbn; intros H;
      repeat (destruct H as [H|H]; [discriminate H|]); destruct H.
Qed.

(** X13. [get_toolchain] serves the four architectures of [main] and no
    other: for any other name it raises [KeyError] on that name and leaves
    the world as it is.  It never prints.  With the flavor clang it starts
    no process and changes nothing; with any other flavor it runs the
    generator of the standalone toolchain once, and only when the install
    directory is not there.  The flags of the toolchain it returns start
    with the language standard of the flavor and hold [-mthumb] exactly
    for arm.  Its compiler and its objdump are in the [bin] directory of
    one install directory, the first that [glob] finds under the NDK for
    clang and the one of the standalone toolchain otherwise; the compiler
    is named by the ABI triplet with the API level and [-clang++], or by
    the generic triplet and [-g++], the objdump by the generic triplet. *)
Theorem get_toolchain_outcomes (h : host) (arch flavor : str) (w : world) :
  let clang := str_eqb flavor (lit "clang") in
  let dir := legacy_install_dir h arch flavor in
  match get_toolchain h arch flavor w with
  | (Ok t, w') =>
      In arch architectures
      /\ hd [] (cxxflags t)
         = (if clang then lit "-std=c++2a" else lit "-std=c++14")
      /\ (In (lit "-mthumb") (cxxflags t) <-> arch = lit "arm")
      /\ (exists generic abi install_dir,
            dict_get host_triplets_generic arch = Some generic
            /\ dict_get host_triplets_abi arch = Some abi
            /\ cxx t
               = os_path_join install_dir
                   [lit "bin";
                    if clang
                    then abi ++ str_of_Z (ndk_api_level arch)
                         ++ lit "-clang++"
                    else generic ++ lit "-g++"]
            /\ objdump t
               = os_path_join install_dir
                   [lit "bin"; generic ++ lit "-objdump"]
            /\ if clang
               then exists ndk more,
                      environ h (lit "ANDROID_NDK_R21_ROOT") = Some ndk
                      /\ glob_glob h
                           (os_path_join ndk [lit "toolchains"; lit "llvm";
                                              lit "prebuilt"; lit "*"]) w
                         = install_dir :: more
               else install_dir = dir)
      /\ printed w' = printed w
      /\ (if clang then w' = w
          else (fs w dir = Some Dir /\ w' = w)
               \/ (fs w dir <> Some Dir
                   /\ exists ndk,
                        environ h (lit "ANDROID_NDK_R17B_ROOT") = Some ndk
                        /\ spawned w'
                           = spawned w
                             ++ [generator_args ndk arch (ndk_api_level arch)
                                   dir]))
  | (Raise e, w') =>
      printed w' = printed w
      /\ (clang = true -> w' = w)
      /\ (~ In arch architectures -> e = KeyError arch /\ w' = w)
  end.
Proof.
  intros clang dir.
  destruct (get_toolchain h arch flavor w) as [[t|e] w'] eqn:G.
  - destruct (get_toolchain_inv h arch flavor w w' t G)
      as (generic & abi & d & Hg & Ha & Hc & Hf & Ho & Hp & Hw).
    fold clang in Hc, Hf, Hw.
    split; [apply arch_supported; eauto|].
    split; [rewrite Hf; unfold toolchain_flags; now destruct clang|].
    split; [rewrite Hf; apply thumb_only_for_arm|].
    split.
    { exists generic, abi, d. split; [exact Hg|]. split; [exact Ha|].
      split; [rewrite Hc; destruct clang; cbn [join];
              now rewrite <- ?app_assoc|].
      split; [rewrite Ho; reflexivity|].
      destruct clang; [exact (proj2 Hw) | exact (proj1 Hw)]. }
    split; [exact Hp|].
    destruct clang; [exact (proj1 Hw)|].
    destruct Hw as [-> Hw]. exact Hw.
  - exact (get_toolchain_raise h arch flavor w w' e G).
Qed.

Lemma stage_probe_inv (h : host) (header class_name : str)
  (field_names : list str) (version : AndroidVersion) (arch : str)
  (system_core_dir header_path source_name : str) (w w4 : world)
  (t : Toolchain) (includes : list str) :
  stage_probe h header class_name field_names version arch system_core_dir
    header_path source_name w = (Ok (t, includes), w4) ->
  exists stored,
    fs (set_node source_name
          (Some (File (probe_text header class_name field_names))) w)
      header_path = Some (File stored)
    /\ get_toolchain h arch
         (if (7 <=? major version)%Z then lit "clang" else lit "gcc")
         (staged header class_name field_names header_path source_name
            (universal_newlines stored) w)
       = (Ok t, w4)
    /\ includes
       = if (7 <=? major version)%Z
         then [ lit "-I"; os_path_join system_core_dir [lit "include"];
                lit "-I";
                os_path_join system_core_dir [lit "base"; lit "include"] ]
         else [].
Proof.
  unfold stage_probe. intros H.
  apply bind_inv in H. destruct H as (u1 & wa & W1 & H).
  unfold write_file in W1.
  assert (wa = set_node source_name
                 (Some (File (probe_text header class_name field_names))) w)
    as -> by (destruct (fs w source_name) as [[c|]|];
              [injection W1 as _ <- | discriminate | injection W1 as _ <-];
              reflexivity).
  clear W1.
  apply bind_inv in H. destruct H as (hs & wb & R & H).
  unfold read_file in R.
  destruct (fs _ header_path) as [[c|]|] eqn:F; try discriminate.
  injection R as <- <-.
  apply bind_inv in H. destruct H as (u2 & wc & W2 & H).
  unfold write_file in W2. rewrite F in W2. injection W2 as _ <-.
  exists c. split; [reflexivity|].
  fold (staged header class_name field_names header_path source_name
          (universal_newlines c) w) in H.
  destruct (7 <=? major version)%Z.
  - apply bind_inv in H. destruct H as (tc & w5 & G & H).
    unfold ret in H. injection H as <- <- <-. split; [exact G | reflexivity].
  - apply bind_inv in H. destruct H as (tc & w5 & G & H).
    unfold ret in H. injection H as <- <- <-. split; [exact G | reflexivity].
Qed.

(** X14. The toolchain of a probe follows the release: from Android 7 on it
    is the clang of the NDK with [-std=c++2a] and the two include
    directories of system/core, and staging starts no process; before, it
    is g++ with [-std=c++14] and no include directory of system/core.
    Staging prints nothing, and it succeeds only for one of the four
    architectures. *)
Theorem stage_probe_selects_toolchain (h : host) (header class_name : str)
  (field_names : list str) (version : AndroidVersion) (arch : str)
  (system_core_dir header_path source_name : str) (w w4 : world)
  (t : Toolchain) (includes : list str) :
  stage_probe h header class_name field_names version arch system_core_dir
    header_path source_name w = (Ok (t, includes), w4) ->
  In arch architectures
  /\ printed w4 = printed w
  /\ if (7 <=? major version)%Z
     then
       hd [] (cxxflags t) = lit "-std=c++2a"
       /\ includes
          = [ lit "-I"; join2 system_core_dir (lit "include");
              lit "-I";
              join2 (join2 system_core_dir (lit "base")) (lit "include") ]
       /\ spawned w4 = spawned w
       /\ exists dir abi,
            dict_get host_triplets_abi arch = Some abi
            /\ cxx t
               = os_path_join dir
                   [lit "bin";
                    abi ++ str_of_Z (ndk_api_level arch) ++ lit "-clang++"]
     else
       hd [] (cxxflags t) = lit "-std=c++14"
       /\ includes = []
       /\ exists generic,
            dict_get host_triplets_generic arch = Some generic
            /\ cxx t
               = os_path_join (legacy_install_dir h arch (lit "gcc"))
                   [lit "bin"; generic ++ lit "-g++"].
Proof.
  intros H.
  destruct (stage_probe_inv _ _ _ _ _ _ _ _ _ _ _ _ _ H)
    as (hs & _ & G & ->).
  destruct (7 <=? major version)%Z;
    destruct (get_toolchain_inv _ _ _ _ _ _ G)
      as (generic & abi & d & Hg & Ha & Hc & Hf & _ & Hp & Hw);
    cbn in Hc, Hf, Hw;
    (split; [apply arch_supported; eauto|]); (split; [exact Hp|]).
  - destruct Hw as [-> _].
    split; [now rewrite Hf|]. split; [reflexivity|]. split; [reflexivity|].
    exists d, abi. split; [exact Ha|]. rewrite Hc. cbn.
    now rewrite <- !app_assoc.
  - destruct Hw as [-> _].
    split; [now rewrite Hf|]. split; [reflexivity|].
    exists generic. split; [exact Hg|]. rewrite Hc. reflexivity.
Qed.

Lemma publicize_clean (s : str) :
  contains (lit "private:") (publicize s) = false
  /\ contains (lit "protected:") (publicize s) = false.
Proof. exact (publicize_clean_bounded (length s) s (le_n _)). Qed.

Lemma not_longer {A} (l : list A) (a : A) : l ++ [a] <> l.
Proof.
  intros H. apply (f_equal (@length A)) in H. rewrite length_app in H.
  cbn in H. lia.
Qed.

Lemma universal_newlines_plain (s : str) :
  forallb (fun c => negb (code c =? 13)) s = true -> universal_newlines s = s.
Proof.
  induction s as [|c s IH]; [reflexivity|]. cbn [forallb universal_newlines].
  intros H. apply andb_true_iff in H. destruct H as [Hc Hs].
  apply negb_true_iff in Hc. rewrite Hc. now rewrite IH.
Qed.

(** X15. Staging rewrites the target header in place.  When it returns
    without having started a process, the header of the worktree holds the
    text that was read from it, which is its former text with every
    carriage return, alone or before a line feed, turned into a line feed,
    with every [private:] and [protected:] turned into [public:]; for a
    header without carriage returns that is the rewrite of its former text.
    Neither word is left in it, the probe source holds the text of the
    probe, and every other file is as it was. *)
Theorem stage_probe_rewrites_header (h : host) (header class_name : str)
  (field_names : list str) (version : AndroidVersion) (arch : str)
  (system_core_dir header_path source_name : str) (w w4 : world)
  (t : Toolchain) (includes : list str) :
  stage_probe h header class_name field_names version arch system_core_dir
    header_path source_name w = (Ok (t, includes), w4) ->
  header_path <> source_name ->
  spawned w4 = spawned w ->
  exists stored,
    fs w header_path = Some (File stored)
    /\ fs w4 header_path
       = Some (File (publicize (universal_newlines stored)))
    /\ (forallb (fun c => negb (code c =? 13)) stored = true ->
        fs w4 header_path = Some (File (publicize stored)))
    /\ contains (lit "private:") (publicize (universal_newlines stored))
       = false
    /\ contains (lit "protected:") (publicize (universal_newlines stored))
       = false
    /\ fs w4 source_name
       = Some (File (probe_text header class_name field_names))
    /\ forall p,
         p <> header_path -> p <> source_name -> fs w4 p = fs w p.
Proof.
  intros H Hne Hs.
  destruct (stage_probe_inv _ _ _ _ _ _ _ _ _ _ _ _ _ H)
    as (hs & F & G & _).
  assert (E : w4 = staged header class_name field_names header_path
                     source_name (universal_newlines hs) w).
  { destruct (get_toolchain_inv _ _ _ _ _ _ G)
      as (generic & abi & d & _ & _ & _ & _ & _ & _ & Hw).
    destruct (str_eqb _ (lit "clang")); [exact (proj1 Hw)|].
    destruct Hw as [_ [[_ Hw]|[_ (ndk & _ & Hw)]]]; [exact Hw|].
    rewrite Hs in Hw. cbn [staged set_node spawned] in Hw.
    symmetry in Hw. now apply not_longer in Hw. }
  subst w4. exists hs.
  assert (N1 : str_eqb header_path source_name = false)
    by now apply str_eqb_neq.
  assert (N2 : str_eqb source_name header_path = false)
    by (apply str_eqb_neq; congruence).
  cbn [set_node fs] in F. rewrite N1 in F.
  destruct (publicize_clean (universal_newlines hs)) as [C1 C2].
  unfold staged. cbn [set_node fs].
  rewrite (str_eqb_refl header_path), (str_eqb_refl source_name), N2.
  repeat split; try assumption.
  - intros P. now rewrite (universal_newlines_plain hs P).
  - intros p P1 P2. apply str_eqb_neq in P1, P2. now rewrite P1, P2.
Qed.

Lemma cleanup_outcomes (probe_obj : str) (w : world) :
  exists r w',
    (present <- os_path_exists probe_obj ;;
     if present then os_unlink probe_obj else ret tt) w = (r, w')
    /\ printed w' = printed w /\ spawned w' = spawned w
    /\ ((r = Ok tt /\ fs w' probe_obj = None)
        \/ (r = Raise (OSError probe_obj) /\ w' = w)).
Proof.
  unfold bind, os_path_exists, os_unlink, ret.
  destruct (fs w probe_obj) as [[c|]|] eqn:E.
  - rewrite E. eexists. eexists. split; [reflexivity|].
    cbn [set_node fs printed spawned]. rewrite str_eqb_refl.
    repeat split. now left.
  - rewrite E. eexists. eexists. split; [reflexivity|]. repeat split.
    now right.
  - eexists. eexists. split; [reflexivity|]. repeat split. now left.
Qed.

Lemma compile_and_extract_cleans (h : host) (toolchain : Toolchain)
  (args : list str) (probe_obj : str) (field_names : list str) (w : world) :
  fs (snd (compile_and_extract h toolchain args probe_obj field_names w))
    probe_obj = None
  \/ fst (compile_and_extract h toolchain args probe_obj field_names w)
     = Raise (OSError probe_obj).
Proof.
  unfold compile_and_extract, try_finally.
  match goal with
  | |- context [let (_, _) := ?body w in _] => destruct (body w) as [r wb]
  end.
  destruct (cleanup_outcomes probe_obj wb)
    as (rc & wc & -> & _ & _ & [[-> F]|[-> ->]]).
  - left. exact F.
  - right. reflexivity.
Qed.

(** X16. A probe leaves no temporary file behind.  Once the checkouts
    returned and the header is there, the probe source is gone when
    [probe_offsets] is left, whatever it returns or raises.  Once staging
    succeeded, the object file is gone as well, unless removing it failed:
    then [probe_offsets] ends with that [OSError]. *)
Theorem probe_offsets_cleans_up (h : host) (header class_name : str)
  (field_names : list str) (version : AndroidVersion) (arch : str)
  (w w1 w2 : world) (d1 d2 : str) :
  let header_path := os_path_join d2 [header] in
  let source_name := mktemp h (lit "probe") (lit ".cc") w2 in
  let probe_obj := splitext_root source_name ++ lit ".o" in
  let outcome :=
    probe_offsets h header class_name field_names version arch w in
  get_aosp_checkout h system_core version w = (Ok d1, w1) ->
  get_aosp_checkout h platform_art version w1 = (Ok d2, w2) ->
  fs w2 header_path <> None ->
  fs (snd outcome) source_name = None
  /\ (forall toolchain includes w4,
        stage_probe h header class_name field_names version arch d1
          header_path source_name (set_node source_name (Some (File [])) w2)
        = (Ok (toolchain, includes), w4) ->
        fs (snd outcome) probe_obj = None
        \/ fst outcome = Raise (OSError probe_obj)).
Proof.
  intros header_path source_name probe_obj outcome H1 H2 H3. split.
  - unfold outcome, probe_offsets.
    rewrite (bind_ok _ _ _ _ _ H1), (bind_ok _ _ _ _ _ H2).
    fold header_path. unfold bind at 1, os_path_exists at 1.
    destruct (fs w2 header_path) eqn:E; [|now destruct H3]. cbn [negb].
    unfold with_named_temporary_file. fold source_name.
    match goal with
    | |- context [let (_, _) := ?body in _] => destruct body as [r wb]
    end.
    cbn [snd set_node fs]. now rewrite str_eqb_refl.
  - intros toolchain includes w4 H4. unfold outcome.
    rewrite (probe_offsets_staged h header class_name field_names version arch
               w w1 w2 w4 d1 d2 toolchain includes H1 H2 H3 H4).
    fold header_path source_name probe_obj. cbn [fst snd set_node fs].
    destruct (compile_and_extract_cleans h toolchain
                (compile_args h toolchain includes d2 source_name probe_obj)
                probe_obj field_names w4) as [F|F].
    + left. rewrite F. now destruct (str_eqb probe_obj source_name).
    + right. exact F.
Qed.

Lemma subprocess_run_quiet (h : host) (args : list str) (cwd : option str)
  (check : bool) (w w' : world) (r : res completed) :
  subprocess_run h args cwd check w = (r, w') -> printed w' = printed w.
Proof.
  unfold subprocess_run. destruct (exec h args cwd w) as [[c fs']|].
  - destruct (check && negb (returncode c =? 0)%Z);
      intros H; injection H as _ <-; reflexivity.
  - intros H; injection H as _ <-; reflexivity.
Qed.

Lemma run_in_art_repo_quiet (h : host) (args : list str) (w w' : world)
  (out : str) :
  run_in_art_repo h args w = (Ok out, w') -> printed w' = printed w.
Proof.
  unfold run_in_art_repo.
  destruct (subprocess_run h args (Some (art_repo_dir h)) true w)
    as [[c|e] w1] eqn:S.
  - intros H. injection H as _ <-. exact (subprocess_run_quiet _ _ _ _ _ _ _ S).
  - destruct e; discriminate.
Qed.

Lemma tags_loop_quiet (h : host) (path : str) (tags : list str) :
  forall i previous_tag result w out w',
    tags_loop h path i previous_tag tags result w = (Ok out, w') ->
    printed w' = printed w.
Proof.
  induction tags as [|t tags IH]; intros i previous_tag result w out w' H;
    cbn [tags_loop] in H.
  - unfold ret in H. now injection H as _ <-.
  - apply bind_inv in H. destruct H as (r1 & w1 & S & H).
    rewrite (IH _ _ _ _ _ _ H).
    destruct (i =? 0); [unfold ret in S; now injection S as _ <-|].
    destruct previous_tag as [p|]; [|discriminate].
    apply bind_inv in S. destruct S as (d & w2 & R & S).
    unfold ret in S. injection S as _ <-.
    exact (run_in_art_repo_quiet _ _ _ _ _ R).
Qed.

Lemma compute_tags_affecting_path_quiet (h : host) (path : str)
  (w w' : world) (tags : list str) :
  compute_tags_affecting_path h path w = (Ok tags, w') ->
  printed w' = printed w.
Proof.
  unfold compute_tags_affecting_path. intros H.
  apply bind_inv in H. destruct H as (listing & w1 & R & H).
  rewrite (tags_loop_quiet _ _ _ _ _ _ _ _ _ H).
  exact (run_in_art_repo_quiet _ _ _ _ _ R).
Qed.

Lemma tags_of_paths_quiet (h : host) (paths : list str) :
  forall tags w out w',
    tags_of_paths h paths tags w = (Ok out, w') -> printed w' = printed w.
Proof.
  induction paths as [|p paths IH]; intros tags w out w' H;
    cbn [tags_of_paths] in H.
  - unfold ret in H. now injection H as _ <-.
  - apply bind_inv in H. destruct H as (more & w1 & C & H).
    rewrite (IH _ _ _ _ H).
    exact (compute_tags_affecting_path_quiet _ _ _ _ _ C).
Qed.

Lemma compute_tags_affecting_quiet (h : host) (paths : list str)
  (w w' : world) (tags : list str) :
  compute_tags_affecting h paths w = (Ok tags, w') -> printed w' = printed w.
Proof.
  unfold compute_tags_affecting. intros H.
  apply bind_inv in H. destruct H as (l & w1 & T & H).
  unfold ret in H. injection H as _ <-.
  exact (tags_of_paths_quiet _ _ _ _ _ _ T).
Qed.

Lemma compile_and_extract_quiet (h : host) (toolchain : Toolchain)
  (args : list str) (probe_obj : str) (field_names : list str)
  (w w' : world) (l : list Z) :
  compile_and_extract h toolchain args probe_obj field_names w = (Ok l, w') ->
  printed w' = printed w.
Proof.
  unfold compile_and_extract, try_finally.
  match goal with
  | |- (let (_, _) := ?body w in _) = _ -> _ =>
      destruct (body w) as [r wb] eqn:B
  end.
  destruct (cleanup_outcomes probe_obj wb)
    as (rc & wc & -> & Hp & _ & [[-> _]|[-> _]]); intros H; [|discriminate].
  injection H as -> <-. rewrite Hp.
  apply bind_inv in B. destruct B as (c & w1 & S & B).
  rewrite <- (subprocess_run_quiet _ _ _ _ _ _ _ S).
  destruct (negb (returncode c =? 0)%Z).
  - destruct (existsb (fun e => contains e (stderr c)) ignored_errors).
    + unfold ret in B. now injection B as _ <-.
    + apply bind_inv in B. destruct B as (u & wp & _ & B). discriminate.
  - apply bind_inv in B. destruct B as (dump & w2 & S2 & B).
    unfold lift in B. injection B as _ <-.
    exact (subprocess_run_quiet _ _ _ _ _ _ _ S2).
Qed.

Lemma stage_probe_quiet (h : host) (header class_name : str)
  (field_names : list str) (version : AndroidVersion) (arch : str)
  (system_core_dir header_path source_name : str) (w w4 : world)
  (t : Toolchain) (includes : list str) :
  stage_probe h header class_name field_names version arch system_core_dir
    header_path source_name w = (Ok (t, includes), w4) ->
  printed w4 = printed w.
Proof.
  intros H.
  destruct (stage_probe_inv _ _ _ _ _ _ _ _ _ _ _ _ _ H)
    as (hs & _ & G & _).
  destruct (get_toolchain_inv _ _ _ _ _ _ G)
    as (generic & abi & d & _ & _ & _ & _ & _ & Hp & _).
  exact Hp.
Qed.

Lemma probe_offsets_quiet (h : host) (header class_name : str)
  (field_names : list str) (version : AndroidVersion) (arch : str)
  (w w' : world) (l : list Z) :
  probe_offsets h header class_name field_names version arch w = (Ok l, w') ->
  printed w' = printed w.
Proof.
  unfold probe_offsets. intros H.
  apply bind_inv in H. destruct H as (d1 & w1 & C1 & H).
  apply bind_inv in H. destruct H as (d2 & w2 & C2 & H).
  apply get_aosp_checkout_inv in C1, C2.
  destruct C1 as (_ & P1 & _), C2 as (_ & P2 & _).
  apply bind_inv in H. destruct H as (present & w3 & E & H).
  unfold os_path_exists in E. injection E as _ <-.
  rewrite <- P1, <- P2.
  destruct (negb present).
  - unfold ret in H. now injection H as _ <-.
  - unfold with_named_temporary_file in H.
    match type of H with
    | (let (_, _) := ?body in _) = _ => destruct body as [r wb] eqn:B
    end.
    injection H as -> <-.
    apply bind_inv in B. destruct B as ([toolchain includes] & w4 & S & B).
    apply compile_and_extract_quiet in B. apply stage_probe_quiet in S.
    cbn [set_node printed] in *. congruence.
Qed.

Lemma probe_art_field_quiet (h : host) (version : AndroidVersion)
  (arch : str) (w w' : world) (p : Z * Z) :
  probe_art_field h version arch w = (Ok p, w') -> printed w' = printed w.
Proof.
  unfold probe_art_field. intros H.
  apply bind_inv in H. destruct H as (first & w1 & P1 & H).
  apply probe_offsets_quiet in P1.
  apply bind_inv in H. destruct H as ([size flags] & w2 & U & H).
  assert (w2 = w1) as ->.
  { unfold unpack2 in U.
    destruct first as [|a [|b [|c l]]]; try discriminate.
    unfold ret in U. now injection U as _ _ <-. }
  destruct (size <? 0)%Z.
  - apply bind_inv in H. destruct H as (second & w3 & P2 & H).
    apply probe_offsets_quiet in P2.
    assert (w' = w3) as ->.
    { unfold unpack2 in H.
      destruct second as [|a [|b [|c l]]]; try discriminate.
      unfold ret in H. now injection H as _ <-. }
    congruence.
  - unfold ret in H. injection H as _ <-. exact P1.
Qed.

Lemma dict_get_set {V} (d : list (str * V)) (k k' : str) (v : V) :
  dict_get (dict_set d k v) k'
  = if str_eqb k k' then Some v else dict_get d k'.
Proof.
  induction d as [|[k0 v0] d IH]; cbn [dict_set dict_get].
  - reflexivity.
  - destruct (str_eqb k0 k) eqn:E; cbn [dict_get].
    + apply str_eqb_eq in E. subst k0. now destruct (str_eqb k k').
    + destruct (str_eqb k0 k') eqn:E'; [|exact IH].
      apply str_eqb_eq in E'. subst k0. now rewrite str_eqb_sym, E.
Qed.

Lemma record_probe_out (h : host) (arch : str) (version : AndroidVersion)
  (table table' : list (str * list str)) (w w' : world) :
  record_probe h arch version table w = (Ok table', w') ->
  exists size access_flags,
    printed w'
    = printed w
      ++ [progress_line (result_key arch version)
            (result_value size access_flags)]
    /\ table'
       = dict_set table (result_key arch version)
           (sort (set_elements h
                    (match dict_get table (result_key arch version) with
                     | Some entries => entries
                     | None => []
                     end ++ [result_value size access_flags]))).
Proof.
  unfold record_probe. intros H.
  apply bind_inv in H. destruct H as ([size access_flags] & w1 & P & H).
  apply probe_art_field_quiet in P.
  unfold bind, print, ret in H. injection H as <- <-.
  exists size, access_flags. cbn [printed]. rewrite P. split; reflexivity.
Qed.

Section Report.

Variable h : host.
Hypothesis set_keeps_elements :
  forall l x, In x (set_elements h l) <-> In x l.

Lemma record_probe_agrees (arch : str) (version : AndroidVersion)
  (table table' : list (str * list str)) (w w' : world)
  (records : list (str * str)) :
  record_probe h arch version table w = (Ok table', w') ->
  report_agrees table records ->
  exists value,
    printed w' = printed w ++ [progress_line (result_key arch version) value]
    /\ (exists size access_flags, value = result_value size access_flags)
    /\ report_agrees table' (records ++ [(result_key arch version, value)]).
Proof.
  intros H A. apply record_probe_out in H.
  destruct H as (size & flags & Hp & ->).
  exists (result_value size flags). split; [exact Hp|].
  split; [now exists size, flags|].
  intros key value. rewrite in_app_iff, dict_get_set. cbn [In].
  destruct (str_eqb (result_key arch version) key) eqn:E.
  - apply str_eqb_eq in E. subst key. split.
    + intros I. eexists. split; [reflexivity|].
      apply (Permutation.Permutation_in _ (Permutation.Permutation_sym
                                             (sort_perm _))).
      apply (proj2 (set_keeps_elements _ _)). apply in_or_app.
      destruct I as [I|[I|[]]].
      * left. apply (proj1 (A _ _)) in I.
        destruct I as (entries & -> & I). exact I.
      * right. injection I as <-. now left.
    + intros (entries & Es & I). injection Es as <-.
      apply (Permutation.Permutation_in _ (sort_perm _)) in I.
      apply (proj1 (set_keeps_elements _ _)) in I. apply in_app_or in I.
      destruct I as [I|[<-|[]]].
      * left. apply (proj2 (A _ _)).
        destruct (dict_get table (result_key arch version)) as [entries|];
          [|destruct I].
        now exists entries.
      * right. now left.
  - apply str_eqb_neq in E. split.
    + intros [I|[I|[]]]; [now apply (proj1 (A _ _))|].
      injection I as <- _. now destruct E.
    + intros I. left. now apply (proj2 (A _ _)).
Qed.

Lemma versions_loop_agrees (arch : str) (versions : list AndroidVersion) :
  forall table table' w w' records,
    for_each versions (fun version => record_probe h arch version) table w
    = (Ok table', w') ->
    report_agrees table records ->
    exists more,
      printed w'
      = printed w ++ map (fun r => progress_line (fst r) (snd r)) more
      /\ map fst more = map (result_key arch) versions
      /\ Forall (fun r => exists size access_flags,
                            snd r = result_value size access_flags) more
      /\ report_agrees table' (records ++ more).
Proof.
  induction versions as [|v versions IH]; intros table table' w w' records H A;
    cbn [for_each] in H.
  - unfold ret in H. injection H as <- <-. exists [].
    cbn [map]. rewrite !app_nil_r. repeat split; [constructor | |]; apply A.
  - apply bind_inv in H. destruct H as (t1 & w1 & R & H).
    destruct (record_probe_agrees arch v table t1 w w1 records R A)
      as (value & Hp & Hv & A1).
    destruct (IH t1 table' w1 w' _ H A1) as (more & Hp' & Hk & Hf & A').
    exists ((result_key arch v, value) :: more).
    split; [rewrite Hp', Hp; cbn [map fst snd]; now rewrite <- app_assoc|].
    split; [cbn [map fst]; now rewrite Hk|].
    split; [constructor; [exact Hv | exact Hf]|].
    rewrite <- app_assoc in A'. exact A'.
Qed.

Lemma architectures_loop_agrees (versions : list AndroidVersion)
  (archs : list str) :
  forall table table' w w' records,
    for_each archs
      (fun arch =>
         for_each versions (fun version => record_probe h arch version))
      table w
    = (Ok table', w') ->
    report_agrees table records ->
    exists more,
      printed w'
      = printed w ++ map (fun r => progress_line (fst r) (snd r)) more
      /\ map fst more
         = flat_map (fun arch => map (result_key arch) versions) archs
      /\ Forall (fun r => exists size access_flags,
                            snd r = result_value size access_flags) more
      /\ report_agrees table' (records ++ more).
Proof.
  induction archs as [|arch archs IH]; intros table table' w w' records H A;
    cbn [for_each flat_map] in H |- *.
  - unfold ret in H. injection H as <- <-. exists [].
    cbn [map]. rewrite !app_nil_r. repeat split; [constructor | |]; apply A.
  - apply bind_inv in H. destruct H as (t1 & w1 & R & H).
    destruct (versions_loop_agrees arch versions table t1 w w1 records R A)
      as (m1 & Hp1 & Hk1 & Hf1 & A1).
    destruct (IH t1 table' w1 w' _ H A1) as (m2 & Hp2 & Hk2 & Hf2 & A2).
    exists (m1 ++ m2).
    split; [rewrite Hp2, Hp1, map_app; now rewrite <- app_assoc|].
    split; [now rewrite map_app, Hk1, Hk2|].
    split; [now apply Forall_app|].
    rewrite <- app_assoc in A2. exact A2.
Qed.

End Report.

(** X17. When [main] returns, what it has printed is one progress line
    for each architecture and version, in the order of the loops, and then
    the report.  Each progress line shows a size and an offset, and the
    report holds under each key exactly the values of the progress lines of
    that key: nothing is lost and nothing is added. *)
Theorem main_report_matches_progress (h : host) (w w' : world) :
  (forall l x, In x (set_elements h l) <-> In x l) ->
  main h w = (Ok tt, w') ->
  exists tags versions records table,
    fst (compute_tags_affecting h [mirror_header; plain_header] w) = Ok tags
    /\ traverse from_tag tags = Ok versions
    /\ printed w'
       = printed w
         ++ map (fun r => progress_line (fst r) (snd r)) records
         ++ [Json table]
    /\ map fst records
       = flat_map (fun arch => map (result_key arch) versions) architectures
    /\ Forall (fun r => exists size access_flags,
                          snd r = result_value size access_flags) records
    /\ forall key value,
         In (key, value) records
         <-> exists entries,
               dict_get table key = Some entries /\ In value entries.
Proof.
  intros Hset H. unfold main in H.
  apply bind_inv in H. destruct H as (table & w3 & T & H).
  unfold print_json in H. injection H as <-.
  unfold main_table in T.
  apply bind_inv in T. destruct T as (tags & w1 & C & T).
  apply bind_inv in T. destruct T as (versions & w2 & L & T).
  unfold lift in L. injection L as L <-.
  destruct (architectures_loop_agrees h Hset versions architectures [] table
              w1 w3 [] T) as (records & Hp & Hk & Hf & A).
  { intros key value. split; [intros [] | intros (entries & E & _)].
    discriminate. }
  exists tags, versions, records, table.
  split; [now rewrite C|]. split; [exact L|].
  split; [cbn [printed]; rewrite Hp,
            (compute_tags_affecting_quiet _ _ _ _ _ C);
          now rewrite <- app_assoc|].
  split; [exact Hk|]. split; [exact Hf | exact A].
Qed.

Lemma stage_probe_selects_toolchain_witness :
  exists t includes w4,
    stage_probe (scripted_host measured) plain_header plain_class
      probed_fields version70 (lit "arm")
      (worktree_dir (scripted_host measured) system_core version70)
      (os_path_join (worktree_dir (scripted_host measured) platform_art
                       version70) [plain_header])
      probe_cc (checkouts measured version70)
    = (Ok (t, includes), w4)
    /\ In (lit "arm") architectures
    /\ printed w4 = printed (checkouts measured version70)
    /\ cxx t
       = lit "/ndk21/toolchains/llvm/prebuilt/linux-x86_64/bin/armv7a-linux-androideabi16-clang++".
Proof.
  edestruct (stage_probe_selects_toolchain (scripted_host measured)
               plain_header plain_class probed_fields version70 (lit "arm")
               (worktree_dir (scripted_host measured) system_core version70)
               (os_path_join (worktree_dir (scripted_host measured)
                                platform_art version70) [plain_header])
               probe_cc (checkouts measured version70)) as (A & B & C).
  - vm_compute. reflexivity.
  - eexists. eexists. eexists. split; [vm_compute; reflexivity|].
    split; [exact A|]. split; [exact B|]. vm_compute. reflexivity.
Defined.

Lemma stage_probe_rewrites_header_witness :
  exists w4,
    snd (stage_probe (scripted_host carriage_returns) plain_header
           plain_class probed_fields version70 (lit "arm")
           (worktree_dir (scripted_host carriage_returns) system_core
              version70)
           (os_path_join (worktree_dir (scripted_host carriage_returns)
                            platform_art version70) [plain_header])
           probe_cc (checkouts carriage_returns version70))
    = w4
    /\ fs (checkouts carriage_returns version70)
         (os_path_join (worktree_dir (scripted_host carriage_returns)
                          platform_art version70) [plain_header])
       = Some (File art_field_source_crlf)
    /\ fs w4
         (os_path_join (worktree_dir (scripted_host carriage_returns)
                          platform_art version70) [plain_header])
       = Some (File (lit "class ArtField {" ++ nl ++ lit " public:" ++ nl
                     ++ lit "  uint32_t access_flags_;" ++ nl ++ lit "};"
                     ++ nl)).
Proof.
  edestruct (stage_probe_rewrites_header (scripted_host carriage_returns)
               plain_header plain_class probed_fields version70 (lit "arm")
               (worktree_dir (scripted_host carriage_returns) system_core
                  version70)
               (os_path_join (worktree_dir (scripted_host carriage_returns)
                                platform_art version70) [plain_header])
               probe_cc (checkouts carriage_returns version70))
    as (hs & F & R & _).
  - vm_compute. reflexivity.
  - intros E. vm_compute in E. discriminate E.
  - vm_compute. reflexivity.
  - eexists. split; [vm_compute; reflexivity|].
    split; [vm_compute; reflexivity|].
    vm_compute in F. injection F as <-. rewrite R. vm_compute. reflexivity.
Defined.

Lemma probe_offsets_cleans_up_witness :
  let outcome :=
    probe_offsets (scripted_host measured) plain_header plain_class
      probed_fields version70 (lit "arm") empty_world in
  fs (snd outcome) probe_cc = None
  /\ (fs (snd outcome) probe_o = None
      \/ fst outcome = Raise (OSError probe_o)).
Proof.
  edestruct (probe_offsets_cleans_up (scripted_host measured) plain_header
               plain_class probed_fields version70 (lit "arm") empty_world)
    as [A B].
  - vm_compute. reflexivity.
  - vm_compute. reflexivity.
  - vm_compute. discriminate.
  - split; [exact A|]. eapply B. vm_compute. reflexivity.
Defined.

Lemma main_report_matches_progress_witness :
  exists records table,
    printed (snd (main (scripted_host measured) empty_world))
    = map (fun r => progress_line (fst r) (snd r)) records ++ [Json table]
    /\ map fst records
       = [lit "arm-24"; lit "x86-24"; lit "arm64-24"; lit "x86_64-24"].
Proof.
  edestruct (main_report_matches_progress (scripted_host measured)
               empty_world)
    as (tags & versions & records & table & T & V & P & K & _).
  - intros l x. apply first_seen_In.
  - vm_compute. reflexivity.
  - exists records, table. split; [exact P|].
    vm_compute in T. injection T as <-.
    vm_compute in V. injection V as <-.
    rewrite K. vm_compute. reflexivity.
Defined.

Lemma quiet_only_lines {A} (m : M A) :
  (forall w r w', m w = (r, w') -> printed w' = printed w) -> only_lines m.
Proof.
  intros Q w r w' H. exists []. rewrite app_nil_r.
  split; [exact (Q w r w' H) | constructor].
Qed.

Lemma only_lines_ret {A} (a : A) : only_lines (ret a).
Proof. apply quiet_only_lines. intros w r w' H. now injection H as _ <-. Qed.

Lemma only_lines_raise {A} (e : exn) : only_lines (@raise A e).
Proof. apply quiet_only_lines. intros w r w' H. now injection H as _ <-. Qed.

Lemma only_lines_lift {A} (x : res A) : only_lines (lift x).
Proof. apply quiet_only_lines. intros w r w' H. now injection H as _ <-. Qed.

Lemma only_lines_bind {A B} (m : M A) (f : A -> M B) :
  only_lines m -> (forall a, only_lines (f a)) -> only_lines (bind m f).
Proof.
  intros Hm Hf w r w' H. unfold bind in H.
  destruct (m w) as [[a|e] w1] eqn:E.
  - destruct (Hm _ _ _ E) as (l1 & P1 & F1).
    destruct (Hf a _ _ _ H) as (l2 & P2 & F2).
    exists (l1 ++ l2). rewrite P2, P1, app_assoc.
    split; [reflexivity | now apply Forall_app].
  - injection H as _ <-. exact (Hm _ _ _ E).
Qed.

Lemma only_lines_try_finally {A} (body : M A) (cleanup : M unit) :
  only_lines body -> only_lines cleanup ->
  only_lines (try_finally body cleanup).
Proof.
  intros Hb Hc w r w' H. unfold try_finally in H.
  destruct (body w) as [rb wb] eqn:B.
  destruct (cleanup wb) as [rc wc] eqn:C.
  destruct (Hb _ _ _ B) as (l1 & P1 & F1).
  destruct (Hc _ _ _ C) as (l2 & P2 & F2).
  assert (w' = wc) as -> by (destruct rc; now injection H as _ <-).
  exists (l1 ++ l2). rewrite P2, P1, app_assoc.
  split; [reflexivity | now apply Forall_app].
Qed.

Lemma only_lines_temporary {A} (h : host) (prefix suffix : str)
  (body : str -> M A) :
  (forall name, only_lines (body name)) ->
  only_lines (with_named_temporary_file h prefix suffix body).
Proof.
  intros Hb w r w' H. unfold with_named_temporary_file in H.
  match type of H with
  | (let (_, _) := ?b in _) = _ => destruct b as [rb wb] eqn:B
  end.
  injection H as _ <-. exact (Hb _ _ _ _ B).
Qed.

Lemma only_lines_print (text : str) : only_lines (print text).
Proof.
  intros w r w' H. injection H as _ <-. exists [Line text].
  split; [reflexivity | repeat constructor].
Qed.

Lemma only_lines_exists (p : str) : only_lines (os_path_exists p).
Proof. apply quiet_only_lines. intros w r w' H. now injection H as _ <-. Qed.

Lemma only_lines_isdir (p : str) : only_lines (os_path_isdir p).
Proof. apply quiet_only_lines. intros w r w' H. now injection H as _ <-. Qed.

Lemma only_lines_unlink (p : str) : only_lines (os_unlink p).
Proof.
  apply quiet_only_lines. intros w r w' H. unfold os_unlink in H.
  destruct (fs w p) as [[c|]|]; now injection H as _ <-.
Qed.

Lemma only_lines_read (p : str) : only_lines (read_file p).
Proof.
  apply quiet_only_lines. intros w r w' H. unfold read_file in H.
  destruct (fs w p) as [[c|]|]; now injection H as _ <-.
Qed.

Lemma only_lines_write (p text : str) : only_lines (write_file p text).
Proof.
  apply quiet_only_lines. intros w r w' H. unfold write_file in H.
  destruct (fs w p) as [[c|]|]; now injection H as _ <-.
Qed.

Lemma only_lines_run (h : host) (args : list str) (cwd : option str)
  (check : bool) : only_lines (subprocess_run h args cwd check).
Proof.
  apply quiet_only_lines. intros w r w'. apply subprocess_run_quiet.
Qed.

Lemma only_lines_for_each {A S} (xs : list A) (body : A -> S -> M S) :
  (forall x s, only_lines (body x s)) ->
  forall s, only_lines (for_each xs body s).
Proof.
  intros Hb. induction xs as [|x xs IH]; intros s; cbn [for_each].
  - apply only_lines_ret.
  - apply only_lines_bind; [apply Hb | exact IH].
Qed.

Ltac only_lines_step :=
  first
    [ apply only_lines_ret
    | apply only_lines_raise
    | apply only_lines_lift
    | apply only_lines_print
    | apply only_lines_exists
    | apply only_lines_isdir
    | apply only_lines_unlink
    | apply only_lines_read
    | apply only_lines_write
    | apply only_lines_run
    | apply only_lines_bind; [|intros ?]
    | apply only_lines_try_finally
    | apply only_lines_temporary; intros ?
    | match goal with
      | |- only_lines (if ?b then _ else _) => destruct b
      | |- only_lines (match ?x with _ => _ end) => destruct x
      | |- only_lines (let _ := _ in _) => cbv zeta
      end ].

Lemma only_lines_run_in_art_repo (h : host) (args : list str) :
  only_lines (run_in_art_repo h args).
Proof.
  intros w r w' H. unfold run_in_art_repo in H.
  destruct (subprocess_run h args (Some (art_repo_dir h)) true w)
    as [[c|e] w1] eqn:S; apply subprocess_run_quiet in S.
  - injection H as _ <-. exists []. rewrite app_nil_r.
    split; [exact S | constructor].
  - destruct e;
      try (injection H as _ <-; exists []; rewrite app_nil_r;
           split; [exact S | constructor]).
    unfold bind, print, raise in H. injection H as _ <-.
    eexists. cbn [printed]. rewrite S.
    split; [reflexivity | repeat constructor].
Qed.

Lemma only_lines_tags_loop (h : host) (path : str) (tags : list str) :
  forall i previous_tag result,
    only_lines (tags_loop h path i previous_tag tags result).
Proof.
  induction tags as [|t tags IH]; intros i previous_tag result;
    cbn [tags_loop].
  - apply only_lines_ret.
  - apply only_lines_bind; [|intros ?; apply IH].
    repeat first [apply only_lines_run_in_art_repo | only_lines_step].
Qed.

Lemma only_lines_compute_tags_affecting (h : host) (paths : list str) :
  only_lines (compute_tags_affecting h paths).
Proof.
  unfold compute_tags_affecting.
  apply only_lines_bind; [|intros ?; apply only_lines_ret].
  generalize (@nil str).
  induction paths as [|p paths IH]; intros tags; cbn [tags_of_paths].
  - apply only_lines_ret.
  - apply only_lines_bind; [|intros ?; apply IH].
    unfold compute_tags_affecting_path.
    apply only_lines_bind;
      [apply only_lines_run_in_art_repo | intros ?; apply only_lines_tags_loop].
Qed.

Lemma only_lines_get_toolchain (h : host) (arch flavor : str) :
  only_lines (get_toolchain h arch flavor).
Proof.
  apply quiet_only_lines. intros w [t|e] w' H.
  - destruct (get_toolchain_inv _ _ _ _ _ _ H)
      as (generic & abi & d & _ & _ & _ & _ & _ & Hp & _).
    exact Hp.
  - exact (proj1 (get_toolchain_raise _ _ _ _ _ _ H)).
Qed.

Lemma only_lines_probe_offsets (h : host) (header class_name : str)
  (field_names : list str) (version : AndroidVersion) (arch : str) :
  only_lines (probe_offsets h header class_name field_names version arch).
Proof.
  unfold probe_offsets, get_aosp_checkout, stage_probe, compile_and_extract.
  repeat first [apply only_lines_get_toolchain | only_lines_step].
Qed.

Lemma only_lines_main_table (h : host) : only_lines (main_table h).
Proof.
  unfold main_table.
  apply only_lines_bind; [apply only_lines_compute_tags_affecting|intros tags].
  apply only_lines_bind; [apply only_lines_lift|intros versions].
  apply only_lines_for_each. intros arch table.
  apply only_lines_for_each. intros version table'.
  unfold record_probe, probe_art_field, unpack2.
  repeat first [apply only_lines_probe_offsets | only_lines_step].
Qed.

(** X18. A run of [main] that ends with an exception has printed no
    report: what it has printed are lines, the diagnostic of a failed
    process and the progress lines of the probes done before. *)
Theorem main_failure_prints_no_report (h : host) (w w' : world) (e : exn) :
  main h w = (Raise e, w') ->
  exists ls,
    printed w' = printed w ++ ls
    /\ Forall (fun o => exists text, o = Line text) ls.
Proof.
  intros H. unfold main, bind in H.
  destruct (main_table h w) as [[table|e'] w1] eqn:T; [discriminate|].
  injection H as _ <-.
  destruct (only_lines_main_table h _ _ _ T) as (ls & P & F).
  exists ls. split; [exact P|].
  eapply Forall_impl; [|exact F].
  intros [text|table] L; [now exists text | destruct L].
Qed.

Lemma main_failure_prints_no_report_witness :
  exists ls,
    printed (snd (main (scripted_host (failing no_runtime_header))
                    empty_world))
    = ls
    /\ Forall (fun o => exists text, o = Line text) ls.
Proof.
  edestruct (main_failure_prints_no_report
               (scripted_host (failing no_runtime_header)) empty_world)
    as (ls & P & F).
  - vm_compute. reflexivity.
  - exists ls. split; [exact P | exact F].
Defined.
